(** * conf: typed configuration loading from environment, flags and dotenv

    A shallow embedding of the Go package [github.com/solhall/conf] and of
    its [dotenv] sub-package, together with the properties of its
    specification.

    Conventions of the embedding.
    - Go strings are byte strings: [string].  Go's [int] is taken to be
      64 bits wide and is carried as a [Z] inside the int64 range.
    - A pointer [*string], [*int] or [*bool] is an [option loc]: [None] is
      the nil pointer, [Some l] the address of slot [l] of the store of
      that primitive type ([mem]).  Dereferencing nil panics.
    - A call either returns or panics ([outcome]); Go [error] results are
      ordinary return values ([option error], [None] being nil).
    - Objects that the code mutates through a pointer receiver (providers,
      the flag set, the dotenv stream) are threaded explicitly.
    - What the Go runtime and standard library leave open or what lies
      outside this repository is a field of the class [GoRuntime]: the
      iteration order of [range] over a map, [strconv.Quote] (used by the
      [%q] verb) and [strconv.ParseInt] with base 0 (used by integer
      flags). *)

From Stdlib Require Import ZArith Ascii String List Bool Lia.
From Stdlib Require Import DecimalString DecimalZ DecimalPos DecimalFacts.
From stdpp Require Import base option list gmap strings.

Local Open Scope string_scope.
Local Open Scope Z_scope.

(** ** Outcomes: return or panic *)

Inductive outcome (A : Type) : Type :=
| Returned (a : A)
| Panicked (msg : string).
Arguments Returned {A} a.
Arguments Panicked {A} msg.

Definition obind {A B} (x : outcome A) (f : A -> outcome B) : outcome B :=
  match x with
  | Returned a => f a
  | Panicked msg => Panicked msg
  end.

Global Instance outcome_bind : MBind outcome := fun A B f x => obind x f.
Global Instance outcome_ret : MRet outcome := @Returned.

(** ** Errors

    [fmt.Errorf] with a [%w] verb yields an error that wraps its cause;
    [Error] is the rendered message. *)

Inductive error : Type :=
| errorString (s : string)
| wrapError (msg : string) (err : error).

Definition Error (e : error) : string :=
  match e with
  | errorString s => s
  | wrapError msg _ => msg
  end.

(** [fmt.Errorf(prefix + "%w", err)] *)
Definition Errorf_w (prefix : string) (err : error) : error :=
  wrapError (prefix +:+ Error err) err.

(** ** Strings: the functions of package [strings] that the code calls *)

Module GoStrings.

Definition byte_eqb (a b : ascii) : bool := Ascii.eqb a b.

(** [strings.ReplaceAll(s, old, new)] for one-byte [old] and [new]. *)
Fixpoint ReplaceAll (s : string) (old new : ascii) : string :=
  match s with
  | EmptyString => EmptyString
  | String c s' =>
      String (if byte_eqb c old then new else c) (ReplaceAll s' old new)
  end.

(** [strings.ToUpper] on ASCII letters; other bytes are kept. *)
Definition upper_byte (c : ascii) : ascii :=
  let n := nat_of_ascii c in
  if (97 <=? n)%nat && (n <=? 122)%nat then ascii_of_nat (n - 32) else c.

Fixpoint ToUpper (s : string) : string :=
  match s with
  | EmptyString => EmptyString
  | String c s' => String (upper_byte c) (ToUpper s')
  end.

(** [strings.HasPrefix] and [strings.TrimPrefix]. *)
Fixpoint HasPrefix (s prefix : string) : bool :=
  match prefix, s with
  | EmptyString, _ => true
  | String p prefix', String c s' => byte_eqb c p && HasPrefix s' prefix'
  | String _ _, EmptyString => false
  end.

Fixpoint drop (n : nat) (s : string) : string :=
  match n, s with
  | O, _ => s
  | S n', String _ s' => drop n' s'
  | S _, EmptyString => EmptyString
  end.

Definition TrimPrefix (s prefix : string) : string :=
  if HasPrefix s prefix then drop (String.length prefix) s else s.

(** [strings.Split(s, sep)] for a one-byte separator: always at least
    one part. *)
Fixpoint Split_go (s : string) (sep : ascii) (cur : string) : list string :=
  match s with
  | EmptyString => [cur]
  | String c s' =>
      if byte_eqb c sep then cur :: Split_go s' sep EmptyString
      else Split_go s' sep (cur +:+ String c EmptyString)
  end.

Definition Split (s : string) (sep : ascii) : list string :=
  Split_go s sep EmptyString.

(** [strings.Join]. *)
Fixpoint Join (elems : list string) (sep : string) : string :=
  match elems with
  | [] => EmptyString
  | [e] => e
  | e :: rest => e +:+ sep +:+ Join rest sep
  end.

(** [strings.TrimSpace], on the ASCII white space bytes. *)
Definition is_space (c : ascii) : bool :=
  let n := nat_of_ascii c in
  (n =? 32)%nat || ((9 <=? n)%nat && (n <=? 13)%nat).

Fixpoint TrimLeft (s : string) : string :=
  match s with
  | EmptyString => EmptyString
  | String c s' => if is_space c then TrimLeft s' else s
  end.

Fixpoint TrimRight (s : string) : string :=
  match s with
  | EmptyString => EmptyString
  | String c s' =>
      match TrimRight s' with
      | EmptyString => if is_space c then EmptyString else String c EmptyString
      | t => String c t
      end
  end.

Definition TrimSpace (s : string) : string := TrimRight (TrimLeft s).

(** [slices.Contains] on strings. *)
Definition Contains (l : list string) (x : string) : bool :=
  existsb (String.eqb x) l.

(** [s] has [sub] as a substring. *)
Definition has_substring (s sub : string) : Prop :=
  exists pre post, s = pre +:+ sub +:+ post.

End GoStrings.

(** ** Slots, typed destinations and the stores they live in *)

Definition loc := nat.

Record mem : Type := Mem {
  strs : gmap loc string;
  ints : gmap loc Z;
  bools : gmap loc bool
}.

Definition load_string (h : mem) (l : loc) : string := default "" (strs h !! l).
Definition load_int (h : mem) (l : loc) : Z := default 0 (ints h !! l).
Definition load_bool (h : mem) (l : loc) : bool := default false (bools h !! l).

Definition store_string (h : mem) (l : loc) (v : string) : mem :=
  Mem (<[l := v]> (strs h)) (ints h) (bools h).
Definition store_int (h : mem) (l : loc) (v : Z) : mem :=
  Mem (strs h) (<[l := v]> (ints h)) (bools h).
Definition store_bool (h : mem) (l : loc) (v : bool) : mem :=
  Mem (strs h) (ints h) (<[l := v]> (bools h)).

Definition nil_deref : string :=
  "runtime error: invalid memory address or nil pointer dereference".

(** The kinds of [reflect.Kind] that the code distinguishes, and any
    other kind under its name. *)
Inductive Kind : Type :=
| Bool_
| Int
| String_
| Struct
| Ptr
| OtherKind (name : string).

Definition Kind_String (k : Kind) : string :=
  match k with
  | Bool_ => "bool"
  | Int => "int"
  | String_ => "string"
  | Struct => "struct"
  | Ptr => "ptr"
  | OtherKind name => name
  end.

Global Instance Kind_eq_dec : EqDecision Kind.
Proof. solve_decision. Defined.

Record typ : Type := Typ {
  kind : Kind;
  intVal : option loc;
  stringVal : option loc;
  boolVal : option loc
}.

Global Instance typ_eq_dec : EqDecision typ.
Proof. solve_decision. Defined.

Definition typ_String (to : option loc) : typ := Typ String_ None to None.
Definition typ_Int (to : option loc) : typ := Typ Int to None None.
Definition typ_Bool (to : option loc) : typ := Typ Bool_ None None to.

(** [typ.Empty] *)
Definition Empty (t : typ) (h : mem) : bool :=
  match kind t with
  | String_ =>
      match stringVal t with
      | None => true
      | Some l => String.eqb (load_string h l) ""
      end
  | Int => match intVal t with None => true | Some _ => false end
  | Bool_ => match boolVal t with None => true | Some _ => false end
  | _ => true
  end.

(** ** What the runtime and the standard library leave open *)

(** The two causes of a [strconv.NumError]. *)
Inductive numerr : Type := ErrSyntax | ErrRange.

Class GoRuntime : Type := {
  (** the order in which [range] visits the entries of a map *)
  range_order : gmap string typ -> list (string * typ);
  (** [strconv.Quote], the [%q] verb *)
  Quote : string -> string;
  (** [strconv.ParseInt(s, 0, 64)]: the value returned and the cause of
      the error, if any *)
  ParseInt0 : string -> Z * option numerr;
  (** [os.Getenv] and [os.Args[1:]] *)
  os_Getenv : string -> string;
  os_Args : list string;
  (** [os.Open(".env")]: the lines of the file, or the error *)
  os_Open_dotenv : list string + error
}.

(** [range] visits every entry of the map exactly once. *)
Definition range_complete `{GoRuntime} : Prop :=
  forall m : gmap string typ, range_order m ≡ₚ map_to_list m.

(** ** Package [strconv] *)

Module Strconv.

Definition numerr_text (e : numerr) : string :=
  match e with
  | ErrSyntax => "invalid syntax"
  | ErrRange => "value out of range"
  end.

(** The [NumError] of function [fn] on input [num], with its message. *)
Definition NumError `{GoRuntime} (fn num : string) (e : numerr) : error :=
  wrapError
    ("strconv." +:+ fn +:+ ": parsing " +:+ Quote num +:+ ": " +:+ numerr_text e)
    (errorString (numerr_text e)).

Definition maxUint64 : Z := 2 ^ 64 - 1.
Definition minInt64 : Z := - 2 ^ 63.
Definition maxInt64 : Z := 2 ^ 63 - 1.

Definition is_digit (c : ascii) : bool :=
  let n := nat_of_ascii c in (48 <=? n)%nat && (n <=? 57)%nat.

Definition digit_val (c : ascii) : Z := Z.of_nat (nat_of_ascii c) - 48.

(** The digit loop of [ParseUint] in base 10 with 64 bits: a byte that
    is no digit is a syntax error, an accumulator that leaves uint64 a
    range error, whichever comes first. *)
Fixpoint ParseUint10 (n : Z) (s : string) : Z + numerr :=
  match s with
  | EmptyString => inl n
  | String c s' =>
      if is_digit c then
        let n1 := n * 10 + digit_val c in
        if maxUint64 <? n1 then inr ErrRange else ParseUint10 n1 s'
      else inr ErrSyntax
  end.

(** [ParseInt(s, 10, 0)] up to the error kind. *)
Definition ParseInt10 (s : string) : Z + numerr :=
  match s with
  | EmptyString => inr ErrSyntax
  | String c s' =>
      let neg := Ascii.eqb c "-" in
      let ds := if Ascii.eqb c "+" || neg then s' else s in
      match ds with
      | EmptyString => inr ErrSyntax
      | _ =>
          match ParseUint10 0 ds with
          | inr e => inr e
          | inl un =>
              if negb neg && (maxInt64 <? un) then inr ErrRange
              else if neg && (- minInt64 <? un) then inr ErrRange
              else inl (if neg then - un else un)
          end
      end
  end.

(** [strconv.Atoi]: an optional sign and decimal digits, inside int64.
    The fast path of the Go function for short inputs computes the same
    value as the general path. *)
Definition Atoi `{GoRuntime} (s : string) : Z + error :=
  match ParseInt10 s with
  | inl v => inl v
  | inr e => inr (NumError "Atoi" s e)
  end.

(** [strconv.ParseBool] *)
Definition ParseBool `{GoRuntime} (str : string) : bool + error :=
  if existsb (String.eqb str) ["1"; "t"; "T"; "TRUE"; "true"; "True"]
  then inl true
  else if existsb (String.eqb str) ["0"; "f"; "F"; "FALSE"; "false"; "False"]
  then inl false
  else inr (NumError "ParseBool" str ErrSyntax).

(** [fmt.Sprintf("%d", n)] *)
Definition FormatInt (n : Z) : string := NilZero.string_of_int (Z.to_int n).

End Strconv.

(** ** Package [dotenv] *)

(** An [io.ReadCloser], taken by the bytes it delivers before it ends,
    by EOF or by an error of [Read] ([ParseReader] never looks at
    [scanner.Err], so it cannot tell the two apart): the raw lines (the
    bytes between line feeds) that the scanner has not yet delivered,
    whether [Close] has been called, and what [Close] returns. *)
Record ReadCloser : Type := MkReadCloser {
  unread : list string;
  closed : bool;
  close_result : option error
}.

Module Dotenv.

Definition parse_line (line : string) (lineNr : Z) (m : gmap string string)
  : option (gmap string string) + error :=
  let line := GoStrings.TrimSpace line in
  if GoStrings.HasPrefix line "#" then inl None
  else if String.eqb line "" then inl None
  else
    let parts := GoStrings.Split line "=" in
    match parts with
    | [] | [_] =>
        inr (errorString ("malformed line " +:+ Strconv.FormatInt lineNr +:+ ": " +:+ line))
    | [k; v] => inl (Some (<[GoStrings.TrimSpace k := GoStrings.TrimSpace v]> m))
    | k :: rest => inl (Some (<[GoStrings.TrimSpace k := GoStrings.Join rest "="]> m))
    end.

(** [bufio.MaxScanTokenSize]: the size of the buffer of the scanner.  A
    raw line of that many bytes or more fills the buffer before its
    line feed is seen, and [Scan] gives up with [ErrTooLong]. *)
Definition MaxScanTokenSize : N := 65536.

Definition too_long (line : string) : bool :=
  (MaxScanTokenSize <=? N.of_nat (String.length line))%N.

(** [dropCR]: the line without one trailing carriage return, as
    [ScanLines] delivers it. *)
Fixpoint dropCR (line : string) : string :=
  match line with
  | EmptyString => EmptyString
  | String c EmptyString => if Ascii.eqb c "013" then EmptyString else line
  | String c rest => String c (dropCR rest)
  end.

(** The loop of [ParseReader] over the raw lines still to be scanned;
    [lineNr] counts the lines scanned so far.  The loop ends when [Scan]
    returns false, at the end of the text or at a line that is too long;
    the error of the scanner is never looked at.  The result comes with
    the lines left undelivered. *)
Fixpoint scan (lines : list string) (lineNr : Z) (m : gmap string string)
  : (gmap string string + error) * list string :=
  match lines with
  | [] => (inl m, [])
  | line :: rest =>
      if too_long line then (inl m, lines)
      else
        match parse_line (dropCR line) (lineNr + 1) m with
        | inr err => (inr err, rest)
        | inl None => scan rest (lineNr + 1) m
        | inl (Some m') => scan rest (lineNr + 1) m'
        end
  end.

(** [dotenv.ParseReader]: reads, never closes. *)
Definition ParseReader (r : ReadCloser)
  : (gmap string string + error) * ReadCloser :=
  let '(res, rest) := scan (unread r) 0 ∅ in
  (res, MkReadCloser rest (closed r) (close_result r)).

(** [dotenv.Parse]: opens [.env], parses it and closes it on every path
    ([defer f.Close()]). *)
Definition Parse `{GoRuntime} : gmap string string + error :=
  match os_Open_dotenv with
  | inr err => inr (Errorf_w "failed to open file: " err)
  | inl lines =>
      match fst (scan lines 0 ∅) with
      | inr err => inr (Errorf_w "error reading .env: " err)
      | inl m => inl m
      end
  end.

End Dotenv.

(** ** The Environment Source *)

Module EnvProvider.

Record t : Type := Mk {
  withDotEnv : bool;
  dotEnvReader : option ReadCloser;
  getenv : string -> string;
  m : gmap string typ;
  fallbacks : gmap string string;
  required : list string;
  missing : list string
}.

Definition NewEnvProvider (getenv : string -> string) : t :=
  Mk false None getenv ∅ ∅ [] [].

Definition WithDotEnv (p : t) (r : option ReadCloser) : t :=
  Mk true (match r with Some _ => r | None => dotEnvReader p end)
     (getenv p) (m p) (fallbacks p) (required p) (missing p).

Definition set_reader (p : t) (r : option ReadCloser) : t :=
  Mk (withDotEnv p) r (getenv p) (m p) (fallbacks p) (required p) (missing p).

Definition set_getenv (p : t) (g : string -> string) : t :=
  Mk (withDotEnv p) (dotEnvReader p) g (m p) (fallbacks p) (required p) (missing p).

Definition add_missing (p : t) (name : string) : t :=
  Mk (withDotEnv p) (dotEnvReader p) (getenv p) (m p) (fallbacks p)
     (required p) (missing p ++ [name]).

(** What the three registration functions share. *)
Definition bind (p : t) (name : string) (to : typ) (fallback : option string)
    (req : bool) : t :=
  Mk (withDotEnv p) (dotEnvReader p) (getenv p)
     (<[name := to]> (m p))
     (match fallback with
      | Some f => <[name := f]> (fallbacks p)
      | None => fallbacks p
      end)
     (if req then required p ++ [name] else required p)
     (missing p).

Definition StringVar (p : t) (to : option loc) (name fallback : string)
    (req : bool) : t :=
  bind p name (typ_String to)
       (if String.eqb fallback "" then None else Some fallback) req.

Definition IntVar (p : t) (to : option loc) (name : string) (fallback : Z)
    (req : bool) : t :=
  bind p name (typ_Int to)
       (if fallback =? 0 then None else Some (Strconv.FormatInt fallback)) req.

Definition BoolVar (p : t) (to : option loc) (name : string) (fallback : bool)
    (req : bool) : t :=
  bind p name (typ_Bool to) (Some (if fallback then "true" else "false")) req.

Definition Missing (p : t) : list string := missing p.

(** The overlay installed by [AddDotEnv]. *)
Definition overlay (dotenvs : gmap string string)
    (defaultGetenv : string -> string) (name : string) : string :=
  match dotenvs !! name with
  | Some v => v
  | None => defaultGetenv name
  end.

Definition AddDotEnv `{GoRuntime} (p : t) : option error * t :=
  match dotEnvReader p with
  | Some r =>
      match Dotenv.ParseReader r with
      | (inr err, r') =>
          (Some (Errorf_w "failed to parse .env file: " err), set_reader p (Some r'))
      | (inl dotenvs, r') =>
          let r'' := MkReadCloser (unread r') true (close_result r') in
          match close_result r' with
          | Some err =>
              (Some (Errorf_w "failed to close .env file: " err),
               set_reader p (Some r''))
          | None =>
              (None, set_getenv (set_reader p (Some r'')) (overlay dotenvs (getenv p)))
          end
      end
  | None =>
      match Dotenv.Parse with
      | inr err => (Some (Errorf_w "failed to parse .env file: " err), p)
      | inl dotenvs => (None, set_getenv p (overlay dotenvs (getenv p)))
      end
  end.

(** The name under which a parameter is looked up. *)
Definition uppersnake (name : string) : string :=
  GoStrings.ToUpper (GoStrings.ReplaceAll name "-" "_").

(** The raw value of a parameter: the lookup, or the fallback when the
    lookup is empty. *)
Definition rawVal (p : t) (name : string) : string :=
  let raw := getenv p (uppersnake name) in
  if String.eqb raw "" then
    match fallbacks p !! name with
    | Some fallback => fallback
    | None => raw
    end
  else raw.

(** The loop of [Load] over the entries of [p.m] in the order of
    [range]. *)
Fixpoint resolve `{GoRuntime} (p : t) (entries : list (string * typ)) (h : mem)
  : outcome (option error * t * mem) :=
  match entries with
  | [] => Returned (None, p, h)
  | (name, to) :: rest =>
      let raw := rawVal p name in
      if String.eqb raw "" then
        resolve
          (if GoStrings.Contains (required p) name then add_missing p name else p)
          rest h
      else
        match kind to with
        | String_ =>
            match stringVal to with
            | None => Panicked nil_deref
            | Some l => resolve p rest (store_string h l raw)
            end
        | Int =>
            match Strconv.Atoi raw with
            | inr err =>
                Returned
                  (Some (Errorf_w ("failed to parse " +:+ name +:+ " as int: ") err),
                   p, h)
            | inl val =>
                match intVal to with
                | None => Panicked nil_deref
                | Some l => resolve p rest (store_int h l val)
                end
            end
        | Bool_ =>
            match Strconv.ParseBool raw with
            | inr err =>
                Returned
                  (Some (Errorf_w ("failed to parse " +:+ name +:+ " as bool: ") err),
                   p, h)
            | inl val =>
                match boolVal to with
                | None => Panicked nil_deref
                | Some l => resolve p rest (store_bool h l val)
                end
            end
        | k =>
            Returned
              (Some (errorString
                       ("field " +:+ name +:+ " has unsupported type " +:+ Kind_String k)),
               p, h)
        end
  end.

(** The first step of [Load]: the overlay, when it is enabled. *)
Definition prepare `{GoRuntime} (p : t) : option error * t :=
  if withDotEnv p then AddDotEnv p else (None, p).

Definition Load `{GoRuntime} (p : t) (h : mem)
  : outcome (option error * t * mem) :=
  let '(err, p1) := prepare p in
  match err with
  | Some err => Returned (Some (Errorf_w "failed to add .env file: " err), p1, h)
  | None => resolve p1 (range_order (m p1)) h
  end.

End EnvProvider.

(** ** Package [flag]: a flag set with [ContinueOnError] whose output is
    discarded *)

Module Flag.

(** The values of [StringVar], [IntVar] and [BoolVar]: a pointer that
    registration has already written through, hence not nil. *)
Inductive Value : Type :=
| stringValue (p : loc)
| intValue (p : loc)
| boolValue (p : loc).

Record FlagSet : Type := MkFlagSet {
  name : string;
  formal : gmap string Value;
  args : list string
}.

Definition NewFlagSet (name : string) : FlagSet := MkFlagSet name ∅ [].

Definition Args (f : FlagSet) : list string := args f.

(** [FlagSet.Var] *)
Definition Var `{GoRuntime} (f : FlagSet) (value : Value) (nm : string)
  : outcome FlagSet :=
  if GoStrings.HasPrefix nm "-" then
    Panicked ("flag " +:+ Quote nm +:+ " begins with -")
  else if existsb (Ascii.eqb "=") (list_ascii_of_string nm) then
    Panicked ("flag " +:+ Quote nm +:+ " contains =")
  else
    match formal f !! nm with
    | Some _ =>
        Panicked
          (if String.eqb (name f) "" then "flag redefined: " +:+ nm
           else name f +:+ " flag redefined: " +:+ nm)
    | None => Returned (MkFlagSet (name f) (<[nm := value]> (formal f)) (args f))
    end.

(** [FlagSet.StringVar], [IntVar], [BoolVar]: the default is written
    through the pointer, then the flag is defined. *)
Definition StringVar `{GoRuntime} (f : FlagSet) (p : option loc)
    (nm value : string) (h : mem) : outcome (FlagSet * mem) :=
  match p with
  | None => Panicked nil_deref
  | Some l => f' ← Var f (stringValue l) nm; mret (f', store_string h l value)
  end.

Definition IntVar `{GoRuntime} (f : FlagSet) (p : option loc)
    (nm : string) (value : Z) (h : mem) : outcome (FlagSet * mem) :=
  match p with
  | None => Panicked nil_deref
  | Some l => f' ← Var f (intValue l) nm; mret (f', store_int h l value)
  end.

Definition BoolVar `{GoRuntime} (f : FlagSet) (p : option loc)
    (nm : string) (value : bool) (h : mem) : outcome (FlagSet * mem) :=
  match p with
  | None => Panicked nil_deref
  | Some l => f' ← Var f (boolValue l) nm; mret (f', store_bool h l value)
  end.

Definition numError (e : numerr) : error :=
  match e with
  | ErrSyntax => errorString "parse error"
  | ErrRange => errorString "value out of range"
  end.

(** [Value.Set]: the integer and boolean values are stored even when
    the text does not parse. *)
Definition Set_ `{GoRuntime} (v : Value) (s : string) (h : mem)
  : option error * mem :=
  match v with
  | stringValue l => (None, store_string h l s)
  | intValue l =>
      let '(n, err) := ParseInt0 s in
      (numError <$> err, store_int h l n)
  | boolValue l =>
      match Strconv.ParseBool s with
      | inl b => (None, store_bool h l b)
      | inr _ => (Some (errorString "parse error"), store_bool h l false)
      end
  end.

Definition IsBoolFlag (v : Value) : bool :=
  match v with boolValue _ => true | _ => false end.

Definition ErrHelp : error := errorString "flag: help requested".

(** [name[i] == '='] for the first [i >= 1]: the name before it and
    the value after it. *)
Fixpoint cut_value (nm : string) : string * option string :=
  match nm with
  | EmptyString => (EmptyString, None)
  | String c rest =>
      if Ascii.eqb c "=" then (EmptyString, Some rest)
      else let '(n, v) := cut_value rest in (String c n, v)
  end.

Definition split_name (nm : string) : string * option string :=
  match nm with
  | EmptyString => (EmptyString, None)
  | String c rest => let '(n, v) := cut_value rest in (String c n, v)
  end.

(** The token is not a flag: shorter than two bytes or without a
    leading minus. *)
Definition non_flag (s : string) : bool :=
  match s with
  | String c (String _ _) => negb (Ascii.eqb c "-")
  | _ => true
  end.

(** The head of the token after one or two minus signs. *)
Definition strip_minuses (s : string) : string :=
  match s with
  | String _ (String c2 rest) =>
      if Ascii.eqb c2 "-" then rest else String c2 rest
  | _ => s
  end.

Definition bad_name (nm : string) : bool :=
  match nm with
  | EmptyString => true
  | String c _ => Ascii.eqb c "-" || Ascii.eqb c "="
  end.

(** [FlagSet.Parse]: [parseOne] repeated until a token is not a flag,
    the terminator [--] has been consumed, the tokens are used up or an
    error occurs.  The result is the error, the tokens left ([f.args])
    and the store. *)
Fixpoint parse `{GoRuntime} (formal : gmap string Value) (args : list string)
    (h : mem) : option error * list string * mem :=
  match args with
  | [] => (None, [], h)
  | s :: rest =>
      if non_flag s then (None, args, h)
      else if String.eqb s "--" then (None, rest, h)
      else
        let nm := strip_minuses s in
        if bad_name nm then
          (Some (errorString ("bad flag syntax: " +:+ s)), args, h)
        else
          let '(nm, value) := split_name nm in
          match formal !! nm with
          | None =>
              if String.eqb nm "help" || String.eqb nm "h" then (Some ErrHelp, rest, h)
              else
                (Some (errorString ("flag provided but not defined: -" +:+ nm)),
                 rest, h)
          | Some fv =>
              if IsBoolFlag fv then
                match value with
                | Some v =>
                    match Set_ fv v h with
                    | (Some err, h') =>
                        (Some (errorString
                                 ("invalid boolean value " +:+ Quote v +:+ " for -"
                                  +:+ nm +:+ ": " +:+ Error err)),
                         rest, h')
                    | (None, h') => parse formal rest h'
                    end
                | None =>
                    match Set_ fv "true" h with
                    | (Some err, h') =>
                        (Some (errorString
                                 ("invalid boolean flag " +:+ nm +:+ ": " +:+ Error err)),
                         rest, h')
                    | (None, h') => parse formal rest h'
                    end
                end
              else
                match value, rest with
                | Some v, _ =>
                    match Set_ fv v h with
                    | (Some err, h') =>
                        (Some (errorString
                                 ("invalid value " +:+ Quote v +:+ " for flag -"
                                  +:+ nm +:+ ": " +:+ Error err)),
                         rest, h')
                    | (None, h') => parse formal rest h'
                    end
                | None, v :: rest' =>
                    match Set_ fv v h with
                    | (Some err, h') =>
                        (Some (errorString
                                 ("invalid value " +:+ Quote v +:+ " for flag -"
                                  +:+ nm +:+ ": " +:+ Error err)),
                         rest', h')
                    | (None, h') => parse formal rest' h'
                    end
                | None, [] =>
                    (Some (errorString ("flag needs an argument: -" +:+ nm)), rest, h)
                end
          end
  end.

Definition Parse `{GoRuntime} (f : FlagSet) (arguments : list string) (h : mem)
  : option error * FlagSet * mem :=
  let '(err, rest, h') := parse (formal f) arguments h in
  (err, MkFlagSet (name f) (formal f) rest, h').

End Flag.

(** The loop that the Argument Source and the Priority Composer run after
    resolution: the required names whose destination is empty are
    appended to the missing list. *)
Fixpoint collect_missing (entries : list (string * typ)) (required : list string)
    (h : mem) (missing : list string) : list string :=
  match entries with
  | [] => missing
  | (name, to) :: rest =>
      collect_missing rest required h
        (if Empty to h && GoStrings.Contains required name
         then missing ++ [name] else missing)
  end.

(** ** The Argument Source *)

Module FlagProvider.

(** [remainingFunc] is a callback of the caller: it is observed through
    the arguments of its calls, [remainingCalls]. *)
Record t : Type := Mk {
  m : gmap string typ;
  fs : Flag.FlagSet;
  required : list string;
  missing : list string;
  args : list string;
  remainingFunc : bool;
  remainingCalls : list (list string)
}.

Definition NewFlagProvider (args : list string) : t :=
  Mk ∅ (Flag.NewFlagSet "confflags") [] [] args false [].

Definition WithRemainingFunc (p : t) : t :=
  Mk (m p) (fs p) (required p) (missing p) (args p) true (remainingCalls p).

Definition normalizeName (name : string) : string :=
  GoStrings.ReplaceAll name "_" "-".

Definition bind (p : t) (name : string) (to : typ) (fs' : Flag.FlagSet)
    (req : bool) : t :=
  Mk (<[name := to]> (m p)) fs'
     (if req then required p ++ [name] else required p)
     (missing p) (args p) (remainingFunc p) (remainingCalls p).

Definition StringVar `{GoRuntime} (p : t) (to : option loc)
    (name fallback : string) (req : bool) (h : mem) : outcome (t * mem) :=
  let name := normalizeName name in
  '(fs', h') ← Flag.StringVar (fs p) to name fallback h;
  mret (bind p name (typ_String to) fs' req, h').

Definition IntVar `{GoRuntime} (p : t) (to : option loc)
    (name : string) (fallback : Z) (req : bool) (h : mem) : outcome (t * mem) :=
  let name := normalizeName name in
  '(fs', h') ← Flag.IntVar (fs p) to name fallback h;
  mret (bind p name (typ_Int to) fs' req, h').

Definition BoolVar `{GoRuntime} (p : t) (to : option loc)
    (name : string) (fallback : bool) (req : bool) (h : mem) : outcome (t * mem) :=
  let name := normalizeName name in
  '(fs', h') ← Flag.BoolVar (fs p) to name fallback h;
  mret (bind p name (typ_Bool to) fs' req, h').

Definition Load `{GoRuntime} (p : t) (h : mem) : option error * t * mem :=
  match Flag.Parse (fs p) (args p) h with
  | (Some err, fs', h') =>
      (Some (Errorf_w "failed to parse flags: " err),
       Mk (m p) fs' (required p) (missing p) (args p) (remainingFunc p)
          (remainingCalls p),
       h')
  | (None, fs', h') =>
      (None,
       Mk (m p) fs' (required p)
          (collect_missing (range_order (m p)) (required p) h' (missing p))
          (args p) (remainingFunc p)
          (if remainingFunc p then remainingCalls p ++ [Flag.Args fs']
           else remainingCalls p),
       h')
  end.

Definition Missing (p : t) : list string := missing p.

End FlagProvider.

(** ** The [Provider] interface and the Priority Composer *)

(** A provider is one of the three implementations of the interface; the
    composer holds its members in order together with its own
    bookkeeping. *)
Inductive Provider : Type :=
| PEnv (p : EnvProvider.t)
| PFlag (p : FlagProvider.t)
| PPriority (m : gmap string typ) (providers : list Provider)
            (required missing : list string).

Definition NewPriorityProvider (providers : list Provider) : Provider :=
  PPriority ∅ providers [] [].

(** A call of one of the three registration methods of the interface. *)
Inductive Var : Type :=
| StringVar (to : option loc) (name fallback : string) (required : bool)
| IntVar (to : option loc) (name : string) (fallback : Z) (required : bool)
| BoolVar (to : option loc) (name : string) (fallback : bool) (required : bool).

Definition var_name (v : Var) : string :=
  match v with
  | StringVar _ name _ _ | IntVar _ name _ _ | BoolVar _ name _ _ => name
  end.

Definition var_required (v : Var) : bool :=
  match v with
  | StringVar _ _ _ r | IntVar _ _ _ r | BoolVar _ _ _ r => r
  end.

Definition var_typ (v : Var) : typ :=
  match v with
  | StringVar to _ _ _ => typ_String to
  | IntVar to _ _ _ => typ_Int to
  | BoolVar to _ _ _ => typ_Bool to
  end.

(** The name that [%T] prints for a provider. *)
Definition type_name (P : Provider) : string :=
  match P with
  | PEnv _ => "*conf.EnvProvider"
  | PFlag _ => "*conf.FlagProvider"
  | PPriority _ _ _ _ => "*conf.PriorityProvider"
  end.

(** The call on an Environment Source and on an Argument Source. *)
Definition env_register (p : EnvProvider.t) (v : Var) : EnvProvider.t :=
  match v with
  | StringVar to name fallback req => EnvProvider.StringVar p to name fallback req
  | IntVar to name fallback req => EnvProvider.IntVar p to name fallback req
  | BoolVar to name fallback req => EnvProvider.BoolVar p to name fallback req
  end.

Definition flag_register `{GoRuntime} (p : FlagProvider.t) (v : Var) (h : mem)
  : outcome (FlagProvider.t * mem) :=
  match v with
  | StringVar to name fallback req => FlagProvider.StringVar p to name fallback req h
  | IntVar to name fallback req => FlagProvider.IntVar p to name fallback req h
  | BoolVar to name fallback req => FlagProvider.BoolVar p to name fallback req h
  end.

Section Providers.
Context `{GoRuntime}.

(** [provider.StringVar], [provider.IntVar], [provider.BoolVar]: the
    composer first hands the call to every member, in order, then
    records the destination and the requirement itself. *)
Fixpoint register (P : Provider) (v : Var) (h : mem) : outcome (Provider * mem) :=
  match P with
  | PEnv p => mret (PEnv (env_register p v), h)
  | PFlag p => '(p', h') ← flag_register p v h; mret (PFlag p', h')
  | PPriority m providers required missing =>
      '(providers', h') ←
        (fix each (ps : list Provider) (h : mem) : outcome (list Provider * mem) :=
           match ps with
           | [] => mret ([], h)
           | provider :: rest =>
               '(provider', h1) ← register provider v h;
               '(rest', h2) ← each rest h1;
               mret (provider' :: rest', h2)
           end) providers h;
      mret (PPriority (<[var_name v := var_typ v]> m) providers'
                      (if var_required v then required ++ [var_name v] else required)
                      missing, h')
  end.

(** [provider.Load] *)
Fixpoint Load (P : Provider) (h : mem) : outcome (option error * Provider * mem) :=
  match P with
  | PEnv p =>
      '(err, p', h') ← EnvProvider.Load p h; mret (err, PEnv p', h')
  | PFlag p =>
      let '(err, p', h') := FlagProvider.Load p h in mret (err, PFlag p', h')
  | PPriority m providers required missing =>
      '(err, providers', h') ←
        (fix each (ps : list Provider) (h : mem)
           : outcome (option error * list Provider * mem) :=
           match ps with
           | [] => mret (None, [], h)
           | provider :: rest =>
               '(err, provider', h1) ← Load provider h;
               match err with
               | Some err =>
                   mret (Some (Errorf_w ("failed to load configuration with "
                                         +:+ type_name provider +:+ ": ") err),
                         provider' :: rest, h1)
               | None =>
                   '(err, rest', h2) ← each rest h1;
                   mret (err, provider' :: rest', h2)
               end
           end) providers h;
      match err with
      | Some err => mret (Some err, PPriority m providers' required missing, h')
      | None =>
          mret (None,
                PPriority m providers' required
                  (collect_missing (range_order m) required h' missing),
                h')
      end
  end.

(** [provider.Missing] *)
Definition Missing (P : Provider) : list string :=
  match P with
  | PEnv p => EnvProvider.Missing p
  | PFlag p => FlagProvider.Missing p
  | PPriority _ _ _ missing => missing
  end.

End Providers.

(** ** Package [reflect]: what the binder uses of it *)

(** The type of a record field or of the value handed to [Load]:
    [TBasic k name] is a type of kind [k] that is no struct and no pointer
    and prints as [name] ([int] itself, or a type defined from it);
    [Tag] is what [field.Tag.Get("conf")] returns and [PkgPath] is empty
    exactly for an exported field. *)
Inductive rtype : Type :=
| TBasic (k : Kind) (name : string)
| TStruct (fields : list StructField)
| TPtr (elem : rtype)
with StructField : Type :=
| MkField (Name PkgPath : string) (Type_ : rtype) (Tag : string) (Anonymous : bool).

Definition rtype_Kind (t : rtype) : Kind :=
  match t with
  | TBasic k _ => k
  | TStruct _ => Struct
  | TPtr _ => Ptr
  end.

Definition field_Type (f : StructField) : rtype :=
  match f with MkField _ _ t _ _ => t end.
Definition field_Tag (f : StructField) : string :=
  match f with MkField _ _ _ tag _ => tag end.
Definition field_PkgPath (f : StructField) : string :=
  match f with MkField _ pkg _ _ _ => pkg end.
Definition field_Anonymous (f : StructField) : bool :=
  match f with MkField _ _ _ _ a => a end.
Definition IsExported (f : StructField) : bool := String.eqb (field_PkgPath f) "".

(** The data behind a value: the slot of a primitive, the fields of a
    struct, the target of a pointer (nil when absent), or anything else. *)
Inductive data : Type :=
| DSlot (l : loc)
| DStruct (fields : list data)
| DPtr (target : option data)
| DOther.

(** A [reflect.Value]: its type and data (absent for the zero Value) and
    the two read-only flags. *)
Record Value : Type := MkValue {
  v_type : rtype;
  v_data : option data;
  flagStickyRO : bool;
  flagEmbedRO : bool
}.

Definition flagRO (v : Value) : bool := flagStickyRO v || flagEmbedRO v.

Module Reflect.

(** [reflect.ValueOf(x).Elem()] for a pointer [x]. *)
Definition Elem (t : rtype) (d : data) : Value :=
  match t, d with
  | TPtr elem, DPtr (Some target) => MkValue elem (Some target) false false
  | _, _ => MkValue t None false false
  end.

(** [Value.Field(i)]: an unexported field makes the result read-only,
    and only the sticky flag is inherited. *)
Definition Field (v : Value) (i : nat) : outcome Value :=
  match v_type v, v_data v with
  | TStruct fields, Some (DStruct ds) =>
      match fields !! i, ds !! i with
      | Some f, Some d =>
          Returned
            (MkValue (field_Type f) (Some d)
               (flagStickyRO v || (negb (IsExported f) && negb (field_Anonymous f)))
               (negb (IsExported f) && field_Anonymous f))
      | _, _ => Panicked "reflect: Field index out of range"
      end
  | _, None => Panicked "reflect: call of reflect.Value.Field on zero Value"
  | _, _ => Panicked "reflect: call of reflect.Value.Field on non-struct Value"
  end.

Definition unexported_msg : string :=
  "reflect.Value.Interface: cannot return value obtained from unexported field or method".

(** [value.Addr().Interface().( *T )] for the predeclared type [T] of
    kind [k]: the address of the slot.  A read-only value makes
    [Interface] panic; a type defined from [T] fails the assertion. *)
Definition AddrInterface (v : Value) (k : Kind) : outcome (option loc) :=
  if flagRO v then Panicked unexported_msg
  else
    match v_type v, v_data v with
    | TBasic _ name, Some (DSlot l) =>
        if String.eqb name (Kind_String k) then Returned (Some l)
        else
          Panicked ("interface conversion: interface {} is *" +:+ name
                    +:+ ", not *" +:+ Kind_String k)
    | _, _ => Panicked "reflect.Value.Addr of unaddressable value"
    end.

End Reflect.

(** ** The binder and the load orchestrator *)

(** [parseTag] *)
Definition parseTag (tag : string) : string * bool * string :=
  let parts := GoStrings.Split tag "," in
  let name := hd "" parts in
  let required := GoStrings.Contains parts "required" in
  let fallback :=
    fold_left
      (fun fallback part =>
         if GoStrings.HasPrefix part "default="
         then GoStrings.TrimPrefix part "default=" else fallback)
      (tl parts) "" in
  (name, required, fallback).

Record loadConfig : Type := MkLoadConfig {
  provider : Provider
}.

(** The only option: [WithProviders]. *)
Inductive LoadOption : Type :=
| WithProviders (providers : list Provider).

Definition apply_option (opt : LoadOption) (c : loadConfig) : loadConfig :=
  match opt with
  | WithProviders providers => MkLoadConfig (NewPriorityProvider providers)
  end.

Section Binder.
Context `{GoRuntime}.

(** The binding of a field that is no struct. *)
Definition bind_field (c : loadConfig) (field : StructField) (value : Value)
    (h : mem) : outcome (option error * loadConfig * mem) :=
  let tagVal := field_Tag field in
  if String.eqb tagVal "" then mret (None, c, h)
  else
    let '(tagVal, required, fallback) := parseTag tagVal in
    match rtype_Kind (field_Type field) with
    | Int =>
        match (if String.eqb fallback "" then inl 0 else Strconv.Atoi fallback) with
        | inr err =>
            mret (Some (Errorf_w ("failed to parse fallback value " +:+ Quote fallback
                                  +:+ " as int: ") err), c, h)
        | inl fallbackInt =>
            to ← Reflect.AddrInterface value Int;
            '(P, h') ← register (provider c) (IntVar to tagVal fallbackInt required) h;
            mret (None, MkLoadConfig P, h')
        end
    | String_ =>
        to ← Reflect.AddrInterface value String_;
        '(P, h') ← register (provider c) (StringVar to tagVal fallback required) h;
        mret (None, MkLoadConfig P, h')
    | Bool_ =>
        match (if String.eqb fallback "" then inl false
               else Strconv.ParseBool fallback) with
        | inr err =>
            mret (Some (Errorf_w ("failed to parse fallback value " +:+ Quote fallback
                                  +:+ " as bool: ") err), c, h)
        | inl fallbackBool =>
            to ← Reflect.AddrInterface value Bool_;
            '(P, h') ← register (provider c) (BoolVar to tagVal fallbackBool required) h;
            mret (None, MkLoadConfig P, h')
        end
    | _ => mret (None, c, h)
    end.

(** [loadConfig.LoadField] *)
Fixpoint LoadField (c : loadConfig) (field : StructField) (value : Value)
    (h : mem) {struct field} : outcome (option error * loadConfig * mem) :=
  match field with
  | MkField _ _ (TStruct fields) _ _ =>
      (fix loop (fs : list StructField) (i : nat) (c : loadConfig) (h : mem)
         : outcome (option error * loadConfig * mem) :=
         match fs with
         | [] => mret (None, c, h)
         | f :: fs' =>
             vi ← Reflect.Field value i;
             '(err, c1, h1) ← LoadField c f vi h;
             match err with
             | Some err => mret (Some err, c1, h1)
             | None => loop fs' (S i) c1 h1
             end
         end) fields 0%nat c h
  | _ => bind_field c field value h
  end.

(** The loop of [Load] over the fields of the record. *)
Fixpoint load_fields (fs : list StructField) (i : nat) (v : Value)
    (c : loadConfig) (h : mem) : outcome (option error * loadConfig * mem) :=
  match fs with
  | [] => mret (None, c, h)
  | f :: fs' =>
      vi ← Reflect.Field v i;
      '(err, c1, h1) ← LoadField c f vi h;
      match err with
      | Some err => mret (Some err, c1, h1)
      | None => load_fields fs' (S i) v c1 h1
      end
  end.

(** The configuration before and after the options: the default is an
    Environment Source on the process environment. *)
Definition default_config : loadConfig :=
  MkLoadConfig (PEnv (EnvProvider.NewEnvProvider os_Getenv)).

Definition configure (opts : list LoadOption) : loadConfig :=
  fold_left (fun c opt => apply_option opt c) opts default_config.

(** [Load(cfg, opts...)] for a value [cfg] of type [t] with data [d].
    The provider in its final state is returned with the error and the
    store: what the sources did to the stream and to the sink is
    observable from outside. *)
Definition Load_cfg (t : rtype) (d : data) (opts : list LoadOption) (h : mem)
  : outcome (option error * loadConfig * mem) :=
  let c := default_config in
  match t with
  | TPtr (TStruct fields) =>
      let c := configure opts in
      let v := Reflect.Elem t d in
      '(err, c, h) ← load_fields fields 0%nat v c h;
      match err with
      | Some err => mret (Some err, c, h)
      | None =>
          '(err, P, h) ← Load (provider c) h;
          match err with
          | Some err =>
              mret (Some (Errorf_w "failed to load configuration: " err),
                    MkLoadConfig P, h)
          | None =>
              match Missing P with
              | [] => mret (None, MkLoadConfig P, h)
              | missing =>
                  mret (Some (errorString ("missing configuration parameters: "
                                           +:+ GoStrings.Join missing ", ")),
                        MkLoadConfig P, h)
              end
          end
      end
  | TPtr elem =>
      mret (Some (errorString ("expected pointer to struct, got pointer to "
                               +:+ Kind_String (rtype_Kind elem))), c, h)
  | _ =>
      mret (Some (errorString ("expected pointer to struct, got "
                               +:+ Kind_String (rtype_Kind t))), c, h)
  end.

(** The shorthands. *)
Definition LoadFlags (t : rtype) (d : data) (args : list string) (h : mem) :=
  Load_cfg t d [WithProviders [PFlag (FlagProvider.NewFlagProvider args)]] h.

Definition LoadFlagsWithRemaining (t : rtype) (d : data) (args : list string)
    (h : mem) :=
  Load_cfg t d
    [WithProviders
       [PFlag (FlagProvider.WithRemainingFunc (FlagProvider.NewFlagProvider args))]] h.

Definition LoadEnv (t : rtype) (d : data) (getenv : string -> string) (h : mem) :=
  Load_cfg t d [WithProviders [PEnv (EnvProvider.NewEnvProvider getenv)]] h.

Definition LoadAll (t : rtype) (d : data) (h : mem) :=
  Load_cfg t d
    [WithProviders [PEnv (EnvProvider.NewEnvProvider os_Getenv);
                    PFlag (FlagProvider.NewFlagProvider os_Args)]] h.

End Binder.

(** * The vocabulary of the properties *)

Local Open Scope list_scope.

Section MemberLoops.

Context `{GoRuntime}.

Fixpoint register_members (ps : list Provider) (v : Var) (h : mem)
  : outcome (list Provider * mem) :=
  match ps with
  | [] => mret ([], h)
  | provider :: rest =>
      '(provider', h1) ← register provider v h;
      '(rest', h2) ← register_members rest v h1;
      mret (provider' :: rest', h2)
  end.

Fixpoint load_members (ps : list Provider) (h : mem)
  : outcome (option error * list Provider * mem) :=
  match ps with
  | [] => mret (None, [], h)
  | provider :: rest =>
      '(err, provider', h1) ← Load provider h;
      match err with
      | Some err =>
          mret (Some (Errorf_w ("failed to load configuration with "
                                +:+ type_name provider +:+ ": ") err),
                provider' :: rest, h1)
      | None =>
          '(err, rest', h2) ← load_members rest h1;
          mret (err, provider' :: rest', h2)
      end
  end.

End MemberLoops.

(** The destination is an integer or a boolean whose pointer is not nil. *)
Definition int_or_bool_dest (t : typ) : Prop :=
  (kind t = Int /\ intVal t <> None) \/ (kind t = Bool_ /\ boolVal t <> None).

(** The slot a destination points to, with its kind. *)
Definition dest (to : typ) : option (Kind * loc) :=
  match kind to with
  | String_ => (String_,.) <$> stringVal to
  | Int => (Int,.) <$> intVal to
  | Bool_ => (Bool_,.) <$> boolVal to
  | _ => None
  end.

(** Two stores agree on a slot. *)
Definition same_at (h h' : mem) (s : Kind * loc) : Prop :=
  match s with
  | (String_, l) => load_string h l = load_string h' l
  | (Int, l) => load_int h l = load_int h' l
  | (Bool_, l) => load_bool h l = load_bool h' l
  | _ => True
  end.

(** Two states of an Environment Source differ in the missing list only. *)
Definition same_bindings (p p' : EnvProvider.t) : Prop :=
  EnvProvider.withDotEnv p' = EnvProvider.withDotEnv p
  /\ EnvProvider.dotEnvReader p' = EnvProvider.dotEnvReader p
  /\ EnvProvider.getenv p' = EnvProvider.getenv p
  /\ EnvProvider.m p' = EnvProvider.m p
  /\ EnvProvider.fallbacks p' = EnvProvider.fallbacks p
  /\ EnvProvider.required p' = EnvProvider.required p.

(** The raw value of the parameter is not empty and does not coerce into
    the kind of its destination, an integer or a boolean. *)
Definition coercion_fails `{GoRuntime} (p : EnvProvider.t) (name : string)
    (to : typ) : Prop :=
  EnvProvider.rawVal p name <> ""
  /\ ((kind to = Int /\ exists e, Strconv.Atoi (EnvProvider.rawVal p name) = inr e)
      \/ (kind to = Bool_
          /\ exists e, Strconv.ParseBool (EnvProvider.rawVal p name) = inr e)).

(** The error of [Load] for a parameter that does not coerce. *)
Definition coercion_error (name : string) (to : typ) (cause : error) : error :=
  Errorf_w ("failed to parse " +:+ name +:+ " as " +:+ Kind_String (kind to) +:+ ": ")
           cause.

(** What a slot holds. *)
Inductive value : Type :=
| VString (s : string)
| VInt (z : Z)
| VBool (b : bool).

Definition read (h : mem) (s : Kind * loc) : option value :=
  match s with
  | (String_, l) => Some (VString (load_string h l))
  | (Int, l) => Some (VInt (load_int h l))
  | (Bool_, l) => Some (VBool (load_bool h l))
  | _ => None
  end.

(** The emptiness rule of the kinds, on values: only the empty text is
    empty. *)
Definition non_empty (v : value) : Prop :=
  match v with
  | VString s => s <> ""
  | _ => True
  end.

(** The double quote. *)
Definition dquote : string := String (ascii_of_nat 34) EmptyString.

(** A runtime with an empty process environment, no arguments and no
    [.env] file, in which [range] follows the order of the map, [%q]
    encloses in double quotes and integer flags are decimal. *)
Definition plain_runtime : GoRuntime := {|
  range_order := map_to_list;
  Quote := fun s => dquote +:+ s +:+ dquote;
  ParseInt0 := fun s =>
    match Strconv.ParseInt10 s with
    | inl v => (v, None)
    | inr e => (0, Some e)
    end;
  os_Getenv := fun _ => "";
  os_Args := [];
  os_Open_dotenv := inr (errorString "open .env: no such file or directory")
|}.

(** A process environment given by its pairs. *)
Definition environ (l : list (string * string)) (key : string) : string :=
  default "" (snd <$> List.find (fun kv => String.eqb kv.1 key) l).

Definition empty_mem : mem := Mem ∅ ∅ ∅.

(** The name and the attached value that a token gives when it is read
    as a flag. *)
Definition token_name (tok : string) : string :=
  (Flag.split_name (Flag.strip_minuses tok)).1.

Definition token_value (tok : string) : option string :=
  (Flag.split_name (Flag.strip_minuses tok)).2.

(** The token begins with [-], has two bytes or more and is not the
    terminator [--]: it is read as a flag. *)
Definition dashed (tok : string) : bool :=
  negb (Flag.non_flag tok) && negb (String.eqb tok "--").

(** The token has the syntax of a flag: after one or two minus signs
    comes a name that is not empty and begins with neither [-] nor [=]. *)
Definition flag_shaped (tok : string) : bool :=
  dashed tok && negb (Flag.bad_name (Flag.strip_minuses tok)).

(** The tokens are registered flags, each with its value: attached with
    [=], absent for a boolean flag, or else the token that follows. *)
Inductive flag_tokens (formal : gmap string Flag.Value) : list string -> Prop :=
| flag_tokens_nil : flag_tokens formal []
| flag_tokens_attached tok fv v tl :
    flag_shaped tok = true ->
    formal !! token_name tok = Some fv ->
    token_value tok = Some v ->
    flag_tokens formal tl ->
    flag_tokens formal (tok :: tl)
| flag_tokens_bool tok fv tl :
    flag_shaped tok = true ->
    formal !! token_name tok = Some fv ->
    token_value tok = None ->
    Flag.IsBoolFlag fv = true ->
    flag_tokens formal tl ->
    flag_tokens formal (tok :: tl)
| flag_tokens_next tok fv v tl :
    flag_shaped tok = true ->
    formal !! token_name tok = Some fv ->
    token_value tok = None ->
    Flag.IsBoolFlag fv = false ->
    flag_tokens formal tl ->
    flag_tokens formal (tok :: v :: tl).

(** Where parsing stops without an error: after the terminator, at the
    end of the tokens, or before a token that does not begin with [-]
    (or has less than two bytes). *)
Definition parse_stop (term rest : list string) : Prop :=
  term = ["--"]
  \/ (term = [] /\ (rest = [] \/ exists s tl, rest = s :: tl /\ Flag.non_flag s = true)).

(** The record [{Field1 string `conf:"field1,required"`}] at slot 0. *)
Definition tString : rtype := TBasic String_ "string".

Definition tInt : rtype := TBasic Int "int".

Definition tBool : rtype := TBasic Bool_ "bool".

Definition Field1_record : rtype :=
  TPtr (TStruct [MkField "Field1" "" tString "field1,required" false]).

Definition Field1_data : data := DPtr (Some (DStruct [DSlot 0%nat])).

(** The calls of the sink of the only member of a composer, an Argument
    Source. *)
Definition sink_calls (c : loadConfig) : list (list string) :=
  match provider c with
  | PPriority _ [PFlag p] _ _ => FlagProvider.remainingCalls p
  | _ => []
  end.

(** A stream whose second line has no separator. *)
Definition malformed_stream : ReadCloser :=
  MkReadCloser ["KEY=value"; "malformed"; "OTHER=x"] false None.

Definition malformed_source : EnvProvider.t :=
  EnvProvider.WithDotEnv (EnvProvider.NewEnvProvider (environ []))
    (Some malformed_stream).

(** The value of a decimal number read from the left with an
    accumulator, as the digit loop does. *)
Fixpoint uint_val (acc : Z) (d : Decimal.uint) : Z :=
  match d with
  | Decimal.Nil => acc
  | Decimal.D0 l => uint_val (acc * 10 + 0) l
  | Decimal.D1 l => uint_val (acc * 10 + 1) l
  | Decimal.D2 l => uint_val (acc * 10 + 2) l
  | Decimal.D3 l => uint_val (acc * 10 + 3) l
  | Decimal.D4 l => uint_val (acc * 10 + 4) l
  | Decimal.D5 l => uint_val (acc * 10 + 5) l
  | Decimal.D6 l => uint_val (acc * 10 + 6) l
  | Decimal.D7 l => uint_val (acc * 10 + 7) l
  | Decimal.D8 l => uint_val (acc * 10 + 8) l
  | Decimal.D9 l => uint_val (acc * 10 + 9) l
  end.

(** The coercion of a raw value into a kind. *)
Definition coerce `{GoRuntime} (k : Kind) (raw : string) : option value :=
  match k with
  | String_ => Some (VString raw)
  | Int =>
      match Strconv.Atoi raw with
      | inl z => Some (VInt z)
      | inr _ => None
      end
  | Bool_ =>
      match Strconv.ParseBool raw with
      | inl b => Some (VBool b)
      | inr _ => None
      end
  | _ => None
  end.

(** The kinds the binder binds. *)
Definition primitive (k : Kind) : Prop := k = String_ \/ k = Int \/ k = Bool_.

(** The default literal of the tag, if any, parses in the kind of the
    field. *)
Definition default_parses `{GoRuntime} (field : StructField) : Prop :=
  let fallback := (parseTag (field_Tag field)).2 in
  match rtype_Kind (field_Type field) with
  | Int => fallback = "" \/ exists z, Strconv.Atoi fallback = inl z
  | Bool_ => fallback = "" \/ exists b, Strconv.ParseBool fallback = inl b
  | _ => True
  end.

(** A record whose only field, unexported, has a malformed integer
    default. *)
Definition malformed_default_record : rtype :=
  TPtr (TStruct [MkField "port" "main" tInt "port,default=abc" false]).




(** A record with one exported field of the given type and tag, at
    slot 0. *)
Definition one_field_record (t : rtype) (tag : string) : rtype :=
  TPtr (TStruct [MkField "Field" "" t tag false]).

(** The fallback that the Environment Source records for a registration,
    and the default the registration carries. *)
Definition fallback_text (v : Var) : option string :=
  match v with
  | StringVar _ _ fallback _ => if String.eqb fallback "" then None else Some fallback
  | IntVar _ _ fallback _ =>
      if fallback =? 0 then None else Some (Strconv.FormatInt fallback)
  | BoolVar _ _ fallback _ => Some (if fallback then "true" else "false")
  end.

Definition var_default (v : Var) : value :=
  match v with
  | StringVar _ _ fallback _ => VString fallback
  | IntVar _ _ fallback _ => VInt fallback
  | BoolVar _ _ fallback _ => VBool fallback
  end.


(** An Environment Source with [FIELD1=value1] and an Argument Source with
    [-field1 value2], both with the text parameter [field1] registered
    for slot 0, and the registrations of their composer. *)
Definition field1_env : Provider :=
  PEnv (EnvProvider.StringVar
          (EnvProvider.NewEnvProvider (environ [("FIELD1", "value1")]))
          (Some 0%nat) "field1" "" true).

Definition field1_flag : Provider :=
  PFlag (FlagProvider.Mk {["field1" := typ_String (Some 0%nat)]}
           (Flag.MkFlagSet "confflags" {["field1" := Flag.stringValue 0%nat]} [])
           ["field1"] [] ["-field1"; "value2"] false []).

Definition field1_bindings : gmap string typ :=
  {["field1" := typ_String (Some 0%nat)]}.

(** An Argument Source and a composer with the required integer [port]
    registered for slot 0, and nothing on the command line. *)
Definition port_flag : FlagProvider.t :=
  FlagProvider.Mk {["port" := typ_Int (Some 0%nat)]}
    (Flag.MkFlagSet "confflags" {["port" := Flag.intValue 0%nat]} [])
    ["port"] [] [] false [].

Definition port_bindings : gmap string typ := {["port" := typ_Int (Some 0%nat)]}.

(** An Environment Source with an empty environment and the required text
    parameter [host] registered for slot 0, which already holds a text. *)
Definition host_env : EnvProvider.t :=
  EnvProvider.StringVar (EnvProvider.NewEnvProvider (environ []))
    (Some 0%nat) "host" "" true.

Definition preset_mem : mem := store_string empty_mem 0%nat "preset".

(** An Environment Source with [PORT=abc] and the integer parameter
    [port] registered for slot 0. *)
Definition bad_port_env : EnvProvider.t :=
  EnvProvider.IntVar (EnvProvider.NewEnvProvider (environ [("PORT", "abc")]))
    (Some 0%nat) "port" 0 true.

(** The text parameter [name] registered for slot 0, then for slot 1, on
    an Environment Source with [NAME=x]. *)
Definition name_env : EnvProvider.t :=
  EnvProvider.NewEnvProvider (environ [("NAME", "x")]).

Definition name_first : Var := StringVar (Some 0%nat) "name" "" false.

Definition name_second : Var := StringVar (Some 1%nat) "name" "" false.



Definition port_env : EnvProvider.t :=
  EnvProvider.IntVar (EnvProvider.NewEnvProvider (environ []))
    (Some 0%nat) "port" 8080 true.

(** A record whose only field, unexported, has an integer default that
    parses. *)
Definition unexported_port : StructField :=
  MkField "port" "main" tInt "port,default=12" false.

(** The Argument Source of the subcommand example, with its sink. *)
Definition sink_flag : FlagProvider.t :=
  FlagProvider.Mk {["field1" := typ_String (Some 0%nat)]}
    (Flag.MkFlagSet "confflags" {["field1" := Flag.stringValue 0%nat]} [])
    ["field1"] [] ["--field1"; "value1"; "extra"; "--field1"; "value2"] true [].

(** ** Two registrations under one name *)

(** The fallback that a name has after a registration: the one of the
    registration, or the one it had. *)
Definition fallback_after (v : Var) (before : option string) : option string :=
  match fallback_text v with
  | Some f => Some f
  | None => before
  end.

(** An Argument Source is the provider or one of its members, at any
    depth. *)
Fixpoint has_flag_source (P : Provider) : bool :=
  match P with
  | PEnv _ => false
  | PFlag _ => true
  | PPriority _ providers _ _ => existsb has_flag_source providers
  end.

(** The panic of the flag set at a name that is already defined. *)
Definition redefined (f : Flag.FlagSet) (nm : string) : string :=
  if String.eqb (Flag.name f) "" then "flag redefined: " +:+ nm
  else Flag.name f +:+ " flag redefined: " +:+ nm.

(** The panic of a registration on an Argument Source that holds the
    name already: the default is written through the pointer before the
    flag set is asked. *)
Definition second_registration_panic (p : FlagProvider.t) (v : Var) : string :=
  match dest (var_typ v) with
  | None => nil_deref
  | Some _ => redefined (FlagProvider.fs p) (FlagProvider.normalizeName (var_name v))
  end.

(** The required list after a registration. *)
Definition required_after (v : Var) (required : list string) : list string :=
  if var_required v then required ++ [var_name v] else required.

(** An Environment Source after two registrations. *)
Definition twice (v1 v2 : Var) (p : EnvProvider.t) : EnvProvider.t :=
  env_register (env_register p v1) v2.

(** The raw value that a source resolves a name to. *)
Definition raw_value `{GoRuntime} (p : EnvProvider.t) (name : string) : string :=
  EnvProvider.rawVal (EnvProvider.prepare p).2 name.

(** No other name of the source is bound to one of the two slots. *)
Definition apart (p : EnvProvider.t) (name : string) (s1 s2 : Kind * loc) : Prop :=
  forall n t, EnvProvider.m p !! n = Some t -> n <> name ->
              dest t <> Some s1 /\ dest t <> Some s2.

(** Configurations for two registrations under one name. *)
Definition no_env : EnvProvider.t := EnvProvider.NewEnvProvider (environ []).

Definition name_with_fallback : Var := StringVar (Some 0%nat) "name" "first" false.

Definition name_required : Var := StringVar (Some 0%nat) "name" "" true.

(** ** The vocabulary of the further properties *)

(** The byte occurs in the text. *)
Definition has_byte (c : ascii) (s : string) : bool :=
  existsb (Ascii.eqb c) (list_ascii_of_string s).

(** The line is blank or a comment. *)
Definition skipped (line : string) : bool :=
  let line := GoStrings.TrimSpace line in
  GoStrings.HasPrefix line "#" || String.eqb line "".

(** A stream that holds the given lines and has not been closed. *)
Definition stream_of (lines : list string) : ReadCloser :=
  MkReadCloser lines false None.

(** Every registered destination is of one of the three kinds, with a
    pointer that is not nil. *)
Definition well_bound (m : gmap string typ) : Prop :=
  forall n t, m !! n = Some t -> is_Some (dest t).

(** A name that a flag can have and a token can give: not empty, no
    leading [-], no [=]. *)
Definition flag_name (nm : string) : Prop :=
  nm <> "" /\ GoStrings.HasPrefix nm "-" = false /\ has_byte "=" nm = false.

(** The token of a flag: one or two minus signs, the name and, when the
    value is attached, [=] and the value. *)
Definition flag_token (dashes nm : string) (value : option string) : string :=
  dashes +:+ nm +:+ match value with Some v => "=" +:+ v | None => "" end.

(** The two ways to introduce a flag. *)
Definition dashes_ok (dashes : string) : Prop := dashes = "-" \/ dashes = "--".

(** The destination that a provider has under the name of a parameter;
    the Argument Source keeps it under the name of the flag. *)
Definition binding_of (P : Provider) (name : string) : option typ :=
  match P with
  | PEnv p => EnvProvider.m p !! name
  | PFlag p => FlagProvider.m p !! FlagProvider.normalizeName name
  | PPriority m _ _ _ => m !! name
  end.

(** A field that the binder passes over: it is no record, and it has no
    tag or is of a kind other than the three. *)
Definition ignored (f : StructField) : Prop :=
  match rtype_Kind (field_Type f) with
  | Struct => False
  | Int | String_ | Bool_ => field_Tag f = ""
  | _ => True
  end.

(** The default literal of the tag is not empty and does not parse in
    the kind of the field, an integer or a boolean; [cause] is the error
    of the conversion. *)
Definition default_fails `{GoRuntime} (field : StructField) (cause : error) : Prop :=
  let fallback := (parseTag (field_Tag field)).2 in
  fallback <> ""
  /\ match rtype_Kind (field_Type field) with
     | Int => Strconv.Atoi fallback = inr cause
     | Bool_ => Strconv.ParseBool fallback = inr cause
     | _ => False
     end.

(** An Environment Source with an empty environment and the required
    boolean [debug] registered for slot 0. *)
Definition debug_env : EnvProvider.t :=
  EnvProvider.BoolVar (EnvProvider.NewEnvProvider (environ []))
    (Some 0%nat) "debug" false true.

(** An Environment Source with [HOST=from-env], a stream that holds
    [HOST=from-file], and the text parameter [host] registered for
    slot 0. *)
Definition shadowed_env : EnvProvider.t :=
  EnvProvider.StringVar
    (EnvProvider.WithDotEnv
       (EnvProvider.NewEnvProvider (environ [("HOST", "from-env")]))
       (Some (stream_of ["HOST=from-file"])))
    (Some 0%nat) "host" "" false.

(** An Environment Source with the overlay enabled and no stream. *)
Definition dotenv_file_env : EnvProvider.t :=
  EnvProvider.WithDotEnv (EnvProvider.NewEnvProvider (environ [])) None.

(** An Environment Source with an empty environment and the required text
    parameter [field1] registered for slot 0. *)
Definition field1_empty_env : EnvProvider.t :=
  EnvProvider.StringVar (EnvProvider.NewEnvProvider (environ []))
    (Some 0%nat) "field1" "" true.

(** A record of fields that the binder passes over: a tagged [float64],
    a text without a tag and a tagged pointer. *)
Definition passed_over_fields : list StructField :=
  [MkField "Rate" "" (TBasic (OtherKind "float64") "float64") "rate,required" false;
   MkField "Name" "" tString "" false;
   MkField "Next" "" (TPtr tString) "next" false].

(** A text of [n] times the byte [c], and a comment of 64 KiB. *)
Fixpoint byte_run (n : nat) (c : ascii) : string :=
  match n with
  | O => EmptyString
  | S n' => String c (byte_run n' c)
  end.

Definition long_comment : string := byte_run (N.to_nat Dotenv.MaxScanTokenSize) "#".

(** A field of the type [Level], defined from [int]. *)
Definition level_field : StructField :=
  MkField "Level" "" (TBasic Int "main.Level") "level" false.

(** The registration that the binder makes for a field of a kind, with a
    tag that is only a name. *)
Definition plain_registration (k : Kind) (l : loc) (name : string) : option Var :=
  match k with
  | String_ => Some (StringVar (Some l) name "" (String.eqb name "required"))
  | Int => Some (IntVar (Some l) name 0 (String.eqb name "required"))
  | Bool_ => Some (BoolVar (Some l) name false (String.eqb name "required"))
  | _ => None
  end.

(** * Properties *)

Local Open Scope list_scope.

(** ** Strings and lists of names *)

Lemma Contains_In (l : list string) (x : string) :
  GoStrings.Contains l x = true <-> x ∈ l.
Proof.
  unfold GoStrings.Contains. rewrite existsb_exists. split.
  - intros (y & Hy & Heq). apply String.eqb_eq in Heq. subst y.
    by apply list_elem_of_In.
  - intros Hin. exists x. split; [by apply list_elem_of_In | apply String.eqb_refl].
Qed.

Lemma append_cons (ch : ascii) (a b : string) :
  String ch a +:+ b = String ch (a +:+ b).
Proof. reflexivity. Qed.

Lemma append_assoc (a b c : string) : (a +:+ b) +:+ c = a +:+ (b +:+ c).
Proof.
  induction a as [|ch a IH]; [done |]. by rewrite !append_cons, IH.
Qed.

Lemma append_nil_r (a : string) : a +:+ "" = a.
Proof. induction a as [|ch a IH]; [done |]. by rewrite append_cons, IH. Qed.


Lemma has_substring_here (pre sub post : string) :
  GoStrings.has_substring (pre +:+ sub +:+ post) sub.
Proof. by exists pre, post. Qed.


(** ** The missing list of the Argument Source and of the composer *)

Lemma collect_missing_app entries required h missing :
  collect_missing entries required h missing
  = (missing ++ collect_missing entries required h [])%list.
Proof.
  revert missing. induction entries as [|[name to] rest IH]; intros missing; simpl.
  - by rewrite app_nil_r.
  - destruct (Empty to h && GoStrings.Contains required name).
    + rewrite (IH (missing ++ [name])), (IH [name]). by rewrite app_assoc.
    + apply IH.
Qed.

Lemma elem_of_collect_missing entries required h name :
  name ∈ collect_missing entries required h []
  <-> exists to, (name, to) ∈ entries /\ Empty to h = true /\ name ∈ required.
Proof.
  induction entries as [|[n to] rest IH]; simpl.
  - split; [intros Hin; by apply elem_of_nil in Hin |].
    intros (to & Hin & _). by apply elem_of_nil in Hin.
  - rewrite collect_missing_app, elem_of_app, IH. clear IH.
    destruct (Empty to h && GoStrings.Contains required n) eqn:Hc.
    + apply andb_true_iff in Hc as [He Hr]. apply Contains_In in Hr. split.
      * intros [Hin | (to' & Hin & H1 & H2)].
        -- apply list_elem_of_singleton in Hin as ->. exists to.
           split; [apply list_elem_of_here | done].
        -- exists to'. split; [by apply list_elem_of_further | done].
      * intros (to' & Hin & H1 & H2). apply elem_of_cons in Hin as [Heq | Hin].
        -- left. injection Heq as -> ->. apply list_elem_of_here.
        -- right. by exists to'.
    + split.
      * intros [Hin | (to' & Hin & H1 & H2)]; [by apply elem_of_nil in Hin |].
        exists to'. split; [by apply list_elem_of_further | done].
      * intros (to' & Hin & H1 & H2). apply elem_of_cons in Hin as [Heq | Hin].
        -- injection Heq as -> ->. rewrite H1 in Hc. simpl in Hc.
           apply Contains_In in H2. congruence.
        -- right. by exists to'.
Qed.

(** ** [range] over the registrations *)

Section Range.
Context `{GoRuntime}.
Hypothesis Hrange : range_complete.

Lemma elem_of_range (m : gmap string typ) name to :
  (name, to) ∈ range_order m <-> m !! name = Some to.
Proof. rewrite (Hrange m). apply elem_of_map_to_list. Qed.

Lemma NoDup_range (m : gmap string typ) : NoDup (range_order m).*1.
Proof. rewrite (Hrange m). apply NoDup_fst_map_to_list. Qed.

End Range.

(** ** The members of a composer, one after the other *)

Section Members.
Context `{GoRuntime}.

Lemma register_composer m ps required missing v h :
  register (PPriority m ps required missing) v h
  = ('(ps', h') ← register_members ps v h;
     mret (PPriority (<[var_name v := var_typ v]> m) ps'
             (if var_required v then required ++ [var_name v] else required)
             missing, h')).
Proof.
  change (register (PPriority m ps required missing) v h)
    with ('(ps', h') ←
            (fix each (ps : list Provider) (h : mem) :=
               match ps with
               | [] => mret ([], h)
               | provider :: rest =>
                   '(provider', h1) ← register provider v h;
                   '(rest', h2) ← each rest h1;
                   mret (provider' :: rest', h2)
               end) ps h;
          mret (PPriority (<[var_name v := var_typ v]> m) ps'
                  (if var_required v then required ++ [var_name v] else required)
                  missing, h')).
  f_equal. revert h. induction ps as [|q qs IH]; intros h; [done |].
  simpl. destruct (register q v h) as [[q' h1]|]; [| done]. simpl.
  by rewrite IH.
Qed.

Lemma Load_composer m ps required missing h :
  Load (PPriority m ps required missing) h
  = ('(err, ps', h') ← load_members ps h;
     match err with
     | Some err => mret (Some err, PPriority m ps' required missing, h')
     | None =>
         mret (None,
               PPriority m ps' required
                 (collect_missing (range_order m) required h' missing),
               h')
     end).
Proof. reflexivity. Qed.

End Members.

(** ** Integer and boolean destinations are never missing (C9) *)

Lemma int_or_bool_not_Empty t h : int_or_bool_dest t -> Empty t h = false.
Proof.
  unfold Empty. intros [[-> Hp] | [-> Hp]].
  - by destruct (intVal t).
  - by destruct (boolVal t).
Qed.

Section NeverMissing.
Context `{GoRuntime}.
Hypothesis Hrange : range_complete.

(** What the loop appends for a name bound to such a destination. *)
Lemma collect_missing_skips (m : gmap string typ) required h missing name t :
  m !! name = Some t -> int_or_bool_dest t -> name ∉ missing ->
  name ∉ collect_missing (range_order m) required h missing.
Proof.
  intros Hm Ht Hmiss. rewrite collect_missing_app, elem_of_app.
  intros [Hin | Hin]; [done |].
  apply elem_of_collect_missing in Hin as (to & Hin & Hempty & _).
  apply (elem_of_range Hrange) in Hin. rewrite Hm in Hin. injection Hin as <-.
  by rewrite (int_or_bool_not_Empty _ _ Ht) in Hempty.
Qed.

(** Registration of an integer or a boolean through a pointer that is
    not nil records such a destination. *)
Lemma var_typ_int_or_bool v :
  match v with
  | IntVar (Some _) _ _ _ | BoolVar (Some _) _ _ _ => int_or_bool_dest (var_typ v)
  | _ => True
  end.
Proof.
  destruct v as [to ? ? ?|[l|] ? ? ?|[l|] ? ? ?]; simpl; try done.
  - left. by split.
  - right. by split.
Qed.

(** C9.  A name that the Argument Source or the Priority Composer has
    bound to an integer or boolean destination with a pointer that is
    not nil is never appended to the missing list by their [Load],
    whether or not the name is required and whatever the sources
    supplied: [Empty] is false for such a destination. *)
Theorem int_bool_never_missing name t :
  int_or_bool_dest t ->
  (forall (p : FlagProvider.t) h err p' h',
      FlagProvider.m p !! name = Some t ->
      name ∉ FlagProvider.Missing p ->
      FlagProvider.Load p h = (err, p', h') ->
      name ∉ FlagProvider.Missing p')
  /\ (forall m ps required missing h err P' h',
      m !! name = Some t ->
      name ∉ missing ->
      Load (PPriority m ps required missing) h = Returned (err, P', h') ->
      name ∉ Missing P').
Proof.
  intros Ht. split.
  - intros p h err p' h' Hm Hmiss. unfold FlagProvider.Load.
    destruct (Flag.Parse (FlagProvider.fs p) (FlagProvider.args p) h)
      as [[[e|] fs'] h1]; intros [= <- <- <-]; simpl; [done |].
    by apply collect_missing_skips with t.
  - intros m ps required missing h err P' h' Hm Hmiss. rewrite Load_composer.
    destruct (load_members ps h) as [[[[e|] ps'] h1]|]; simpl; [| | done].
    + by intros [= <- <- <-].
    + intros [= <- <- <-]. simpl. by apply collect_missing_skips with t.
Qed.

End NeverMissing.

(** ** Resolution by the Environment Source *)

Lemma same_at_refl h s : same_at h h s.
Proof. by destruct s as [[] l]. Qed.

Lemma same_at_trans h1 h2 h3 s :
  same_at h1 h2 s -> same_at h2 h3 s -> same_at h1 h3 s.
Proof. destruct s as [[] l]; simpl; congruence. Qed.

Lemma same_at_store_string h l v s :
  s <> (String_, l) -> same_at h (store_string h l v) s.
Proof.
  destruct s as [[] l']; simpl; try done. intros Hne.
  unfold load_string, store_string; simpl.
  rewrite lookup_insert_ne; [done | congruence].
Qed.

Lemma same_at_store_int h l v s :
  s <> (Int, l) -> same_at h (store_int h l v) s.
Proof.
  destruct s as [[] l']; simpl; try done. intros Hne.
  unfold load_int, store_int; simpl.
  rewrite lookup_insert_ne; [done | congruence].
Qed.

Lemma same_at_store_bool h l v s :
  s <> (Bool_, l) -> same_at h (store_bool h l v) s.
Proof.
  destruct s as [[] l']; simpl; try done. intros Hne.
  unfold load_bool, store_bool; simpl.
  rewrite lookup_insert_ne; [done | congruence].
Qed.

Section Resolve.
Context `{GoRuntime}.

Lemma same_bindings_refl p : same_bindings p p.
Proof. by repeat split. Qed.

Lemma same_bindings_add_missing p name :
  same_bindings p (EnvProvider.add_missing p name).
Proof. by repeat split. Qed.

Lemma same_bindings_trans p1 p2 p3 :
  same_bindings p1 p2 -> same_bindings p2 p3 -> same_bindings p1 p3.
Proof.
  intros (?&?&?&?&?&?) (?&?&?&?&?&?). repeat split; congruence.
Qed.

Lemma same_bindings_rawVal p p' name :
  same_bindings p p' -> EnvProvider.rawVal p' name = EnvProvider.rawVal p name.
Proof.
  intros (_&_&Hg&_&Hf&_). unfold EnvProvider.rawVal. by rewrite Hg, Hf.
Qed.

(** The loop changes nothing of the provider but the missing list, to
    which it appends names of entries that are required and whose raw
    value is empty: all of them when it runs to its end. *)
Lemma resolve_missing entries : forall p h err p' h',
  EnvProvider.resolve p entries h = Returned (err, p', h') ->
  same_bindings p p'
  /\ exists added,
      EnvProvider.missing p' = EnvProvider.missing p ++ added
      /\ (forall n, n ∈ added ->
            n ∈ entries.*1 /\ EnvProvider.rawVal p n = ""
            /\ n ∈ EnvProvider.required p)
      /\ (err = None -> forall n,
            n ∈ entries.*1 -> EnvProvider.rawVal p n = "" ->
            n ∈ EnvProvider.required p -> n ∈ added).
Proof.
  induction entries as [|[name to] rest IH]; intros p h err p' h'; simpl.
  { intros [= <- <- <-]. split; [apply same_bindings_refl |].
    exists []. rewrite app_nil_r. split; [done |].
    split; intros; exfalso; eapply elem_of_nil; eauto. }
  destruct (String.eqb (EnvProvider.rawVal p name) "") eqn:Hraw.
  - apply String.eqb_eq in Hraw.
    destruct (GoStrings.Contains (EnvProvider.required p) name) eqn:Hreq.
    + intros Hres. apply IH in Hres as (Hsame & added & Hmiss & Hadded & Hall).
      pose proof (same_bindings_add_missing p name) as Hstep.
      split; [by eapply same_bindings_trans |].
      exists (name :: added). simpl in Hmiss.
      rewrite Hmiss, <- app_assoc. split; [done |]. split.
      * intros n Hn. apply elem_of_cons in Hn as [-> | Hn].
        -- split; [apply list_elem_of_here |]. split; [done |].
           by apply Contains_In.
        -- apply Hadded in Hn as (H1 & H2 & H3).
           split; [by apply list_elem_of_further |]. split; [| done].
           by rewrite <- (same_bindings_rawVal _ _ n Hstep).
      * intros He n Hn Hr Hq. apply elem_of_cons in Hn as [-> | Hn].
        -- apply list_elem_of_here.
        -- apply list_elem_of_further. apply (Hall He); try done.
    + intros Hres. apply IH in Hres as (Hsame & added & Hmiss & Hadded & Hall).
      split; [done |]. exists added. split; [done |]. split.
      * intros n Hn. apply Hadded in Hn as (H1 & H2 & H3).
        split; [by apply list_elem_of_further | done].
      * intros He n Hn Hr Hq. apply elem_of_cons in Hn as [-> | Hn].
        -- apply Contains_In in Hq. congruence.
        -- by apply (Hall He).
  - assert (Hne : EnvProvider.rawVal p name <> "").
    { intros Heq. rewrite Heq in Hraw. done. }
    assert (Hkeep : forall err p' h' h1,
               EnvProvider.resolve p rest h1 = Returned (err, p', h') ->
               same_bindings p p'
               /\ exists added,
                   EnvProvider.missing p' = EnvProvider.missing p ++ added
                   /\ (forall n, n ∈ added ->
                         n ∈ name :: rest.*1 /\ EnvProvider.rawVal p n = ""
                         /\ n ∈ EnvProvider.required p)
                   /\ (err = None -> forall n,
                         n ∈ name :: rest.*1 -> EnvProvider.rawVal p n = "" ->
                         n ∈ EnvProvider.required p -> n ∈ added)).
    { intros e q k h1 Hres.
      apply IH in Hres as (Hsame & added & Hmiss & Hadded & Hall).
      split; [done |]. exists added. split; [done |]. split.
      - intros n Hn. apply Hadded in Hn as (H1 & H2 & H3).
        split; [by apply list_elem_of_further | done].
      - intros He n Hn Hr Hq. apply elem_of_cons in Hn as [-> | Hn]; [done |].
        by apply (Hall He). }
    assert (Hstop : forall e : error,
               same_bindings p p
               /\ exists added,
                   EnvProvider.missing p = EnvProvider.missing p ++ added
                   /\ (forall n, n ∈ added ->
                         n ∈ name :: rest.*1 /\ EnvProvider.rawVal p n = ""
                         /\ n ∈ EnvProvider.required p)
                   /\ (Some e = None -> forall n,
                         n ∈ name :: rest.*1 -> EnvProvider.rawVal p n = "" ->
                         n ∈ EnvProvider.required p -> n ∈ added)).
    { intros e. split; [apply same_bindings_refl |]. exists [].
      rewrite app_nil_r. split; [done |]. split; [| done].
      intros n Hn. by apply elem_of_nil in Hn. }
    destruct (kind to).
    + destruct (Strconv.ParseBool (EnvProvider.rawVal p name)) as [b|e].
      * destruct (boolVal to); [apply Hkeep | done].
      * intros [= <- <- <-]. apply Hstop.
    + destruct (Strconv.Atoi (EnvProvider.rawVal p name)) as [z|e].
      * destruct (intVal to); [apply Hkeep | done].
      * intros [= <- <- <-]. apply Hstop.
    + destruct (stringVal to); [apply Hkeep | done].
    + intros [= <- <- <-]. apply Hstop.
    + intros [= <- <- <-]. apply Hstop.
    + intros [= <- <- <-]. apply Hstop.
Qed.

End Resolve.

Section Frame.
Context `{GoRuntime}.

(** A slot keeps its value through the loop when every entry bound to
    it has an empty raw value. *)
Lemma resolve_frame entries s : forall p h err p' h',
  (forall name to, (name, to) ∈ entries -> dest to = Some s ->
                   EnvProvider.rawVal p name = "") ->
  EnvProvider.resolve p entries h = Returned (err, p', h') ->
  same_at h h' s.
Proof.
  induction entries as [|[name to] rest IH]; intros p h err p' h' Hs; simpl.
  { intros [= <- <- <-]. apply same_at_refl. }
  assert (Hrest : forall q, same_bindings p q ->
             forall n t, (n, t) ∈ rest -> dest t = Some s ->
                         EnvProvider.rawVal q n = "").
  { intros q Hq n t Hin Hd. rewrite (same_bindings_rawVal _ _ n Hq).
    apply (Hs n t); [by apply list_elem_of_further | done]. }
  destruct (String.eqb (EnvProvider.rawVal p name) "") eqn:Hraw.
  - destruct (GoStrings.Contains (EnvProvider.required p) name).
    + apply IH, Hrest, same_bindings_add_missing.
    + apply IH, Hrest, same_bindings_refl.
  - assert (Hother : dest to <> Some s).
    { intros Hd. rewrite (Hs name to) in Hraw; [done | | done].
      apply list_elem_of_here. }
    unfold dest in Hother.
    assert (Hnext := fun h1 => IH p h1 err p' h' (Hrest p (same_bindings_refl p))).
    destruct (kind to).
    + destruct (Strconv.ParseBool (EnvProvider.rawVal p name)) as [b|e].
      * destruct (boolVal to) as [l|]; [| done]. intros Hres.
        eapply same_at_trans; [| by apply (Hnext _ Hres)].
        apply same_at_store_bool. simpl in Hother. congruence.
      * intros [= <- <- <-]. apply same_at_refl.
    + destruct (Strconv.Atoi (EnvProvider.rawVal p name)) as [z|e].
      * destruct (intVal to) as [l|]; [| done]. intros Hres.
        eapply same_at_trans; [| by apply (Hnext _ Hres)].
        apply same_at_store_int. simpl in Hother. congruence.
      * intros [= <- <- <-]. apply same_at_refl.
    + destruct (stringVal to) as [l|]; [| done]. intros Hres.
      eapply same_at_trans; [| by apply (Hnext _ Hres)].
      apply same_at_store_string. simpl in Hother. congruence.
    + intros [= <- <- <-]. apply same_at_refl.
    + intros [= <- <- <-]. apply same_at_refl.
    + intros [= <- <- <-]. apply same_at_refl.
Qed.

Lemma prepare_bindings p err p1 :
  EnvProvider.prepare p = (err, p1) ->
  EnvProvider.m p1 = EnvProvider.m p
  /\ EnvProvider.fallbacks p1 = EnvProvider.fallbacks p
  /\ EnvProvider.required p1 = EnvProvider.required p
  /\ EnvProvider.missing p1 = EnvProvider.missing p.
Proof.
  unfold EnvProvider.prepare, EnvProvider.AddDotEnv.
  destruct (EnvProvider.withDotEnv p); [| by intros [= <- <-]].
  destruct (EnvProvider.dotEnvReader p) as [r|].
  - destruct (Dotenv.ParseReader r) as [[dotenvs|e] r']; [| by intros [= <- <-]].
    destruct (close_result r'); by intros [= <- <-].
  - destruct Dotenv.Parse; by intros [= <- <-].
Qed.

End Frame.

(** ** A parameter without a value leaves its slot alone (C5) *)

Section EmptyValue.
Context `{GoRuntime}.
Hypothesis Hrange : range_complete.

Lemma rawVal_empty p name :
  EnvProvider.getenv p (EnvProvider.uppersnake name) = "" ->
  default "" (EnvProvider.fallbacks p !! name) = "" ->
  EnvProvider.rawVal p name = "".
Proof.
  intros Hg Hf. unfold EnvProvider.rawVal. rewrite Hg. simpl.
  by destruct (EnvProvider.fallbacks p !! name).
Qed.

(** C5.  Let a parameter of any of the three kinds be registered on an
    Environment Source, its slot being registered under no other name,
    and let its lookup (through the dotenv overlay when there is one)
    and its fallback both be empty.  Then, however [Load] returns, the
    slot holds the value it held before; the name enters the missing
    list only if it is required, and does so whenever [Load] succeeds
    and it is required. *)
Theorem empty_value_leaves_slot (p : EnvProvider.t) (h : mem) name to s :
  EnvProvider.m p !! name = Some to ->
  dest to = Some s ->
  (forall n t, EnvProvider.m p !! n = Some t -> dest t = Some s -> n = name) ->
  EnvProvider.getenv (EnvProvider.prepare p).2 (EnvProvider.uppersnake name) = "" ->
  default "" (EnvProvider.fallbacks p !! name) = "" ->
  name ∉ EnvProvider.Missing p ->
  forall err p' h',
    EnvProvider.Load p h = Returned (err, p', h') ->
    same_at h h' s
    /\ (name ∈ EnvProvider.Missing p' -> name ∈ EnvProvider.required p)
    /\ (err = None -> name ∈ EnvProvider.required p ->
        name ∈ EnvProvider.Missing p').
Proof.
  intros Hm Hd Honly Hget Hfb Hmiss err p' h'. unfold EnvProvider.Load.
  destruct (EnvProvider.prepare p) as [e p1] eqn:Hprep. simpl in Hget.
  destruct (prepare_bindings _ _ _ Hprep) as (Hm1 & Hf1 & Hr1 & Hmiss1).
  destruct e as [e|].
  - intros [= <- <- <-]. split; [apply same_at_refl |]. split; [| done].
    unfold EnvProvider.Missing. rewrite Hmiss1. done.
  - assert (Hraw : EnvProvider.rawVal p1 name = "").
    { apply rawVal_empty; [done | by rewrite Hf1]. }
    intros Hres. split.
    + eapply resolve_frame; [| exact Hres]. intros n t Hin Hdt.
      apply (elem_of_range Hrange) in Hin. rewrite Hm1 in Hin.
      by rewrite (Honly n t Hin Hdt).
    + apply resolve_missing in Hres as (_ & added & Hadd & Hadded & Hall).
      unfold EnvProvider.Missing. rewrite Hadd, Hmiss1. split.
      * intros Hin. apply elem_of_app in Hin as [Hin | Hin]; [done |].
        apply Hadded in Hin as (_ & _ & Hreq). by rewrite <- Hr1.
      * intros He Hreq. apply elem_of_app. right. apply (Hall He).
        -- apply list_elem_of_fmap. exists (name, to). split; [done |].
           apply (elem_of_range Hrange). by rewrite Hm1.
        -- done.
        -- by rewrite Hr1.
Qed.

End EmptyValue.

(** ** A value that does not coerce aborts the resolution (C4) *)

Section Coercion.
Context `{GoRuntime}.

Lemma coercion_fails_bindings p q name to :
  same_bindings p q -> coercion_fails p name to -> coercion_fails q name to.
Proof.
  intros Hq. unfold coercion_fails.
  by rewrite (same_bindings_rawVal _ _ name Hq).
Qed.

(** The loop stops at the first entry that does not coerce: the state
    is the one reached on the entries before it. *)
Lemma resolve_stops entries : forall p h,
  (forall n t, (n, t) ∈ entries -> is_Some (dest t)) ->
  (exists n t, (n, t) ∈ entries /\ coercion_fails p n t) ->
  exists pre n t post cause p' h',
    entries = pre ++ (n, t) :: post
    /\ coercion_fails p n t
    /\ EnvProvider.resolve p pre h = Returned (None, p', h')
    /\ EnvProvider.resolve p entries h
       = Returned (Some (coercion_error n t cause), p', h').
Proof.
  induction entries as [|[n0 t0] rest IH]; intros p h Hwf (n & t & Hin & Hfail).
  { by apply elem_of_nil in Hin. }
  assert (Hwf' : forall n t, (n, t) ∈ rest -> is_Some (dest t)).
  { intros n' t' Hin'. apply (Hwf n' t'). by apply list_elem_of_further. }
  assert (Hgo : forall q h1,
             same_bindings p q ->
             (n, t) ∈ rest ->
             EnvProvider.resolve p [(n0, t0)] h = Returned (None, q, h1) ->
             EnvProvider.resolve p ((n0, t0) :: rest) h
             = EnvProvider.resolve q rest h1 ->
             exists pre n t post cause p' h',
               (n0, t0) :: rest = pre ++ (n, t) :: post
               /\ coercion_fails p n t
               /\ EnvProvider.resolve p pre h = Returned (None, p', h')
               /\ EnvProvider.resolve p ((n0, t0) :: rest) h
                  = Returned (Some (coercion_error n t cause), p', h')).
  { intros q h1 Hq Hin' Hone Hcons.
    destruct (IH q h1 Hwf') as (pre & n' & t' & post & cause & p' & h' & -> & Hf' & Hpre & Hall).
    { exists n, t. split; [done |]. by apply (coercion_fails_bindings p). }
    exists ((n0, t0) :: pre), n', t', post, cause, p', h'.
    split; [done |]. split.
    { apply (coercion_fails_bindings q); [| done].
      destruct Hq as (?&?&?&?&?&?). by repeat split. }
    split; [| by rewrite Hcons].
    revert Hone Hcons Hpre. simpl.
    destruct (String.eqb (EnvProvider.rawVal p n0) "").
    - intros [= -> ->]. done.
    - destruct (kind t0).
      + destruct (Strconv.ParseBool _); [| done].
        destruct (boolVal t0); [| done]. by intros [= -> ->].
      + destruct (Strconv.Atoi _); [| done].
        destruct (intVal t0); [| done]. by intros [= -> ->].
      + destruct (stringVal t0); [| done]. by intros [= -> ->].
      + done.
      + done.
      + done. }
  assert (Hhere : forall cause,
             coercion_fails p n0 t0 ->
             EnvProvider.resolve p ((n0, t0) :: rest) h
             = Returned (Some (coercion_error n0 t0 cause), p, h) ->
             exists pre n t post cause p' h',
               (n0, t0) :: rest = pre ++ (n, t) :: post
               /\ coercion_fails p n t
               /\ EnvProvider.resolve p pre h = Returned (None, p', h')
               /\ EnvProvider.resolve p ((n0, t0) :: rest) h
                  = Returned (Some (coercion_error n t cause), p', h')).
  { intros cause Hf Hres. by exists [], n0, t0, rest, cause, p, h. }
  destruct (Hwf n0 t0 (list_elem_of_here _ _)) as [s0 Hs0].
  unfold dest in Hs0.
  apply elem_of_cons in Hin as [Heq | Hin].
  - injection Heq as -> ->. destruct Hfail as [Hne [[Hk [e He]] | [Hk [e He]]]].
    + apply (Hhere e).
      { split; [done |]. left. split; [done |]. by exists e. }
      simpl. destruct (String.eqb (EnvProvider.rawVal p n0) "") eqn:Hraw.
      { apply String.eqb_eq in Hraw. done. }
      unfold coercion_error. by rewrite Hk, He.
    + apply (Hhere e).
      { split; [done |]. right. split; [done |]. by exists e. }
      simpl. destruct (String.eqb (EnvProvider.rawVal p n0) "") eqn:Hraw.
      { apply String.eqb_eq in Hraw. done. }
      unfold coercion_error. by rewrite Hk, He.
  - destruct (String.eqb (EnvProvider.rawVal p n0) "") eqn:Hraw.
    + destruct (GoStrings.Contains (EnvProvider.required p) n0) eqn:Hreq.
      * apply (Hgo (EnvProvider.add_missing p n0) h);
          [apply same_bindings_add_missing | done | |]; simpl;
          by rewrite Hraw, Hreq.
      * apply (Hgo p h); [apply same_bindings_refl | done | |]; simpl;
          by rewrite Hraw, Hreq.
    + assert (Hne : EnvProvider.rawVal p n0 <> "").
      { intros Heq. by rewrite Heq in Hraw. }
      destruct (kind t0) eqn:Hk; try done.
      * destruct (Strconv.ParseBool (EnvProvider.rawVal p n0)) as [b|e] eqn:Hb.
        -- destruct (boolVal t0) as [l|] eqn:Hl; [| done].
           apply (Hgo p (store_bool h l b)); [apply same_bindings_refl | done | |];
             simpl; by rewrite Hraw, Hk, Hb, Hl.
        -- apply (Hhere e).
           { split; [done |]. right. split; [done |]. by exists e. }
           simpl. unfold coercion_error. by rewrite Hraw, Hk, Hb.
      * destruct (Strconv.Atoi (EnvProvider.rawVal p n0)) as [z|e] eqn:Hz.
        -- destruct (intVal t0) as [l|] eqn:Hl; [| done].
           apply (Hgo p (store_int h l z)); [apply same_bindings_refl | done | |];
             simpl; by rewrite Hraw, Hk, Hz, Hl.
        -- apply (Hhere e).
           { split; [done |]. left. split; [done |]. by exists e. }
           simpl. unfold coercion_error. by rewrite Hraw, Hk, Hz.
      * destruct (stringVal t0) as [l|] eqn:Hl; [| done].
        apply (Hgo p (store_string h l (EnvProvider.rawVal p n0)));
          [apply same_bindings_refl | done | |]; simpl; by rewrite Hraw, Hk, Hl.
Qed.

End Coercion.

Section CoercionFailure.
Context `{GoRuntime}.
Hypothesis Hrange : range_complete.

Lemma coercion_error_names name to cause :
  GoStrings.has_substring (Error (coercion_error name to cause)) name.
Proof.
  exists "failed to parse ",
         (" as " +:+ Kind_String (kind to) +:+ ": " +:+ Error cause).
  unfold coercion_error, Errorf_w, Error at 1. by rewrite !append_assoc.
Qed.

(** C4.  Let the overlay step of [Load] succeed, let every registered
    destination be one of the three kinds with a pointer that is not
    nil, and let the raw value of a registered parameter (lookup, then
    fallback) be non-empty and fail the coercion into its integer or
    boolean destination.  Then [Load] returns an error.  It stops at the
    first such parameter that [range] visits: the provider and the store
    are the ones reached on the entries before it, nothing after it is
    resolved, and the error is the parse error of that parameter, whose
    name it contains; it is the parameter itself when no other one
    fails.  No parameter that fails the coercion is appended to the
    missing list. *)
Theorem coercion_failure_aborts (p p1 : EnvProvider.t) (h : mem) name to :
  EnvProvider.prepare p = (None, p1) ->
  (forall n t, EnvProvider.m p !! n = Some t -> is_Some (dest t)) ->
  EnvProvider.m p !! name = Some to ->
  coercion_fails p1 name to ->
  exists e p' h',
    EnvProvider.Load p h = Returned (Some e, p', h')
    /\ (exists pre n t post cause,
           range_order (EnvProvider.m p) = pre ++ (n, t) :: post
           /\ coercion_fails p1 n t
           /\ EnvProvider.resolve p1 pre h = Returned (None, p', h')
           /\ e = coercion_error n t cause
           /\ GoStrings.has_substring (Error e) n
           /\ ((forall n' t', EnvProvider.m p !! n' = Some t' ->
                              coercion_fails p1 n' t' -> n' = name) ->
               n = name))
    /\ (exists added,
           EnvProvider.Missing p' = EnvProvider.Missing p ++ added
           /\ forall n' t', coercion_fails p1 n' t' -> n' ∉ added).
Proof.
  intros Hprep Hwf Hm Hfail.
  destruct (prepare_bindings _ _ _ Hprep) as (Hm1 & Hf1 & Hr1 & Hmiss1).
  destruct (resolve_stops (range_order (EnvProvider.m p1)) p1 h)
    as (pre & n & t & post & cause & p' & h' & Hsplit & Hf & Hpre & Hres).
  { intros n t Hin. apply (elem_of_range Hrange) in Hin. rewrite Hm1 in Hin.
    by apply (Hwf n t). }
  { exists name, to. split; [| done]. apply (elem_of_range Hrange).
    by rewrite Hm1. }
  exists (coercion_error n t cause), p', h'. split.
  { unfold EnvProvider.Load. by rewrite Hprep. }
  split.
  - exists pre, n, t, post, cause. rewrite <- Hm1.
    split; [done |]. split; [done |]. split; [done |]. split; [done |].
    split; [apply coercion_error_names |].
    intros Honly. apply (Honly n t); [| done].
    apply (elem_of_range Hrange). rewrite Hsplit.
    apply elem_of_app. right. apply list_elem_of_here.
  - apply resolve_missing in Hres as (_ & added & Hadd & Hadded & _).
    exists added. unfold EnvProvider.Missing. rewrite Hadd, Hmiss1.
    split; [done |]. intros n' t' [Hne _] Hin.
    apply Hadded in Hin as (_ & Hempty & _). done.
Qed.

End CoercionFailure.

(** ** The later source wins (C1) *)

Section Precedence.
Context `{GoRuntime}.

(** A composer of two members loads the first, then the second on the
    store the first has left, and keeps the store of the second. *)
Lemma Load_two m A B required missing h0 P' h2 :
  Load (PPriority m [A; B] required missing) h0 = Returned (None, P', h2) ->
  exists A' h1 B',
    Load A h0 = Returned (None, A', h1)
    /\ Load B h1 = Returned (None, B', h2)
    /\ P' = PPriority m [A'; B'] required
              (collect_missing (range_order m) required h2 missing).
Proof.
  rewrite Load_composer. simpl.
  destruct (Load A h0) as [[[[eA|] A'] h1]|] eqn:HA; simpl; try done.
  destruct (Load B h1) as [[[[eB|] B'] hB]|] eqn:HB; simpl; try done.
  intros [= <- <-]. by exists A', h1, B'.
Qed.

(** C1.  Let a composer be built from the sources [A; B] and let its
    [Load] succeed.  If the load of [A] leaves a non-empty value in a
    slot, and the load of [B], run on the store that [A] has left,
    leaves a non-empty value there, then the slot holds the value of
    [B] when the load of the composer returns. *)
Theorem later_source_wins m A B required missing h0 P' h2 s vA vB :
  Load (PPriority m [A; B] required missing) h0 = Returned (None, P', h2) ->
  forall eA A' h1 eB B' hB,
    Load A h0 = Returned (eA, A', h1) ->
    read h1 s = Some vA -> non_empty vA ->
    Load B h1 = Returned (eB, B', hB) ->
    read hB s = Some vB -> non_empty vB ->
    read h2 s = Some vB.
Proof.
  intros Hload eA A' h1 eB B' hB HA _ _ HB Hv _.
  apply Load_two in Hload as (A2 & h1' & B2 & HA2 & HB2 & _).
  rewrite HA in HA2. injection HA2 as -> -> ->.
  rewrite HB in HB2. by injection HB2 as -> -> ->.
Qed.

End Precedence.

(** * A runtime to run the model on *)

Lemma plain_runtime_range : @range_complete plain_runtime.
Proof. intros m. reflexivity. Qed.

(** ** The tokens that the Argument Source leaves (C7) *)

Section FlagParse.
Context `{GoRuntime}.

(** The step of the parser on a token that is read as a flag. *)
Lemma parse_dashed formal tok rest h :
  dashed tok = true ->
  Flag.parse formal (tok :: rest) h
  = if Flag.bad_name (Flag.strip_minuses tok)
    then (Some (errorString ("bad flag syntax: " +:+ tok)), tok :: rest, h)
    else
      match formal !! token_name tok with
      | None =>
          if String.eqb (token_name tok) "help" || String.eqb (token_name tok) "h"
          then (Some Flag.ErrHelp, rest, h)
          else (Some (errorString ("flag provided but not defined: -"
                                   +:+ token_name tok)), rest, h)
      | Some fv =>
          if Flag.IsBoolFlag fv then
            match token_value tok with
            | Some v =>
                match Flag.Set_ fv v h with
                | (Some err, h') =>
                    (Some (errorString
                             ("invalid boolean value " +:+ Quote v +:+ " for -"
                              +:+ token_name tok +:+ ": " +:+ Error err)),
                     rest, h')
                | (None, h') => Flag.parse formal rest h'
                end
            | None =>
                match Flag.Set_ fv "true" h with
                | (Some err, h') =>
                    (Some (errorString
                             ("invalid boolean flag " +:+ token_name tok +:+ ": "
                              +:+ Error err)),
                     rest, h')
                | (None, h') => Flag.parse formal rest h'
                end
            end
          else
            match token_value tok, rest with
            | Some v, _ =>
                match Flag.Set_ fv v h with
                | (Some err, h') =>
                    (Some (errorString
                             ("invalid value " +:+ Quote v +:+ " for flag -"
                              +:+ token_name tok +:+ ": " +:+ Error err)),
                     rest, h')
                | (None, h') => Flag.parse formal rest h'
                end
            | None, v :: rest' =>
                match Flag.Set_ fv v h with
                | (Some err, h') =>
                    (Some (errorString
                             ("invalid value " +:+ Quote v +:+ " for flag -"
                              +:+ token_name tok +:+ ": " +:+ Error err)),
                     rest', h')
                | (None, h') => Flag.parse formal rest' h'
                end
            | None, [] =>
                (Some (errorString ("flag needs an argument: -" +:+ token_name tok)),
                 rest, h)
            end
      end.
Proof.
  unfold dashed. intros Hd. apply andb_true_iff in Hd as [Hnf Hterm].
  apply negb_true_iff in Hnf, Hterm.
  unfold token_name, token_value. cbn [Flag.parse]. rewrite Hnf, Hterm.
  destruct (Flag.bad_name _); [done |].
  by destruct (Flag.split_name _) as [nm value].
Qed.

Lemma flag_shaped_dashed tok :
  flag_shaped tok = true ->
  dashed tok = true /\ Flag.bad_name (Flag.strip_minuses tok) = false.
Proof.
  unfold flag_shaped. intros Hs. apply andb_true_iff in Hs as [Hd Hb].
  by apply negb_true_iff in Hb.
Qed.

(** A parse without an error has consumed registered flags with their
    values and has stopped after the terminator, at the end or before a
    token that is no flag. *)
Lemma parse_consumes formal (n : nat) : forall args h rest h',
  (length args <= n)%nat ->
  Flag.parse formal args h = (None, rest, h') ->
  exists flags term,
    args = flags ++ term ++ rest
    /\ flag_tokens formal flags
    /\ parse_stop term rest.
Proof.
  induction n as [|n IH]; intros args h rest h' Hlen.
  { destruct args; [| simpl in Hlen; lia]. intros [= <- <-].
    exists [], []. split; [done |]. split; [constructor |]. right. by split; [| left]. }
  destruct args as [|tok rest0].
  { intros [= <- <-].
    exists [], []. split; [done |]. split; [constructor |]. right. by split; [| left]. }
  simpl in Hlen.
  destruct (Flag.non_flag tok) eqn:Hnf.
  { cbn [Flag.parse]. rewrite Hnf. intros [= <- <-].
    exists [], []. split; [done |]. split; [constructor |].
    right. split; [done |]. right. by exists tok, rest0. }
  destruct (String.eqb_spec tok "--") as [-> | Hterm].
  { cbn [Flag.parse]. simpl. intros [= <- <-].
    exists [], ["--"]. split; [done |]. split; [constructor | by left]. }
  assert (Hd : dashed tok = true).
  { unfold dashed. rewrite Hnf. simpl. by apply negb_true_iff, String.eqb_neq. }
  rewrite (parse_dashed formal tok rest0 h Hd).
  destruct (Flag.bad_name (Flag.strip_minuses tok)) eqn:Hbad; [done |].
  assert (Hshape : flag_shaped tok = true).
  { unfold flag_shaped. by rewrite Hd, Hbad. }
  destruct (formal !! token_name tok) as [fv|] eqn:Hfv.
  2:{ by destruct (String.eqb _ "help" || String.eqb _ "h"). }
  assert (Hone : forall h1, Flag.parse formal rest0 h1 = (None, rest, h') ->
            (exists v, token_value tok = Some v)
            \/ (token_value tok = None /\ Flag.IsBoolFlag fv = true) ->
            exists flags term,
              tok :: rest0 = flags ++ term ++ rest
              /\ flag_tokens formal flags /\ parse_stop term rest).
  { intros h1 Hp Hcase. apply IH in Hp as (flags & term & -> & Hflags & Hstop); [| lia].
    exists (tok :: flags), term. split; [done |]. split; [| done].
    destruct Hcase as [[v Hv] | [Hv Hb]].
    - by apply (flag_tokens_attached formal tok fv v).
    - by apply (flag_tokens_bool formal tok fv). }
  destruct (Flag.IsBoolFlag fv) eqn:Hbool.
  - destruct (token_value tok) as [v|] eqn:Hv.
    + destruct (Flag.Set_ fv v h) as [[e|] h1]; [done |].
      intros Hp. apply (Hone h1 Hp). left. by exists v.
    + destruct (Flag.Set_ fv "true" h) as [[e|] h1]; [done |].
      intros Hp. apply (Hone h1 Hp). by right.
  - destruct (token_value tok) as [v|] eqn:Hv.
    + destruct (Flag.Set_ fv v h) as [[e|] h1]; [done |].
      intros Hp. apply (Hone h1 Hp). left. by exists v.
    + destruct rest0 as [|v rest1]; [done |].
      destruct (Flag.Set_ fv v h) as [[e|] h1]; [done |].
      intros Hp. simpl in Hlen.
      apply IH in Hp as (flags & term & -> & Hflags & Hstop); [| lia].
      exists (tok :: v :: flags), term. split; [done |]. split; [| done].
      by apply (flag_tokens_next formal tok fv v).
Qed.

(** After registered flags, a token that is read as a flag and is none
    that is registered makes the parse fail (if it has not failed
    before, on a value). *)
Lemma parse_unregistered formal flags :
  flag_tokens formal flags ->
  forall tok rest h,
    dashed tok = true ->
    flag_shaped tok = false \/ formal !! token_name tok = None ->
    exists e rest' h', Flag.parse formal (flags ++ tok :: rest) h = (Some e, rest', h').
Proof.
  induction 1 as [|tok0 fv v tl Hs Hfv Hv _ IH|tok0 fv tl Hs Hfv Hv Hb _ IH
                  |tok0 fv v tl Hs Hfv Hv Hb _ IH];
    intros tok rest h Hd Hnone.
  - cbn [app]. rewrite (parse_dashed formal tok rest h Hd).
    destruct (Flag.bad_name (Flag.strip_minuses tok)) eqn:Hbad; [by eexists _, _, _ |].
    destruct Hnone as [Hshape | Hnone].
    { unfold flag_shaped in Hshape. by rewrite Hd, Hbad in Hshape. }
    rewrite Hnone.
    destruct (String.eqb _ "help" || String.eqb _ "h"); by eexists _, _, _.
  - destruct (flag_shaped_dashed _ Hs) as [Hd0 Hbad0].
    cbn [app]. rewrite (parse_dashed formal tok0 _ h Hd0), Hbad0, Hfv, Hv.
    destruct (Flag.IsBoolFlag fv);
      (destruct (Flag.Set_ fv v h) as [[e|] h1]; [by eexists _, _, _ | by apply IH]).
  - destruct (flag_shaped_dashed _ Hs) as [Hd0 Hbad0].
    cbn [app]. rewrite (parse_dashed formal tok0 _ h Hd0), Hbad0, Hfv, Hv, Hb.
    destruct (Flag.Set_ fv "true" h) as [[e|] h1]; [by eexists _, _, _ | by apply IH].
  - destruct (flag_shaped_dashed _ Hs) as [Hd0 Hbad0].
    cbn [app]. rewrite (parse_dashed formal tok0 _ h Hd0), Hbad0, Hfv, Hv, Hb.
    destruct (Flag.Set_ fv v h) as [[e|] h1]; [by eexists _, _, _ | by apply IH].
Qed.

End FlagParse.

(** A token that begins with [-] and is no registered flag does not stop
    the resolution: [Load] fails and the sink is never called. *)
Lemma unregistered_flag_fails_without_sink :
  exists e c h',
    @LoadFlagsWithRemaining plain_runtime Field1_record Field1_data
      ["--field1"; "value1"; "--verbose"; "extra"] empty_mem
    = Returned (Some e, c, h')
    /\ Error e
       = "failed to load configuration: failed to load configuration with "
         +:+ "*conf.FlagProvider: failed to parse flags: "
         +:+ "flag provided but not defined: -verbose"
    /\ sink_calls c = [].
Proof. eexists _, _, _. vm_compute. done. Qed.

Section RemainingAfterFlags.
Context `{GoRuntime}.

(** C7, as the code has it.  When the [Load] of an Argument Source
    returns no error, the tokens it has consumed are registered flags,
    each with its value, and it has stopped after the terminator [--],
    at the end of the tokens, or before the first token in the position
    of a flag that does not begin with [-]; the tokens after that point
    are what the flag set keeps, as they were and in their order, and a
    sink, if there is one, has been called exactly once more, with
    them.  When [Load] returns an error the sink has not been called;
    and it does return an error when, after registered flags, a token
    begins with [-] and is no registered flag.  In particular
    [--field1 value1 extra --field1 value2] leaves [value1] in [Field1]
    and hands [extra --field1 value2] to the sink. *)
Theorem remaining_tokens_after_flags :
  (forall (p : FlagProvider.t) h p' h',
      FlagProvider.Load p h = (None, p', h') ->
      exists flags term rest,
        FlagProvider.args p = flags ++ term ++ rest
        /\ flag_tokens (Flag.formal (FlagProvider.fs p)) flags
        /\ parse_stop term rest
        /\ Flag.Args (FlagProvider.fs p') = rest
        /\ FlagProvider.remainingCalls p'
           = if FlagProvider.remainingFunc p
             then FlagProvider.remainingCalls p ++ [rest]
             else FlagProvider.remainingCalls p)
  /\ (forall (p : FlagProvider.t) h e p' h',
      FlagProvider.Load p h = (Some e, p', h') ->
      FlagProvider.remainingCalls p' = FlagProvider.remainingCalls p)
  /\ (forall (p : FlagProvider.t) h flags tok rest,
      FlagProvider.args p = flags ++ tok :: rest ->
      flag_tokens (Flag.formal (FlagProvider.fs p)) flags ->
      dashed tok = true ->
      flag_shaped tok = false
      \/ Flag.formal (FlagProvider.fs p) !! token_name tok = None ->
      exists e p' h',
        FlagProvider.Load p h = (Some e, p', h')
        /\ FlagProvider.remainingCalls p' = FlagProvider.remainingCalls p)
  /\ (exists c h',
        @LoadFlagsWithRemaining plain_runtime Field1_record Field1_data
          ["--field1"; "value1"; "extra"; "--field1"; "value2"] empty_mem
        = Returned (None, c, h')
        /\ load_string h' 0%nat = "value1"
        /\ sink_calls c = [["extra"; "--field1"; "value2"]]).
Proof.
  split; [| split; [| split]].
  - intros p h p' h'. unfold FlagProvider.Load, Flag.Parse.
    destruct (Flag.parse (Flag.formal (FlagProvider.fs p)) (FlagProvider.args p) h)
      as [[[e|] rest] h1] eqn:Hparse; [done |].
    intros [= <- <-].
    destruct (parse_consumes _ _ _ _ _ _ (le_n _) Hparse)
      as (flags & term & Hargs & Hflags & Hstop).
    exists flags, term, rest. by repeat split.
  - intros p h e p' h'. unfold FlagProvider.Load.
    destruct (Flag.Parse _ _ _) as [[[e'|] fs'] h1]; [| done].
    by intros [= _ <- _].
  - intros p h flags tok rest Hargs Hflags Hd Hnone.
    destruct (parse_unregistered _ _ Hflags tok rest h Hd Hnone)
      as (e & rest' & h1 & Hparse).
    unfold FlagProvider.Load, Flag.Parse. rewrite Hargs, Hparse.
    by eexists _, _, _.
  - eexists _, _. vm_compute. done.
Qed.

End RemainingAfterFlags.

(** ** The dotenv stream (C8) *)

Section DotenvStream.
Context `{GoRuntime}.

(** Registration never touches the stream. *)
Lemma registration_keeps_reader p to name req :
  (forall fallback,
      EnvProvider.dotEnvReader (EnvProvider.StringVar p to name fallback req)
      = EnvProvider.dotEnvReader p)
  /\ (forall fallback,
      EnvProvider.dotEnvReader (EnvProvider.IntVar p to name fallback req)
      = EnvProvider.dotEnvReader p)
  /\ (forall fallback,
      EnvProvider.dotEnvReader (EnvProvider.BoolVar p to name fallback req)
      = EnvProvider.dotEnvReader p).
Proof. done. Qed.

(** When the stream parses, [Load] has closed it before it goes on. *)
Lemma stream_closed_when_parsed p r dotenvs r' :
  EnvProvider.withDotEnv p = true ->
  EnvProvider.dotEnvReader p = Some r ->
  Dotenv.ParseReader r = (inl dotenvs, r') ->
  exists e p1,
    EnvProvider.prepare p = (e, p1)
    /\ EnvProvider.dotEnvReader p1
       = Some (MkReadCloser (unread r') true (close_result r')).
Proof.
  intros Hw Hr Hp. unfold EnvProvider.prepare, EnvProvider.AddDotEnv.
  rewrite Hw, Hr, Hp. destruct (close_result r'); by eexists _, _.
Qed.

(** C8, what the code does.  When the content of the stream does not
    parse, [Load] returns the error and leaves the stream as the parser
    left it: [Close] has not been called, and the lines after the
    malformed one have not been read. *)
Theorem stream_left_open_on_parse_failure p r h err r' :
  EnvProvider.withDotEnv p = true ->
  EnvProvider.dotEnvReader p = Some r ->
  Dotenv.ParseReader r = (inr err, r') ->
  exists e p',
    EnvProvider.Load p h = Returned (Some e, p', h)
    /\ EnvProvider.dotEnvReader p' = Some r'
    /\ closed r' = closed r.
Proof.
  intros Hw Hr Hp. unfold EnvProvider.Load, EnvProvider.prepare, EnvProvider.AddDotEnv.
  rewrite Hw, Hr, Hp. eexists _, _. split; [done |]. split; [done |].
  unfold Dotenv.ParseReader in Hp.
  destruct (Dotenv.scan (unread r) 0 ∅) as [res rest]. by injection Hp as _ <-.
Qed.

End DotenvStream.

Lemma stream_left_open_witness :
  exists e p',
    @EnvProvider.Load plain_runtime malformed_source empty_mem
    = Returned (Some e, p', empty_mem)
    /\ EnvProvider.dotEnvReader p' = Some (MkReadCloser ["OTHER=x"] false None)
    /\ closed (MkReadCloser ["OTHER=x"] false None) = closed malformed_stream.
Proof.
  apply (@stream_left_open_on_parse_failure plain_runtime malformed_source
           malformed_stream empty_mem
           (errorString "malformed line 2: malformed")
           (MkReadCloser ["OTHER=x"] false None));
    vm_compute; reflexivity.
Defined.

(** ** [Atoi] reads back what [%d] prints *)

Section DecimalRoundTrip.
Import Strconv.

Lemma uint_val_ge d : forall acc, 0 <= acc -> acc <= uint_val acc d.
Proof.
  induction d; intros acc Hacc; simpl; [lia | ..];
    (etransitivity; [| apply IHd]; lia).
Qed.

Lemma of_uint_acc_val d : forall acc,
  Zpos (Pos.of_uint_acc d acc) = uint_val (Zpos acc) d.
Proof.
  induction d; intros acc; simpl; [done | ..]; rewrite IHd; f_equal; lia.
Qed.

Lemma of_uint_val d : Z.of_N (Pos.of_uint d) = uint_val 0 d.
Proof.
  induction d; simpl; [done | done | ..]; by rewrite of_uint_acc_val.
Qed.

Lemma to_uint_val p : uint_val 0 (Pos.to_uint p) = Zpos p.
Proof. by rewrite <- of_uint_val, DecimalPos.Unsigned.of_to. Qed.

(** The digit loop on the digits that [%d] prints. *)
Lemma ParseUint10_digits d : forall acc,
  0 <= acc -> uint_val acc d <= maxUint64 ->
  ParseUint10 acc (NilEmpty.string_of_uint d) = inl (uint_val acc d).
Proof.
  induction d; intros acc Hacc Hmax; [done | ..];
    match goal with
    | |- ParseUint10 _ (NilEmpty.string_of_uint (?D _)) = _ =>
        pose proof (uint_val_ge d (uint_val acc (D Decimal.Nil))) as Hge
    end;
    simpl in Hge, Hmax |- *;
    unfold digit_val; simpl;
    match goal with
    | |- context [Z.of_nat (nat_of_ascii ?c) - 48] =>
        let v := eval vm_compute in (Z.of_nat (nat_of_ascii c) - 48) in
        change (Z.of_nat (nat_of_ascii c) - 48) with v
    end;
    match goal with
    | |- context [Z.ltb maxUint64 ?x] =>
        destruct (Z.ltb_spec maxUint64 x) as [Hlt | Hle];
        [ lia | apply IHd; lia ]
    end.
Qed.

End DecimalRoundTrip.

Section AtoiFormat.
Import Strconv.

Lemma string_of_uint_nonnil d :
  d <> Decimal.Nil ->
  NilZero.string_of_uint d = NilEmpty.string_of_uint d
  /\ exists c s', NilEmpty.string_of_uint d = String c s' /\ is_digit c = true.
Proof.
  intros Hd. destruct d; [done | ..]; (split; [done |]); simpl;
    eexists _, _; (split; [reflexivity | done]).
Qed.

Lemma ParseInt10_unsigned c s' :
  is_digit c = true ->
  ParseInt10 (String c s')
  = match ParseUint10 0 (String c s') with
    | inr e => inr e
    | inl un => if maxInt64 <? un then inr ErrRange else inl un
    end.
Proof.
  intros Hc. unfold ParseInt10.
  destruct (Ascii.eqb_spec c "-") as [-> | _]; [done |].
  destruct (Ascii.eqb_spec c "+") as [-> | _]; [done |].
  simpl orb. cbv iota. destruct (ParseUint10 0 (String c s')); [| done].
  simpl. done.
Qed.

Lemma ParseInt10_negative c s' :
  is_digit c = true ->
  ParseInt10 (String "-" (String c s'))
  = match ParseUint10 0 (String c s') with
    | inr e => inr e
    | inl un => if - minInt64 <? un then inr ErrRange else inl (- un)
    end.
Proof. intros Hc. unfold ParseInt10. simpl. done. Qed.

(** What [%d] prints for an [int], [Atoi] reads back. *)
Lemma ParseInt10_FormatInt z :
  minInt64 <= z <= maxInt64 -> ParseInt10 (FormatInt z) = inl z.
Proof.
  intros Hz. unfold FormatInt. destruct z as [|p|p]; [done | |].
  - simpl.
    destruct (string_of_uint_nonnil (Pos.to_uint p))
      as (-> & c & s' & Hs & Hc); [apply DecimalPos.Unsigned.to_uint_nonnil |].
    rewrite Hs, (ParseInt10_unsigned _ _ Hc), <- Hs.
    rewrite ParseUint10_digits, to_uint_val;
      [| done | rewrite to_uint_val; unfold maxUint64, maxInt64 in *; lia].
    destruct (Z.ltb_spec maxInt64 (Z.pos p)); [lia | done].
  - change (NilZero.string_of_int (Z.to_int (Z.neg p)))
      with (String "-" (NilZero.string_of_uint (Pos.to_uint p))).
    destruct (string_of_uint_nonnil (Pos.to_uint p))
      as (-> & c & s' & Hs & Hc); [apply DecimalPos.Unsigned.to_uint_nonnil |].
    rewrite Hs, (ParseInt10_negative _ _ Hc), <- Hs.
    rewrite ParseUint10_digits, to_uint_val;
      [| done | rewrite to_uint_val; unfold maxUint64, minInt64 in *; lia].
    destruct (Z.ltb_spec (- minInt64) (Z.pos p)); [lia | done].
Qed.

Lemma ParseUint10_nonneg s : forall acc un,
  0 <= acc -> ParseUint10 acc s = inl un -> 0 <= un.
Proof.
  induction s as [|c s IH]; intros acc un Hacc; simpl; [by intros [= <-] |].
  destruct (is_digit c) eqn:Hc; [| done].
  destruct (maxUint64 <? acc * 10 + digit_val c); [done |].
  apply IH. unfold is_digit in Hc. apply andb_true_iff in Hc as [Hc _].
  apply Nat.leb_le in Hc. unfold digit_val. lia.
Qed.

(** A value that [Atoi] returns is an [int]. *)
Lemma ParseInt10_range s z :
  ParseInt10 s = inl z -> minInt64 <= z <= maxInt64.
Proof.
  unfold ParseInt10. destruct s as [|c s']; [done |].
  destruct (if Ascii.eqb c "+" || Ascii.eqb c "-" then s' else String c s')
    as [|c1 s1]; [done |].
  destruct (ParseUint10 0 (String c1 s1)) as [un|] eqn:Hun; [| done].
  apply ParseUint10_nonneg in Hun; [| done].
  destruct (Ascii.eqb c "-"); simpl.
  - destruct (Z.ltb_spec (- minInt64) un); [done |]. intros [= <-].
    unfold minInt64, maxInt64 in *. lia.
  - destruct (Z.ltb_spec maxInt64 un); [done |]. intros [= <-].
    unfold minInt64, maxInt64 in *. lia.
Qed.

Lemma Atoi_FormatInt `{GoRuntime} s z :
  Atoi s = inl z -> Atoi (FormatInt z) = inl z.
Proof.
  unfold Atoi. destruct (ParseInt10 s) as [v|] eqn:Hs; [| done].
  intros [= ->]. by rewrite (ParseInt10_FormatInt z (ParseInt10_range _ _ Hs)).
Qed.

End AtoiFormat.


(** ** What the Environment Source assigns *)

Lemma same_at_read h h' s : same_at h h' s -> read h s = read h' s.
Proof. destruct s as [[] l]; simpl; congruence. Qed.

Lemma read_store_string h l v :
  read (store_string h l v) (String_, l) = Some (VString v).
Proof. unfold read, load_string, store_string. simpl. by rewrite lookup_insert_eq. Qed.

Lemma read_store_int h l v : read (store_int h l v) (Int, l) = Some (VInt v).
Proof. unfold read, load_int, store_int. simpl. by rewrite lookup_insert_eq. Qed.

Lemma read_store_bool h l v : read (store_bool h l v) (Bool_, l) = Some (VBool v).
Proof. unfold read, load_bool, store_bool. simpl. by rewrite lookup_insert_eq. Qed.

Section Assigns.
Context `{GoRuntime}.

(** When the loop runs to its end, a parameter with a non-empty raw
    value has it, coerced, in its slot, provided no other entry is bound
    to the slot. *)
Lemma resolve_assigns entries name to s : forall p h p' h',
  EnvProvider.resolve p entries h = Returned (None, p', h') ->
  NoDup entries.*1 ->
  (name, to) ∈ entries ->
  dest to = Some s ->
  EnvProvider.rawVal p name <> "" ->
  (forall n t, (n, t) ∈ entries -> dest t = Some s -> n = name) ->
  read h' s = coerce (kind to) (EnvProvider.rawVal p name).
Proof.
  induction entries as [|[n0 t0] rest IH]; intros p h p' h' Hres Hnd Hin Hd Hraw Honly.
  { by apply elem_of_nil in Hin. }
  apply NoDup_cons in Hnd as [Hfresh Hnd].
  assert (Honly' : forall n t, (n, t) ∈ rest -> dest t = Some s -> n = name).
  { intros n t Hnt. apply Honly. by apply list_elem_of_further. }
  apply elem_of_cons in Hin as [Heq | Hin].
  - injection Heq as <- <-.
    assert (Hframe : forall h1, EnvProvider.resolve p rest h1 = Returned (None, p', h') ->
               read h1 s = read h' s).
    { intros h1 Hr. apply same_at_read. eapply resolve_frame; [| exact Hr].
      intros n t Hnt Hdt. exfalso. apply Hfresh.
      rewrite (Honly' n t Hnt Hdt) in Hnt.
      apply list_elem_of_fmap. by exists (name, t). }
    revert Hres. simpl.
    destruct (String.eqb (EnvProvider.rawVal p name) "") eqn:Hr.
    { apply String.eqb_eq in Hr. done. }
    unfold dest in Hd. unfold coerce. destruct (kind to); try done.
    + destruct (Strconv.ParseBool (EnvProvider.rawVal p name)) as [b|e]; [| done].
      destruct (boolVal to) as [l|]; [| done]. injection Hd as <-.
      intros Hres. rewrite <- (Hframe _ Hres). apply read_store_bool.
    + destruct (Strconv.Atoi (EnvProvider.rawVal p name)) as [z|e]; [| done].
      destruct (intVal to) as [l|]; [| done]. injection Hd as <-.
      intros Hres. rewrite <- (Hframe _ Hres). apply read_store_int.
    + destruct (stringVal to) as [l|]; [| done]. injection Hd as <-.
      intros Hres. rewrite <- (Hframe _ Hres). apply read_store_string.
  - assert (Hnext : forall q h1, same_bindings p q ->
               EnvProvider.resolve q rest h1 = Returned (None, p', h') ->
               read h' s = coerce (kind to) (EnvProvider.rawVal p name)).
    { intros q h1 Hq Hr. rewrite <- (same_bindings_rawVal _ _ name Hq).
      apply (IH q h1 p' h'); try done.
      by rewrite (same_bindings_rawVal _ _ name Hq). }
    revert Hres. simpl.
    destruct (String.eqb (EnvProvider.rawVal p n0) "").
    + destruct (GoStrings.Contains (EnvProvider.required p) n0).
      * apply Hnext, same_bindings_add_missing.
      * apply Hnext, same_bindings_refl.
    + destruct (kind t0); try done.
      * destruct (Strconv.ParseBool _); [| done].
        destruct (boolVal t0); [| done]. apply Hnext, same_bindings_refl.
      * destruct (Strconv.Atoi _); [| done].
        destruct (intVal t0); [| done]. apply Hnext, same_bindings_refl.
      * destruct (stringVal t0); [| done]. apply Hnext, same_bindings_refl.
Qed.

End Assigns.

(** ** Registering a name twice (C6) *)

Lemma env_register_m p v :
  EnvProvider.m (env_register p v) = <[var_name v := var_typ v]> (EnvProvider.m p).
Proof. by destruct v. Qed.

(** ** Unexported fields (C10) *)

(** The binder returns the error of the default before it takes the
    address of the field: no panic. *)
Lemma unexported_malformed_default_returns_error :
  exists c h,
    @Load_cfg plain_runtime malformed_default_record Field1_data [] empty_mem
    = Returned
        (Some (Errorf_w ("failed to parse fallback value " +:+ dquote +:+ "abc"
                         +:+ dquote +:+ " as int: ")
                 (@Strconv.NumError plain_runtime "Atoi" "abc" ErrSyntax)),
         c, h).
Proof. eexists _, _. vm_compute. reflexivity. Qed.

Section Unexported.
Context `{GoRuntime}.

Lemma load_fields_app pre rest : forall i v c h,
  load_fields (pre ++ rest) i v c h
  = ('(err, c1, h1) ← load_fields pre i v c h;
     match err with
     | Some err => mret (Some err, c1, h1)
     | None => load_fields rest (i + length pre)%nat v c1 h1
     end).
Proof.
  induction pre as [|f pre IH]; intros i v c h; simpl.
  - by rewrite Nat.add_0_r.
  - destruct (Reflect.Field v i) as [vi|]; [| done]. simpl.
    destruct (LoadField c f vi h) as [[[[e|] c1] h1]|]; simpl; try done.
    rewrite IH. by replace (S i + length pre)%nat with (i + S (length pre))%nat by lia.
Qed.

(** A field of a primitive kind is bound by [bind_field]. *)
Lemma LoadField_primitive c field value h :
  primitive (rtype_Kind (field_Type field)) ->
  LoadField c field value h = bind_field c field value h.
Proof.
  unfold primitive.
  destruct field as [name pkg [k tname|fs|elem] tag anon]; simpl;
    intros Hk; try done; destruct Hk as [Hk | [Hk | Hk]]; done.
Qed.

(** Binding a read-only value of a primitive kind with a tag panics once
    the default has parsed. *)
Lemma bind_field_read_only c field value h :
  flagRO value = true ->
  field_Tag field <> "" ->
  primitive (rtype_Kind (field_Type field)) ->
  default_parses field ->
  bind_field c field value h = Panicked Reflect.unexported_msg.
Proof.
  intros Hro Htag Hk Hdef. unfold bind_field, default_parses, primitive in *.
  destruct (String.eqb_spec (field_Tag field) ""); [done |].
  destruct (parseTag (field_Tag field)) as [[tagVal required] fallback].
  simpl in Hdef. unfold Reflect.AddrInterface. rewrite Hro.
  destruct Hk as [Hk | [Hk | Hk]]; rewrite Hk in *; simpl in *; [done | |].
  - destruct Hdef as [-> | [z ->]]; [done |]. by destruct (String.eqb fallback "").
  - destruct Hdef as [-> | [b ->]]; [done |]. by destruct (String.eqb fallback "").
Qed.

End Unexported.

Section UnexportedField.
Context `{GoRuntime}.

(** The value of an unexported field of an addressable struct is
    read-only. *)
Lemma Field_unexported fields ds i field di :
  fields !! i = Some field -> ds !! i = Some di ->
  IsExported field = false ->
  exists vi,
    Reflect.Field (Reflect.Elem (TPtr (TStruct fields)) (DPtr (Some (DStruct ds)))) i
    = Returned vi
    /\ flagRO vi = true.
Proof.
  intros Hf Hd Hex. unfold Reflect.Field. simpl. rewrite Hf, Hd.
  eexists. split; [done |]. unfold flagRO. simpl. rewrite Hex. simpl.
  by destruct (field_Anonymous field).
Qed.

(** C10, as the code has it.  Let a record have an unexported field of a
    primitive kind with a [conf] tag whose default literal, if the field
    is an integer or a boolean and the literal is not empty, parses.
    When the binding of the fields before it has returned without an
    error, [Load] panics at this field, in [reflect.Value.Interface]. *)
Theorem unexported_tagged_field_panics pre field post ds di opts h c1 h1 :
  let t := TPtr (TStruct (pre ++ field :: post)) in
  let d := DPtr (Some (DStruct ds)) in
  IsExported field = false ->
  field_Tag field <> "" ->
  primitive (rtype_Kind (field_Type field)) ->
  default_parses field ->
  ds !! length pre = Some di ->
  load_fields pre 0%nat (Reflect.Elem t d) (configure opts) h
  = Returned (None, c1, h1) ->
  Load_cfg t d opts h = Panicked Reflect.unexported_msg.
Proof.
  intros t d Hex Htag Hk Hdef Hdi Hpre. unfold Load_cfg. subst t.
  cbv iota beta. rewrite load_fields_app. fold d. rewrite Hpre.
  destruct (Field_unexported (pre ++ field :: post) ds (length pre) field di)
    as (vi & Hvi & Hro); [by apply list_lookup_middle | done | done |].
  simpl. simpl in Hvi. rewrite Hvi. simpl.
  rewrite LoadField_primitive, bind_field_read_only; done.
Qed.

End UnexportedField.

(** ** Required text parameters that stay empty (C2) *)


Section TextWritten.
Context `{GoRuntime}.


Lemma load_string_store_same h l v : load_string (store_string h l v) l = v.
Proof. unfold load_string, store_string. simpl. by rewrite lookup_insert_eq. Qed.


End TextWritten.

Section MissingReported.
Context `{GoRuntime}.
Hypothesis Hrange : range_complete.




End MissingReported.

(** ** Defaults (C3) *)


Lemma env_register_fallbacks p v :
  EnvProvider.fallbacks (env_register p v)
  = match fallback_text v with
    | Some f => <[var_name v := f]> (EnvProvider.fallbacks p)
    | None => EnvProvider.fallbacks p
    end.
Proof.
  destruct v as [to n f r|to n f r|to n f r]; simpl; [| | done].
  - by destruct (String.eqb f "").
  - by destruct (f =? 0).
Qed.


Section Defaults.
Context `{GoRuntime}.
Hypothesis Hrange : range_complete.


End Defaults.

Section TaggedDefault.
Context `{GoRuntime}.
Hypothesis Hrange : range_complete.


End TaggedDefault.

(** * The theorems at work on small configurations *)

Lemma later_source_wins_witness :
  exists P' h2,
    @Load plain_runtime
      (PPriority field1_bindings [field1_env; field1_flag] ["field1"] [])
      empty_mem = Returned (None, P', h2)
    /\ read h2 (String_, 0%nat) = Some (VString "value2").
Proof.
  eexists _, _. split.
  - vm_compute. reflexivity.
  - eapply (@later_source_wins plain_runtime field1_bindings field1_env field1_flag
              ["field1"] [] empty_mem _ _
              (String_, 0%nat) (VString "value1") (VString "value2")).
    + vm_compute. reflexivity.
    + vm_compute. reflexivity.
    + vm_compute. reflexivity.
    + done.
    + vm_compute. reflexivity.
    + vm_compute. reflexivity.
    + done.
Defined.

Lemma int_bool_never_missing_witness :
  (exists err p' h',
      @FlagProvider.Load plain_runtime port_flag empty_mem = (err, p', h')
      /\ "port" ∉ FlagProvider.Missing p')
  /\ (exists err P' h',
      @Load plain_runtime (PPriority port_bindings [PFlag port_flag] ["port"] [])
        empty_mem = Returned (err, P', h')
      /\ "port" ∉ Missing P').
Proof.
  destruct (@int_bool_never_missing plain_runtime plain_runtime_range "port"
              (typ_Int (Some 0%nat))) as [Hflag Hcomposer].
  { left. split; [reflexivity | discriminate]. }
  split.
  - eexists _, _, _. split; [vm_compute; reflexivity |].
    eapply (Hflag port_flag empty_mem).
    + vm_compute. reflexivity.
    + apply not_elem_of_nil.
    + vm_compute. reflexivity.
  - eexists _, _, _. split; [vm_compute; reflexivity |].
    eapply (Hcomposer port_bindings [PFlag port_flag] ["port"] [] empty_mem).
    + vm_compute. reflexivity.
    + apply not_elem_of_nil.
    + vm_compute. reflexivity.
Defined.

Lemma host_env_only n t :
  EnvProvider.m host_env !! n = Some t -> n = "host" /\ t = typ_String (Some 0%nat).
Proof.
  unfold host_env, EnvProvider.StringVar, EnvProvider.bind. simpl.
  intros Hm. apply lookup_insert_Some in Hm as [[<- <-] | [_ Hm]]; [done |].
  by rewrite lookup_empty in Hm.
Qed.

Lemma empty_value_leaves_slot_witness :
  exists p' h',
    @EnvProvider.Load plain_runtime host_env preset_mem = Returned (None, p', h')
    /\ load_string preset_mem 0%nat = load_string h' 0%nat
    /\ "host" ∈ EnvProvider.Missing p'.
Proof.
  eexists _, _. split; [vm_compute; reflexivity |].
  destruct (@empty_value_leaves_slot plain_runtime plain_runtime_range
              host_env preset_mem "host" (typ_String (Some 0%nat)) (String_, 0%nat))
    with (err := @None error)
         (p' := EnvProvider.add_missing host_env "host") (h' := preset_mem)
    as (Hsame & _ & Hrep).
  - vm_compute. reflexivity.
  - reflexivity.
  - intros n t Hm _. by destruct (host_env_only n t Hm).
  - vm_compute. reflexivity.
  - vm_compute. reflexivity.
  - apply not_elem_of_nil.
  - vm_compute. reflexivity.
  - split; [exact Hsame |]. apply Hrep; [done |]. apply list_elem_of_here.
Defined.

Lemma bad_port_env_only n t :
  EnvProvider.m bad_port_env !! n = Some t -> n = "port" /\ t = typ_Int (Some 0%nat).
Proof.
  unfold bad_port_env, EnvProvider.IntVar, EnvProvider.bind. simpl.
  intros Hm. apply lookup_insert_Some in Hm as [[<- <-] | [_ Hm]]; [done |].
  by rewrite lookup_empty in Hm.
Qed.

Lemma coercion_failure_aborts_witness :
  exists e p' h',
    @EnvProvider.Load plain_runtime bad_port_env empty_mem
    = Returned (Some e, p', h')
    /\ GoStrings.has_substring (Error e) "port"
    /\ EnvProvider.Missing p' = [].
Proof.
  destruct (@coercion_failure_aborts plain_runtime plain_runtime_range
              bad_port_env bad_port_env empty_mem "port" (typ_Int (Some 0%nat)))
    as (e & p' & h' & Hload & (pre & n & t & post & cause & _ & _ & _ & _ & Hname & Honly)
        & _).
  - vm_compute. reflexivity.
  - intros n t Hm. destruct (bad_port_env_only n t Hm) as [_ ->]. by eexists.
  - vm_compute. reflexivity.
  - split; [vm_compute; discriminate |]. left. split; [reflexivity |].
    eexists. vm_compute. reflexivity.
  - exists e, p', h'. split; [exact Hload |]. split.
    + rewrite <- Honly; [exact Hname |]. intros n' t' Hm _.
      by destruct (bad_port_env_only n' t' Hm).
    + revert Hload. vm_compute. by intros [= _ <- _].
Defined.



Lemma unexported_tagged_field_panics_witness :
  @Load_cfg plain_runtime (TPtr (TStruct [unexported_port])) Field1_data []
    empty_mem
  = Panicked Reflect.unexported_msg.
Proof.
  apply (@unexported_tagged_field_panics plain_runtime [] unexported_port []
           [DSlot 0%nat] (DSlot 0%nat) [] empty_mem
           (@default_config plain_runtime) empty_mem).
  - reflexivity.
  - discriminate.
  - right. left. reflexivity.
  - right. eexists. vm_compute. reflexivity.
  - reflexivity.
  - reflexivity.
Defined.

Lemma remaining_tokens_after_flags_witness :
  exists flags term rest,
    FlagProvider.args sink_flag = flags ++ term ++ rest
    /\ flag_tokens (Flag.formal (FlagProvider.fs sink_flag)) flags
    /\ parse_stop term rest
    /\ Flag.Args (FlagProvider.fs (@FlagProvider.Load plain_runtime sink_flag empty_mem).1.2)
       = rest
    /\ FlagProvider.remainingCalls
         (@FlagProvider.Load plain_runtime sink_flag empty_mem).1.2
       = FlagProvider.remainingCalls sink_flag ++ [rest].
Proof.
  apply (proj1 (@remaining_tokens_after_flags plain_runtime) sink_flag empty_mem
           (@FlagProvider.Load plain_runtime sink_flag empty_mem).1.2
           (@FlagProvider.Load plain_runtime sink_flag empty_mem).2).
  vm_compute. reflexivity.
Defined.

(** * Further properties of the code *)

Lemma has_byte_cons c x s :
  has_byte c (String x s) = Ascii.eqb c x || has_byte c s.
Proof. reflexivity. Qed.

Lemma has_byte_app c a b : has_byte c (a +:+ b) = has_byte c a || has_byte c b.
Proof.
  induction a as [|x a IH]; [done |].
  by rewrite append_cons, !has_byte_cons, IH, orb_assoc.
Qed.

Lemma byte_eqb_sym a b : GoStrings.byte_eqb a b = Ascii.eqb b a.
Proof. unfold GoStrings.byte_eqb. apply Ascii.eqb_sym. Qed.

Lemma Split_go_no_sep s sep : forall cur,
  has_byte sep s = false -> GoStrings.Split_go s sep cur = [cur +:+ s].
Proof.
  induction s as [|x s IH]; intros cur Hs; simpl.
  - by rewrite append_nil_r.
  - rewrite has_byte_cons in Hs. apply orb_false_iff in Hs as [Hx Hs].
    rewrite byte_eqb_sym, Hx, IH by done. by rewrite append_assoc.
Qed.

Lemma Split_go_app a sep b : forall cur,
  has_byte sep a = false ->
  GoStrings.Split_go (a +:+ String sep b) sep cur
  = (cur +:+ a) :: GoStrings.Split_go b sep "".
Proof.
  induction a as [|x a IH]; intros cur Ha.
  - simpl. rewrite append_nil_r. unfold GoStrings.byte_eqb. by rewrite Ascii.eqb_refl.
  - rewrite has_byte_cons in Ha. apply orb_false_iff in Ha as [Hx Ha].
    rewrite append_cons. simpl. rewrite byte_eqb_sym, Hx, IH by done.
    by rewrite append_assoc.
Qed.

Lemma Split_go_parts s sep : forall cur part,
  has_byte sep cur = false ->
  part ∈ GoStrings.Split_go s sep cur -> has_byte sep part = false.
Proof.
  induction s as [|x s IH]; intros cur part Hcur Hin; simpl in Hin.
  - apply list_elem_of_singleton in Hin. by subst.
  - destruct (GoStrings.byte_eqb x sep) eqn:Hx.
    + apply elem_of_cons in Hin as [-> | Hin]; [done |]. by apply (IH "").
    + apply (IH (cur +:+ String x "")); [| done].
      rewrite has_byte_app, Hcur, has_byte_cons. simpl.
      rewrite byte_eqb_sym in Hx. by rewrite Hx.
Qed.

Lemma Join_cons e e' rest sep :
  GoStrings.Join (e :: e' :: rest) sep = e +:+ sep +:+ GoStrings.Join (e' :: rest) sep.
Proof. reflexivity. Qed.

Lemma Split_go_nonempty s sep cur : GoStrings.Split_go s sep cur <> [].
Proof.
  revert cur. induction s as [|x s IH]; intros cur; simpl; [done |].
  destruct (GoStrings.byte_eqb x sep); [done | apply IH].
Qed.

Lemma Join_Split_go s sep : forall cur,
  GoStrings.Join (GoStrings.Split_go s sep cur) (String sep "") = cur +:+ s.
Proof.
  induction s as [|x s IH]; intros cur; simpl.
  - by rewrite append_nil_r.
  - destruct (GoStrings.byte_eqb x sep) eqn:Hx.
    + apply Ascii.eqb_eq in Hx. subst x.
      specialize (IH "").
      destruct (GoStrings.Split_go s sep "") as [|e rest] eqn:Hs.
      { by apply Split_go_nonempty in Hs. }
      rewrite Join_cons, IH. done.
    + rewrite IH. by rewrite append_assoc.
Qed.

Lemma has_byte_drop c n : forall s,
  has_byte c s = false -> has_byte c (GoStrings.drop n s) = false.
Proof.
  induction n as [|n IH]; intros [|x s] Hs; simpl; try done.
  rewrite has_byte_cons in Hs. apply orb_false_iff in Hs as [_ Hs]. by apply IH.
Qed.

Lemma has_byte_TrimPrefix c s prefix :
  has_byte c s = false -> has_byte c (GoStrings.TrimPrefix s prefix) = false.
Proof.
  intros Hs. unfold GoStrings.TrimPrefix.
  destruct (GoStrings.HasPrefix s prefix); [by apply has_byte_drop | done].
Qed.

Lemma Split_Join sep parts :
  parts <> [] ->
  Forall (fun part => has_byte sep part = false) parts ->
  GoStrings.Split (GoStrings.Join parts (String sep "")) sep = parts.
Proof.
  unfold GoStrings.Split.
  induction parts as [|e rest IH]; intros Hne Hall; [done |].
  apply Forall_cons in Hall as [He Hrest].
  destruct rest as [|e' rest'].
  - simpl. by rewrite Split_go_no_sep.
  - rewrite Join_cons.
    change (String sep "" +:+ GoStrings.Join (e' :: rest') (String sep ""))
      with (String sep (GoStrings.Join (e' :: rest') (String sep ""))).
    rewrite Split_go_app by done. by rewrite IH.
Qed.

(** The default that the loop of [parseTag] leaves. *)
Lemma fold_default_none opts : forall acc,
  Forall (fun o => GoStrings.HasPrefix o "default=" = false) opts ->
  fold_left
    (fun fallback part =>
       if GoStrings.HasPrefix part "default="
       then GoStrings.TrimPrefix part "default=" else fallback) opts acc = acc.
Proof.
  induction opts as [|o opts IH]; intros acc Hall; [done |].
  apply Forall_cons in Hall as [Ho Hall]. simpl. rewrite Ho. by apply IH.
Qed.

Lemma fold_default_no_comma opts : forall acc,
  has_byte "," acc = false ->
  (forall part, part ∈ opts -> has_byte "," part = false) ->
  has_byte ","
    (fold_left
       (fun fallback part =>
          if GoStrings.HasPrefix part "default="
          then GoStrings.TrimPrefix part "default=" else fallback) opts acc)
  = false.
Proof.
  induction opts as [|o opts IH]; intros acc Hacc Hopts; [done |]. simpl.
  apply IH.
  - destruct (GoStrings.HasPrefix o "default="); [| done].
    apply has_byte_TrimPrefix, Hopts. left.
  - intros part Hin. apply Hopts. by right.
Qed.

(** X2.  The name and the default that [parseTag] returns hold no comma:
    a default cannot contain one. *)
Theorem parseTag_no_comma tag :
  has_byte "," (parseTag tag).1.1 = false /\ has_byte "," (parseTag tag).2 = false.
Proof.
  unfold parseTag. simpl.
  assert (Hparts : forall part, part ∈ GoStrings.Split tag "," ->
                                has_byte "," part = false).
  { intros part Hin. by apply (Split_go_parts tag "," "" part). }
  destruct (GoStrings.Split tag ",") as [|name opts]; [done |].
  split; [apply Hparts; left |]. simpl.
  apply fold_default_no_comma; [done |].
  intros part Hin. apply Hparts. by right.
Qed.

Lemma HasPrefix_app p d : GoStrings.HasPrefix (p +:+ d) p = true.
Proof.
  induction p as [|c p IH]; [by destruct d |].
  rewrite append_cons. simpl. unfold GoStrings.byte_eqb.
  by rewrite Ascii.eqb_refl, IH.
Qed.

Lemma drop_app p d : GoStrings.drop (String.length p) (p +:+ d) = d.
Proof. induction p as [|c p IH]; [done |]. by rewrite append_cons. Qed.

Lemma default_prefix d : GoStrings.HasPrefix ("default=" +:+ d) "default=" = true.
Proof. apply HasPrefix_app. Qed.

Lemma default_trimmed d : GoStrings.TrimPrefix ("default=" +:+ d) "default=" = d.
Proof. unfold GoStrings.TrimPrefix. by rewrite HasPrefix_app, drop_app. Qed.

(** X1.  A tag is read as its parts between commas: the first is the name,
    [required] anywhere among them (the name included) makes the
    parameter required, and the last part that begins with [default=]
    gives the default. *)
Theorem parseTag_reads_options name opts :
  Forall (fun part => has_byte "," part = false) (name :: opts) ->
  let tag := GoStrings.Join (name :: opts) "," in
  (parseTag tag).1.1 = name
  /\ ((parseTag tag).1.2 = true <-> "required" ∈ name :: opts)
  /\ (Forall (fun o => GoStrings.HasPrefix o "default=" = false) opts ->
      (parseTag tag).2 = "")
  /\ (forall pre d post,
        opts = pre ++ ("default=" +:+ d) :: post ->
        Forall (fun o => GoStrings.HasPrefix o "default=" = false) post ->
        (parseTag tag).2 = d).
Proof.
  intros Hall tag. unfold parseTag, tag.
  rewrite (Split_Join "," (name :: opts)) by done. cbn [fst snd hd tl].
  split; [done |]. split; [apply Contains_In |]. split.
  - apply fold_default_none.
  - intros pre d post -> Hpost. rewrite fold_left_app. cbn [fold_left].
    rewrite default_prefix, default_trimmed. by apply fold_default_none.
Qed.

Lemma Split_go_two s sep : forall cur,
  has_byte sep s = true ->
  exists a b rest, GoStrings.Split_go s sep cur = a :: b :: rest.
Proof.
  induction s as [|x s IH]; intros cur Hs; [done |].
  rewrite has_byte_cons in Hs. simpl. rewrite byte_eqb_sym.
  destruct (Ascii.eqb sep x) eqn:Hx.
  - destruct (GoStrings.Split_go s sep "") as [|b rest] eqn:Hsp.
    + by apply Split_go_nonempty in Hsp.
    + by exists cur, b, rest.
  - simpl in Hs. by apply IH.
Qed.

Lemma HasPrefix_hash k rest :
  GoStrings.HasPrefix (k +:+ String "=" rest) "#" = GoStrings.HasPrefix k "#".
Proof. destruct k as [|c k]; [done |]. rewrite append_cons. simpl.
  by destruct (k +:+ String "=" rest), k. Qed.

Lemma eqb_app_nonempty k rest : String.eqb (k +:+ String "=" rest) "" = false.
Proof. by destruct k. Qed.

(** How a line with a separator is read. *)
Lemma parse_line_pair line lineNr m k v :
  GoStrings.TrimSpace line = k +:+ "=" +:+ v ->
  has_byte "=" k = false ->
  GoStrings.HasPrefix k "#" = false ->
  Dotenv.parse_line line lineNr m
  = inl (Some (<[GoStrings.TrimSpace k :=
                   if has_byte "=" v then v else GoStrings.TrimSpace v]> m)).
Proof.
  intros Hline Hk Hhash. unfold Dotenv.parse_line. rewrite Hline.
  change ("=" +:+ v) with (String "=" v).
  rewrite HasPrefix_hash, Hhash, eqb_app_nonempty.
  unfold GoStrings.Split. rewrite Split_go_app by done.
  change ("" +:+ k) with k.
  destruct (has_byte "=" v) eqn:Hv.
  - destruct (Split_go_two v "=" "" Hv) as (a & b & rest & Hsp).
    rewrite Hsp, <- Hsp.
    by rewrite (Join_Split_go v "=" "").
  - by rewrite Split_go_no_sep.
Qed.

(** How a line without a separator is read. *)
Lemma parse_line_malformed line lineNr m :
  skipped line = false ->
  has_byte "=" (GoStrings.TrimSpace line) = false ->
  Dotenv.parse_line line lineNr m
  = inr (errorString ("malformed line " +:+ Strconv.FormatInt lineNr +:+ ": "
                      +:+ GoStrings.TrimSpace line)).
Proof.
  intros Hs Heq. unfold skipped in Hs. apply orb_false_iff in Hs as [Hh He].
  unfold Dotenv.parse_line. rewrite Hh, He.
  unfold GoStrings.Split. by rewrite Split_go_no_sep.
Qed.

Lemma parse_line_skipped line lineNr m :
  skipped line = true -> Dotenv.parse_line line lineNr m = inl None.
Proof.
  unfold skipped, Dotenv.parse_line. intros Hs.
  destruct (GoStrings.HasPrefix _ "#"); [done |]. simpl in Hs. by rewrite Hs.
Qed.

(** Whether and how a line is read does not depend on its number. *)
Lemma parse_line_lineNr line n n' m x :
  Dotenv.parse_line line n m = inl x -> Dotenv.parse_line line n' m = inl x.
Proof.
  unfold Dotenv.parse_line.
  destruct (GoStrings.HasPrefix _ "#"); [done |].
  destruct (String.eqb _ ""); [done |].
  by destruct (GoStrings.Split _ "=") as [|? [|? [|? ?]]].
Qed.

Lemma scan_lineNr lines : forall n n' m r,
  (Dotenv.scan lines n m).1 = inl r -> (Dotenv.scan lines n' m).1 = inl r.
Proof.
  induction lines as [|line rest IH]; intros n n' m r; cbn [Dotenv.scan]; [done |].
  destruct (Dotenv.too_long line); [done |].
  destruct (Dotenv.parse_line (Dotenv.dropCR line) (n + 1) m) as [x|e] eqn:Hp;
    [| done].
  rewrite (parse_line_lineNr _ _ (n' + 1) _ _ Hp).
  destruct x; apply IH.
Qed.

(** A scan without an error has delivered every line, or has stopped at
    a line that is too long, which it leaves with the lines after it. *)
Lemma scan_stops lines : forall n m r rest,
  Dotenv.scan lines n m = (inl r, rest) ->
  rest = []
  \/ exists pre line tl,
      lines = pre ++ line :: tl /\ rest = line :: tl
      /\ Dotenv.too_long line = true.
Proof.
  induction lines as [|line lines IH]; intros n m r rest; cbn [Dotenv.scan].
  - intros [= _ <-]. by left.
  - destruct (Dotenv.too_long line) eqn:Hlong.
    { intros [= _ <-]. right. by exists [], line, lines. }
    assert (Hgo : forall m', Dotenv.scan lines (n + 1) m' = (inl r, rest) ->
              rest = []
              \/ exists pre line0 tl,
                  line :: lines = pre ++ line0 :: tl /\ rest = line0 :: tl
                  /\ Dotenv.too_long line0 = true).
    { intros m' Hs. destruct (IH _ _ _ _ Hs) as [-> | (pre & l0 & tl & -> & -> & Hl)];
        [by left | right]. by exists (line :: pre), l0, tl. }
    destruct (Dotenv.parse_line _ (n + 1) m) as [[m'|]|e]; [apply Hgo | apply Hgo | done].
Qed.

Lemma scan_to_end lines n m r rest :
  Forall (fun line => Dotenv.too_long line = false) lines ->
  Dotenv.scan lines n m = (inl r, rest) -> rest = [].
Proof.
  intros Hall Hs.
  destruct (scan_stops _ _ _ _ _ Hs) as [-> | (pre & line & tl & -> & _ & Hlong)];
    [done |].
  rewrite Forall_app, Forall_cons in Hall. destruct Hall as (_ & Hl & _). congruence.
Qed.

Lemma scan_app pre post : forall n m,
  Dotenv.scan (pre ++ post) n m
  = match Dotenv.scan pre n m with
    | (inl m1, []) => Dotenv.scan post (n + Z.of_nat (length pre)) m1
    | (res, rest) => (res, rest ++ post)
    end.
Proof.
  induction pre as [|line pre IH]; intros n m.
  - simpl. by rewrite Z.add_0_r.
  - cbn [app Dotenv.scan length].
    replace (n + Z.of_nat (S (length pre))) with (n + 1 + Z.of_nat (length pre)) by lia.
    destruct (Dotenv.too_long line); [done |].
    destruct (Dotenv.parse_line _ (n + 1) m) as [[m'|]|e]; [apply IH | apply IH | done].
Qed.

Lemma ParseReader_scan lines c cr :
  Dotenv.ParseReader (MkReadCloser lines c cr)
  = ((Dotenv.scan lines 0 ∅).1, MkReadCloser (Dotenv.scan lines 0 ∅).2 c cr).
Proof. unfold Dotenv.ParseReader. simpl. by destruct (Dotenv.scan lines 0 ∅). Qed.

(** The lines have been delivered to the last one, without an error. *)
Lemma scan_delivered pre c cr m1 :
  Dotenv.ParseReader (MkReadCloser pre c cr) = (inl m1, MkReadCloser [] c cr) ->
  Dotenv.scan pre 0 ∅ = (inl m1, []).
Proof.
  rewrite ParseReader_scan. destruct (Dotenv.scan pre 0 ∅) as [res rest].
  simpl. by intros [= -> ->].
Qed.

(** X3.  Let a stream be delivered to its end without an error.  A raw
    line [key=value] of less than 64 KiB added at its end defines or
    redefines its key and leaves the other keys as they were.  The key
    is trimmed; the value is trimmed when it holds no [=], and is
    otherwise everything after the first [=] of the trimmed line, as it
    is. *)
Theorem ParseReader_last_line_wins pre line k v m1 c cr :
  Dotenv.ParseReader (MkReadCloser pre c cr) = (inl m1, MkReadCloser [] c cr) ->
  Dotenv.too_long line = false ->
  GoStrings.TrimSpace (Dotenv.dropCR line) = k +:+ "=" +:+ v ->
  has_byte "=" k = false ->
  GoStrings.HasPrefix k "#" = false ->
  Dotenv.ParseReader (MkReadCloser (pre ++ [line]) c cr)
  = (inl (<[GoStrings.TrimSpace k :=
              if has_byte "=" v then v else GoStrings.TrimSpace v]> m1),
     MkReadCloser [] c cr).
Proof.
  intros Hpre Hfits Hline Hk Hhash. apply scan_delivered in Hpre.
  rewrite ParseReader_scan, scan_app, Hpre. cbn [Dotenv.scan]. rewrite Hfits.
  by rewrite (parse_line_pair _ _ m1 k v Hline Hk Hhash).
Qed.

(** X4.  Let the lines before it be delivered without an error.  A raw
    line of less than 64 KiB that is neither blank nor a comment and
    holds no [=] makes [ParseReader] fail.  The message gives the number
    of the line, blank lines and comments counted, and the trimmed line;
    the lines after it are left undelivered. *)
Theorem ParseReader_malformed_line pre line post m1 c cr :
  Dotenv.ParseReader (MkReadCloser pre c cr) = (inl m1, MkReadCloser [] c cr) ->
  Dotenv.too_long line = false ->
  skipped (Dotenv.dropCR line) = false ->
  has_byte "=" (GoStrings.TrimSpace (Dotenv.dropCR line)) = false ->
  Dotenv.ParseReader (MkReadCloser (pre ++ line :: post) c cr)
  = (inr (errorString
            ("malformed line " +:+ Strconv.FormatInt (Z.of_nat (length pre) + 1)
             +:+ ": " +:+ GoStrings.TrimSpace (Dotenv.dropCR line))),
     MkReadCloser post c cr).
Proof.
  intros Hpre Hfits Hs Heq. apply scan_delivered in Hpre.
  rewrite ParseReader_scan, scan_app, Hpre. cbn [Dotenv.scan]. rewrite Hfits.
  by rewrite (parse_line_malformed _ _ m1 Hs Heq).
Qed.

(** X5.  A blank line or a comment of less than 64 KiB does not change
    what a stream defines. *)
Theorem ParseReader_skips_comments pre line post c cr r :
  Dotenv.too_long line = false ->
  skipped (Dotenv.dropCR line) = true ->
  (Dotenv.ParseReader (MkReadCloser (pre ++ line :: post) c cr)).1 = inl r
  <-> (Dotenv.ParseReader (MkReadCloser (pre ++ post) c cr)).1 = inl r.
Proof.
  intros Hfits Hs. rewrite !ParseReader_scan. cbn [fst]. rewrite !scan_app.
  destruct (Dotenv.scan pre 0 ∅) as [[m1|e] [|l rest]]; cbn [fst]; try done.
  cbn [Dotenv.scan]. rewrite Hfits, (parse_line_skipped _ _ m1 Hs).
  split; apply scan_lineNr.
Qed.

(** X28.  A raw line of 64 KiB or more ends the parsing in silence: the
    scanner gives up, its error is never looked at, and [ParseReader]
    returns what the lines before it define, without an error; that
    line and the lines after it are never delivered, whatever they
    hold. *)
Theorem ParseReader_stops_at_long_line pre line post m1 c cr :
  Dotenv.ParseReader (MkReadCloser pre c cr) = (inl m1, MkReadCloser [] c cr) ->
  Dotenv.too_long line = true ->
  Dotenv.ParseReader (MkReadCloser (pre ++ line :: post) c cr)
  = (inl m1, MkReadCloser (line :: post) c cr).
Proof.
  intros Hpre Hlong. apply scan_delivered in Hpre.
  rewrite ParseReader_scan, scan_app, Hpre. cbn [Dotenv.scan]. by rewrite Hlong.
Qed.

Section EnvLoad.
Context `{GoRuntime}.
Hypothesis Hrange : range_complete.

(** A [Load] without an error has run the loop to its end. *)
Lemma Load_resolved p h p' h' :
  EnvProvider.Load p h = Returned (None, p', h') ->
  exists p1,
    EnvProvider.prepare p = (None, p1)
    /\ EnvProvider.resolve p1 (range_order (EnvProvider.m p)) h
       = Returned (None, p', h').
Proof.
  unfold EnvProvider.Load.
  destruct (EnvProvider.prepare p) as [[e|] p1] eqn:Hprep; [done |].
  destruct (prepare_bindings _ _ _ Hprep) as (Hm1 & _).
  rewrite Hm1. intros Hres. by exists p1.
Qed.

(** X6.  When [Load] succeeds, a parameter with a non-empty raw value
    (the lookup, or the fallback when the lookup is empty) has that
    value, coerced into its kind, in its slot, provided the slot is
    registered under no other name. *)
Theorem env_load_assigns p h p' h' name to s :
  EnvProvider.Load p h = Returned (None, p', h') ->
  EnvProvider.m p !! name = Some to ->
  dest to = Some s ->
  (forall n t, EnvProvider.m p !! n = Some t -> dest t = Some s -> n = name) ->
  EnvProvider.rawVal (EnvProvider.prepare p).2 name <> "" ->
  exists v,
    coerce (kind to) (EnvProvider.rawVal (EnvProvider.prepare p).2 name) = Some v
    /\ read h' s = Some v.
Proof.
  intros Hload Hm Hd Honly Hraw.
  destruct (Load_resolved _ _ _ _ Hload) as (p1 & Hprep & Hres).
  rewrite Hprep in *. simpl in *.
  assert (Hread : read h' s = coerce (kind to) (EnvProvider.rawVal p1 name)).
  { apply (resolve_assigns _ name to s _ _ _ _ Hres).
    - apply (NoDup_range Hrange).
    - by apply (elem_of_range Hrange).
    - done.
    - done.
    - intros n t Hnt. apply (elem_of_range Hrange) in Hnt. by apply Honly. }
  rewrite <- Hread. destruct s as [k l].
  unfold dest in Hd. destruct (kind to); simplify_option_eq; by eexists.
Qed.

(** X7.  After a successful [Load] the missing list has grown by exactly
    the registered names that are required and whose raw value is
    empty. *)
Theorem env_missing_exact p h p' h' :
  EnvProvider.Load p h = Returned (None, p', h') ->
  exists added,
    EnvProvider.Missing p' = EnvProvider.Missing p ++ added
    /\ forall n,
        n ∈ added
        <-> is_Some (EnvProvider.m p !! n)
            /\ n ∈ EnvProvider.required p
            /\ EnvProvider.rawVal (EnvProvider.prepare p).2 n = "".
Proof.
  intros Hload.
  destruct (Load_resolved _ _ _ _ Hload) as (p1 & Hprep & Hres).
  destruct (prepare_bindings _ _ _ Hprep) as (_ & _ & Hr1 & Hmiss1).
  rewrite Hprep. simpl.
  apply resolve_missing in Hres as (_ & added & Hadd & Hadded & Hall).
  exists added. unfold EnvProvider.Missing. rewrite Hadd, Hmiss1.
  split; [done |]. intros n. split.
  - intros Hin. destruct (Hadded n Hin) as (Hdom & Hraw & Hreq).
    apply list_elem_of_fmap in Hdom as ([n' t] & -> & Hnt).
    apply (elem_of_range Hrange) in Hnt. rewrite <- Hr1. by split; [eexists |].
  - intros ([t Ht] & Hreq & Hraw). apply Hall; [done | | done | by rewrite Hr1].
    apply list_elem_of_fmap. exists (n, t). split; [done |].
    by apply (elem_of_range Hrange).
Qed.

End EnvLoad.

Lemma ParseBool_nonempty `{GoRuntime} raw b : Strconv.ParseBool raw = inl b -> raw <> "".
Proof. by intros Hp ->. Qed.

Section EnvBool.
Context `{GoRuntime}.
Hypothesis Hrange : range_complete.

(** X8.  The Environment Source records a fallback for every boolean
    registration, [false] included.  So a boolean parameter is never
    reported missing by it, required or not, and a successful [Load]
    always writes its slot: the value of the lookup, or the fallback
    when the lookup is empty. *)
Theorem env_bool_always_assigned p l name fallback req h p' h' :
  let p1 := EnvProvider.BoolVar p (Some l) name fallback req in
  let raw := EnvProvider.getenv (EnvProvider.prepare p1).2
               (EnvProvider.uppersnake name) in
  (forall n t, EnvProvider.m p !! n = Some t -> n <> name ->
               dest t <> Some (Bool_, l)) ->
  name ∉ EnvProvider.Missing p ->
  EnvProvider.Load p1 h = Returned (None, p', h') ->
  (name ∉ EnvProvider.Missing p')
  /\ (raw = "" -> load_bool h' l = fallback)
  /\ (raw <> "" -> Strconv.ParseBool raw = inl (load_bool h' l)).
Proof.
  intros p1 raw Hother Hmiss Hload.
  destruct (Load_resolved _ _ _ _ Hload) as (p2 & Hprep & Hres).
  destruct (prepare_bindings _ _ _ Hprep) as (Hm2 & Hf2 & _ & Hmiss2).
  subst raw. rewrite Hprep. simpl.
  set (raw := EnvProvider.getenv p2 (EnvProvider.uppersnake name)).
  set (text := if fallback then "true" else "false").
  assert (Hraw : EnvProvider.rawVal p2 name = if String.eqb raw "" then text else raw).
  { unfold EnvProvider.rawVal. fold raw. rewrite Hf2. simpl.
    by rewrite lookup_insert_eq. }
  assert (Hne : EnvProvider.rawVal p2 name <> "").
  { rewrite Hraw. destruct (String.eqb_spec raw ""); [by destruct fallback | done]. }
  assert (Hread : read h' (Bool_, l)
                  = coerce Bool_ (EnvProvider.rawVal p2 name)).
  { apply (resolve_assigns _ name (typ_Bool (Some l)) (Bool_, l) _ _ _ _ Hres).
    - apply (NoDup_range Hrange).
    - apply (elem_of_range Hrange). simpl. apply lookup_insert_eq.
    - done.
    - done.
    - intros n t Hnt Hdt. apply (elem_of_range Hrange) in Hnt. simpl in Hnt.
      destruct (decide (n = name)) as [| Hn]; [done |].
      rewrite lookup_insert_ne in Hnt; [| done]. by destruct (Hother n t Hnt Hn). }
  split; [| split].
  - apply resolve_missing in Hres as (_ & added & Hadd & Hadded & _).
    unfold EnvProvider.Missing. rewrite Hadd, Hmiss2. intros Hin.
    apply elem_of_app in Hin as [Hin | Hin]; [done |].
    by apply Hadded in Hin as (_ & Hempty & _).
  - intros He. rewrite Hraw, He in Hread. simpl in Hread.
    unfold text in Hread. destruct fallback; simpl in Hread; congruence.
  - intros Hn. rewrite Hraw in Hread.
    destruct (String.eqb_spec raw ""); [done |].
    simpl in Hread. destruct (Strconv.ParseBool raw); [congruence | done].
Qed.

End EnvBool.

Section Overlay.
Context `{GoRuntime}.
Hypothesis Hrange : range_complete.

(** X9.  A key that the dotenv stream defines shadows the process
    environment, also when the stream gives it the empty value: the raw
    value of the parameter is then its fallback.  When the value is not
    empty and [Load] succeeds, it is what the slot holds, coerced. *)
Theorem dotenv_shadows_environment p r dotenvs r' name v :
  EnvProvider.withDotEnv p = true ->
  EnvProvider.dotEnvReader p = Some r ->
  Dotenv.ParseReader r = (inl dotenvs, r') ->
  close_result r = None ->
  dotenvs !! EnvProvider.uppersnake name = Some v ->
  EnvProvider.rawVal (EnvProvider.prepare p).2 name
  = (if String.eqb v "" then default "" (EnvProvider.fallbacks p !! name) else v)
  /\ forall h p' h' to s,
      EnvProvider.Load p h = Returned (None, p', h') ->
      EnvProvider.m p !! name = Some to ->
      dest to = Some s ->
      (forall n t, EnvProvider.m p !! n = Some t -> dest t = Some s -> n = name) ->
      v <> "" ->
      read h' s = coerce (kind to) v.
Proof.
  intros Hwith Hr Hparse Hclose Hv.
  assert (Hprep : exists p1,
             EnvProvider.prepare p = (None, p1)
             /\ EnvProvider.getenv p1
                = EnvProvider.overlay dotenvs (EnvProvider.getenv p)
             /\ EnvProvider.fallbacks p1 = EnvProvider.fallbacks p).
  { unfold EnvProvider.prepare, EnvProvider.AddDotEnv.
    rewrite Hwith, Hr, Hparse.
    assert (Hc : close_result r' = None).
    { unfold Dotenv.ParseReader in Hparse.
      destruct (Dotenv.scan (unread r) 0 ∅). by injection Hparse as _ <-. }
    rewrite Hc. by eexists. }
  destruct Hprep as (p1 & Hprep & Hget & Hf).
  assert (Hraw : EnvProvider.rawVal p1 name
                 = if String.eqb v "" then default "" (EnvProvider.fallbacks p !! name)
                   else v).
  { unfold EnvProvider.rawVal. rewrite Hget, Hf. unfold EnvProvider.overlay.
    rewrite Hv. destruct (String.eqb_spec v "") as [-> |]; [| done].
    by destruct (EnvProvider.fallbacks p !! name). }
  rewrite Hprep. simpl. split; [done |].
  intros h p' h' to s Hload Hm Hd Honly Hne.
  destruct (Load_resolved _ _ _ _ Hload) as (p2 & Hprep2 & Hres).
  rewrite Hprep in Hprep2. injection Hprep2 as <-.
  assert (Hv' : EnvProvider.rawVal p1 name = v).
  { rewrite Hraw. by destruct (String.eqb_spec v ""). }
  rewrite <- Hv'.
  apply (resolve_assigns _ name to s _ _ _ _ Hres).
  - apply (NoDup_range Hrange).
  - by apply (elem_of_range Hrange).
  - done.
  - by rewrite Hv'.
  - intros n t Hnt. apply (elem_of_range Hrange) in Hnt. by apply Honly.
Qed.

End Overlay.

Section DotenvFile.
Context `{GoRuntime}.

(** X10.  With the overlay enabled and no stream given, a [.env] file that
    cannot be opened makes [Load] fail before anything is resolved: the
    process environment alone is not used. *)
Theorem dotenv_file_required p h err :
  EnvProvider.withDotEnv p = true ->
  EnvProvider.dotEnvReader p = None ->
  os_Open_dotenv = inr err ->
  exists e,
    EnvProvider.Load p h = Returned (Some e, p, h)
    /\ Error e
       = "failed to add .env file: failed to parse .env file: failed to open file: "
         +:+ Error err.
Proof.
  intros Hwith Hr Hopen.
  unfold EnvProvider.Load, EnvProvider.prepare, EnvProvider.AddDotEnv, Dotenv.Parse.
  rewrite Hwith, Hr, Hopen. eexists. split; [reflexivity |].
  unfold Errorf_w. simpl. reflexivity.
Qed.

(** X11.  When the content of the stream parses, [Load] has closed the
    stream, however it returns, and has left it where the parser
    stopped: at its end, or at the first raw line of 64 KiB or more,
    which it never delivers.  A stream without such a line has been read
    to its end. *)
Theorem stream_read_and_closed p r dotenvs r' h err p' h' :
  EnvProvider.withDotEnv p = true ->
  EnvProvider.dotEnvReader p = Some r ->
  Dotenv.ParseReader r = (inl dotenvs, r') ->
  EnvProvider.Load p h = Returned (err, p', h') ->
  EnvProvider.dotEnvReader p' = Some (MkReadCloser (unread r') true (close_result r))
  /\ (unread r' = []
      \/ exists pre line tl,
          unread r = pre ++ line :: tl /\ unread r' = line :: tl
          /\ Dotenv.too_long line = true)
  /\ (Forall (fun line => Dotenv.too_long line = false) (unread r) ->
      unread r' = []).
Proof.
  intros Hwith Hr Hparse. unfold EnvProvider.Load.
  unfold Dotenv.ParseReader in Hparse.
  destruct (Dotenv.scan (unread r) 0 ∅) as [res rest] eqn:Hscan.
  injection Hparse as -> <-. cbn [unread].
  assert (Hprep : EnvProvider.dotEnvReader (EnvProvider.prepare p).2
                  = Some (MkReadCloser rest true (close_result r))).
  { unfold EnvProvider.prepare, EnvProvider.AddDotEnv, Dotenv.ParseReader.
    rewrite Hwith, Hr, Hscan. simpl. by destruct (close_result r). }
  intros Hload. split; [| split].
  - destruct (EnvProvider.prepare p) as [[e|] p1]; simpl in Hprep.
    + by injection Hload as _ <- _.
    + apply resolve_missing in Hload as ((_ & -> & _) & _). done.
  - by apply (scan_stops _ _ _ _ _ Hscan).
  - intros Hall. by apply (scan_to_end _ _ _ _ _ Hall Hscan).
Qed.

End DotenvFile.

(** X13.  The two spellings of a name, with [-] and with [_], are looked up
    under the same environment variable: the normalisation of the
    Argument Source does not change the variable of the Environment
    Source. *)
Theorem uppersnake_normalizeName name :
  EnvProvider.uppersnake (FlagProvider.normalizeName name)
  = EnvProvider.uppersnake name.
Proof.
  unfold EnvProvider.uppersnake, FlagProvider.normalizeName.
  induction name as [|c name IH]; [done |]. simpl. rewrite IH. f_equal.
  unfold GoStrings.byte_eqb.
  destruct (Ascii.eqb_spec c "_") as [-> |]; [done |].
  by destruct (Ascii.eqb_spec c "-") as [-> |].
Qed.

Section EnvReturns.
Context `{GoRuntime}.
Hypothesis Hrange : range_complete.

(** The loop returns when every destination is sound; its error, if
    any, is that of a value that does not coerce. *)
Lemma resolve_returns entries : forall p h,
  (forall n t, (n, t) ∈ entries -> is_Some (dest t)) ->
  exists err p' h',
    EnvProvider.resolve p entries h = Returned (err, p', h')
    /\ (err = None
        \/ exists n t cause, (n, t) ∈ entries /\ err = Some (coercion_error n t cause)).
Proof.
  induction entries as [|[n0 t0] rest IH]; intros p h Hwf.
  { exists None, p, h. by split; [| left]. }
  assert (Hrest : forall q h1, exists err p' h',
             EnvProvider.resolve q rest h1 = Returned (err, p', h')
             /\ (err = None
                 \/ exists n t cause,
                     (n, t) ∈ (n0, t0) :: rest
                     /\ err = Some (coercion_error n t cause))).
  { intros q h1. destruct (IH q h1) as (err & p' & h' & Hres & Herr).
    { intros n t Hin. apply (Hwf n t). by right. }
    exists err, p', h'. split; [done |].
    destruct Herr as [-> | (n & t & cause & Hin & ->)]; [by left | right].
    exists n, t, cause. split; [by right | done]. }
  destruct (Hwf n0 t0) as [[k l] Hd]; [left |].
  simpl. destruct (String.eqb (EnvProvider.rawVal p n0) ""); [apply Hrest |].
  unfold dest in Hd.
  destruct (kind t0) eqn:Hk; simplify_option_eq; try apply Hrest.
  - destruct (Strconv.ParseBool _) as [b|e]; [apply Hrest |].
    eexists _, _, _. split; [done |]. right. exists n0, t0, e.
    split; [left |]. unfold coercion_error. by rewrite Hk.
  - destruct (Strconv.Atoi _) as [z|e]; [apply Hrest |].
    eexists _, _, _. split; [done |]. right. exists n0, t0, e.
    split; [left |]. unfold coercion_error. by rewrite Hk.
Qed.

Lemma well_bound_register m v :
  well_bound m -> is_Some (dest (var_typ v)) ->
  well_bound (<[var_name v := var_typ v]> m).
Proof.
  intros Hm Hv n t Hnt.
  destruct (decide (n = var_name v)) as [-> | Hn].
  - rewrite lookup_insert_eq in Hnt. by injection Hnt as <-.
  - rewrite lookup_insert_ne in Hnt by done. by apply (Hm n t).
Qed.

Lemma well_bound_registrations vs : forall p,
  well_bound (EnvProvider.m p) ->
  Forall (fun v => is_Some (dest (var_typ v))) vs ->
  well_bound (EnvProvider.m (fold_left env_register vs p)).
Proof.
  induction vs as [|v vs IH]; intros p Hp Hvs; [done |].
  apply Forall_cons in Hvs as [Hv Hvs]. simpl. apply IH; [| done].
  rewrite env_register_m. by apply well_bound_register.
Qed.

(** X12.  An Environment Source that has only seen registrations with
    pointers that are not nil never panics in [Load]: it returns, and
    its error, if any, is that of the overlay or that of a value that
    does not coerce, never that of an unsupported kind. *)
Theorem env_load_returns (p0 : EnvProvider.t) (vs : list Var) (h : mem) :
  well_bound (EnvProvider.m p0) ->
  Forall (fun v => is_Some (dest (var_typ v))) vs ->
  let p := fold_left env_register vs p0 in
  exists err p' h',
    EnvProvider.Load p h = Returned (err, p', h')
    /\ (err = None
        \/ (exists e, err = Some (Errorf_w "failed to add .env file: " e))
        \/ (exists n t cause,
               EnvProvider.m p !! n = Some t
               /\ err = Some (coercion_error n t cause))).
Proof.
  intros Hp0 Hvs p.
  assert (Hwb : well_bound (EnvProvider.m p)) by by apply well_bound_registrations.
  unfold EnvProvider.Load.
  destruct (EnvProvider.prepare p) as [[e|] p1] eqn:Hprep.
  { eexists _, _, _. split; [done |]. right. left. by eexists. }
  destruct (prepare_bindings _ _ _ Hprep) as (Hm1 & _). rewrite Hm1.
  destruct (resolve_returns (range_order (EnvProvider.m p)) p1 h)
    as (err & p' & h' & Hres & Herr).
  { intros n t Hnt. apply (elem_of_range Hrange) in Hnt. by apply (Hwb n t). }
  exists err, p', h'. split; [done |].
  destruct Herr as [-> | (n & t & cause & Hin & ->)]; [by left |].
  right. right. exists n, t, cause. split; [| done].
  by apply (elem_of_range Hrange).
Qed.

End EnvReturns.

Lemma cut_value_none s : has_byte "=" s = false -> Flag.cut_value s = (s, None).
Proof.
  induction s as [|c s IH]; intros Hs; [done |].
  rewrite has_byte_cons in Hs. apply orb_false_iff in Hs as [Hc Hs].
  simpl. rewrite Ascii.eqb_sym, Hc, IH by done. done.
Qed.

Lemma cut_value_some a v :
  has_byte "=" a = false -> Flag.cut_value (a +:+ String "=" v) = (a, Some v).
Proof.
  induction a as [|c a IH]; intros Ha; [done |].
  rewrite has_byte_cons in Ha. apply orb_false_iff in Ha as [Hc Ha].
  rewrite append_cons. simpl. rewrite Ascii.eqb_sym, Hc, IH by done. done.
Qed.

(** How [parseOne] reads the token of a flag. *)
Lemma token_shape dashes nm value :
  flag_name nm -> dashes_ok dashes ->
  let tok := flag_token dashes nm value in
  Flag.non_flag tok = false
  /\ String.eqb tok "--" = false
  /\ Flag.bad_name (Flag.strip_minuses tok) = false
  /\ Flag.split_name (Flag.strip_minuses tok) = (nm, value).
Proof.
  intros (Hne & Hdash & Heq) Hd tok.
  destruct nm as [|c nm']; [done |]. clear Hne.
  simpl in Hdash. unfold GoStrings.byte_eqb in Hdash.
  rewrite andb_false_iff in Hdash. destruct Hdash as [Hdash | Hdash]; [| by destruct nm'].
  rewrite has_byte_cons in Heq. apply orb_false_iff in Heq as [Hceq Heq].
  assert (Hstrip : Flag.strip_minuses tok
                   = String c (nm' +:+ match value with
                                       | Some v => "=" +:+ v | None => "" end)).
  { unfold tok, flag_token.
    destruct Hd as [-> | ->]; simpl; rewrite ?Hdash; done. }
  assert (Hsplit : Flag.split_name
                     (String c (nm' +:+ match value with
                                        | Some v => "=" +:+ v | None => "" end))
                   = (String c nm', value)).
  { simpl. destruct value as [v|].
    - change ("=" +:+ v) with (String "=" v). by rewrite cut_value_some.
    - by rewrite append_nil_r, cut_value_none. }
  rewrite Hstrip, Hsplit. repeat split.
  - unfold tok, flag_token. by destruct Hd as [-> | ->].
  - unfold tok, flag_token. destruct Hd as [-> | ->]; simpl; [| done].
    rewrite Hdash. done.
  - simpl. rewrite Hdash. by rewrite Ascii.eqb_sym, Hceq.
Qed.

Section FlagTokens.
Context `{GoRuntime}.

(** What a registration that returns tells about the name and leaves in
    the flag set. *)
Lemma Var_returned f value nm f' :
  Flag.Var f value nm = Returned f' ->
  GoStrings.HasPrefix nm "-" = false
  /\ has_byte "=" nm = false
  /\ Flag.formal f !! nm = None
  /\ Flag.formal f' = <[nm := value]> (Flag.formal f)
  /\ Flag.name f' = Flag.name f.
Proof.
  unfold Flag.Var, has_byte.
  destruct (GoStrings.HasPrefix nm "-"); [done |].
  destruct (existsb _ _); [done |].
  destruct (Flag.formal f !! nm); [done |].
  by intros [= <-].
Qed.

Lemma normalizeName_nonempty name :
  name <> "" -> FlagProvider.normalizeName name <> "".
Proof. by destruct name. Qed.

(** X14.  A text parameter registered on an Argument Source is read from
    the command line in the four spellings of a flag: one or two minus
    signs, and the value attached with [=] or given as the next token,
    which is taken as it is.  The name of the flag is the name of the
    parameter with [-] for [_]. *)
Theorem text_flag_is_read p l name fallback req h p1 h1 dashes v :
  FlagProvider.StringVar p (Some l) name fallback req h = Returned (p1, h1) ->
  name <> "" ->
  dashes_ok dashes ->
  let nm := FlagProvider.normalizeName name in
  FlagProvider.args p = [flag_token dashes nm None; v]
  \/ FlagProvider.args p = [flag_token dashes nm (Some v)] ->
  exists p2 h2,
    FlagProvider.Load p1 h1 = (None, p2, h2)
    /\ load_string h2 l = v
    /\ Flag.Args (FlagProvider.fs p2) = [].
Proof.
  intros Hreg Hne Hd nm Hargs.
  unfold FlagProvider.StringVar, Flag.StringVar in Hreg. fold nm in Hreg.
  destruct (Flag.Var (FlagProvider.fs p) (Flag.stringValue l) nm) as [f'|] eqn:HV;
    [| done].
  simpl in Hreg. injection Hreg as <- <-.
  destruct (Var_returned _ _ _ _ HV) as (Hdash & Heq & _ & Hformal & _).
  assert (Hnm : flag_name nm).
  { split; [by apply normalizeName_nonempty | done]. }
  assert (Hlook : Flag.formal f' !! nm = Some (Flag.stringValue l)).
  { rewrite Hformal. apply lookup_insert_eq. }
  unfold FlagProvider.Load, Flag.Parse. simpl.
  destruct Hargs as [-> | ->].
  - destruct (token_shape dashes nm None Hnm Hd) as (Hnf & Hterm & Hbad & Hsplit).
    cbn [Flag.parse]. rewrite Hnf, Hterm, Hbad, Hsplit, Hlook. simpl.
    eexists _, _. split; [reflexivity |]. split; [apply load_string_store_same | done].
  - destruct (token_shape dashes nm (Some v) Hnm Hd) as (Hnf & Hterm & Hbad & Hsplit).
    cbn [Flag.parse]. rewrite Hnf, Hterm, Hbad, Hsplit, Hlook. simpl.
    eexists _, _. split; [reflexivity |]. split; [apply load_string_store_same | done].
Qed.

(** X15.  A boolean flag without an attached value is set to [true] and
    takes no token: the token after it, when it is no flag, is where
    parsing stops, so that [--verbose false] leaves [true] in the slot
    and [false] among the remaining tokens. *)
Theorem bool_flag_takes_no_token p l name fallback req h p1 h1 dashes tok rest :
  FlagProvider.BoolVar p (Some l) name fallback req h = Returned (p1, h1) ->
  name <> "" ->
  dashes_ok dashes ->
  Flag.non_flag tok = true ->
  FlagProvider.args p
  = flag_token dashes (FlagProvider.normalizeName name) None :: tok :: rest ->
  exists p2 h2,
    FlagProvider.Load p1 h1 = (None, p2, h2)
    /\ load_bool h2 l = true
    /\ Flag.Args (FlagProvider.fs p2) = tok :: rest.
Proof.
  intros Hreg Hne Hd Htok Hargs.
  set (nm := FlagProvider.normalizeName name) in *.
  unfold FlagProvider.BoolVar, Flag.BoolVar in Hreg. fold nm in Hreg.
  destruct (Flag.Var (FlagProvider.fs p) (Flag.boolValue l) nm) as [f'|] eqn:HV;
    [| done].
  simpl in Hreg. injection Hreg as <- <-.
  destruct (Var_returned _ _ _ _ HV) as (Hdash & Heq & _ & Hformal & _).
  assert (Hnm : flag_name nm).
  { split; [by apply normalizeName_nonempty | done]. }
  assert (Hlook : Flag.formal f' !! nm = Some (Flag.boolValue l)).
  { rewrite Hformal. apply lookup_insert_eq. }
  unfold FlagProvider.Load, Flag.Parse. simpl. rewrite Hargs.
  destruct (token_shape dashes nm None Hnm Hd) as (Hnf & Hterm & Hbad & Hsplit).
  cbn [Flag.parse]. rewrite Hnf, Hterm, Hbad, Hsplit, Hlook, Htok. simpl.
  eexists _, _. split; [reflexivity |]. split; [| done].
  unfold load_bool, store_bool. simpl. by rewrite lookup_insert_eq.
Qed.

(** X16.  A token of the shape of a flag whose name is not registered makes
    [Load] fail.  Nothing is stored, the missing list is left as it was
    and the sink is not called. *)
Theorem undefined_flag_fails p h dashes nm value rest :
  flag_name nm ->
  dashes_ok dashes ->
  Flag.formal (FlagProvider.fs p) !! nm = None ->
  nm <> "help" -> nm <> "h" ->
  FlagProvider.args p = flag_token dashes nm value :: rest ->
  exists e p',
    FlagProvider.Load p h = (Some e, p', h)
    /\ Error e = "failed to parse flags: flag provided but not defined: -" +:+ nm
    /\ FlagProvider.Missing p' = FlagProvider.Missing p
    /\ FlagProvider.remainingCalls p' = FlagProvider.remainingCalls p.
Proof.
  intros Hnm Hd Hlook Hhelp Hh Hargs.
  destruct (token_shape dashes nm value Hnm Hd) as (Hnf & Hterm & Hbad & Hsplit).
  unfold FlagProvider.Load, Flag.Parse. rewrite Hargs.
  cbn [Flag.parse]. rewrite Hnf, Hterm, Hbad, Hsplit, Hlook.
  destruct (String.eqb_spec nm "help"); [done |].
  destruct (String.eqb_spec nm "h"); [done |]. simpl.
  eexists _, _. split; [reflexivity |]. done.
Qed.

End FlagTokens.

Section FlagDefault.
Context `{GoRuntime}.

(** X17.  A registration on an Argument Source writes the default into the
    slot at once, before any token is parsed, whatever the slot held;
    every other slot is left alone. *)
Theorem flag_registration_writes_default p v h P' h' s :
  register (PFlag p) v h = Returned (P', h') ->
  dest (var_typ v) = Some s ->
  read h' s = Some (var_default v)
  /\ forall s', s' <> s -> same_at h h' s'.
Proof.
  intros Hreg Hd. simpl in Hreg.
  destruct (flag_register p v h) as [[p1 h1]|] eqn:Hf; [| done].
  simpl in Hreg. injection Hreg as _ <-.
  destruct v as [[l|] name fb req | [l|] name fb req | [l|] name fb req];
    try done; simpl in Hf, Hd; injection Hd as <-.
  - unfold FlagProvider.StringVar, Flag.StringVar in Hf.
    destruct (Flag.Var _ _ _); [| done]. simpl in Hf. injection Hf as _ <-.
    split; [apply read_store_string |].
    intros s' Hs'. by apply same_at_store_string.
  - unfold FlagProvider.IntVar, Flag.IntVar in Hf.
    destruct (Flag.Var _ _ _); [| done]. simpl in Hf. injection Hf as _ <-.
    split; [apply read_store_int |].
    intros s' Hs'. by apply same_at_store_int.
  - unfold FlagProvider.BoolVar, Flag.BoolVar in Hf.
    destruct (Flag.Var _ _ _); [| done]. simpl in Hf. injection Hf as _ <-.
    split; [apply read_store_bool |].
    intros s' Hs'. by apply same_at_store_bool.
Qed.

End FlagDefault.

Section MissingExact.
Context `{GoRuntime}.
Hypothesis Hrange : range_complete.

Lemma collect_missing_exact (m : gmap string typ) required h missing :
  exists added,
    collect_missing (range_order m) required h missing = missing ++ added
    /\ forall n,
        n ∈ added
        <-> exists t, m !! n = Some t /\ Empty t h = true /\ n ∈ required.
Proof.
  exists (collect_missing (range_order m) required h []).
  split; [apply collect_missing_app |].
  intros n. rewrite elem_of_collect_missing.
  split; intros (t & Hin & He & Hr); exists t; (split; [| done]);
    by apply (elem_of_range Hrange).
Qed.

(** X18.  After a successful [Load] of an Argument Source or of a composer
    the missing list has grown by exactly the registered names that are
    required and whose destination is empty in the final store. *)
Theorem missing_exact_after_load :
  (forall (p : FlagProvider.t) h p' h',
      FlagProvider.Load p h = (None, p', h') ->
      exists added,
        FlagProvider.Missing p' = FlagProvider.Missing p ++ added
        /\ forall n,
            n ∈ added
            <-> exists t, FlagProvider.m p !! n = Some t /\ Empty t h' = true
                          /\ n ∈ FlagProvider.required p)
  /\ (forall m ps required missing h P' h',
      Load (PPriority m ps required missing) h = Returned (None, P', h') ->
      exists added,
        Missing P' = missing ++ added
        /\ forall n,
            n ∈ added
            <-> exists t, m !! n = Some t /\ Empty t h' = true /\ n ∈ required).
Proof.
  split.
  - intros p h p' h'. unfold FlagProvider.Load.
    destruct (Flag.Parse _ _ _) as [[[e|] fs'] h1]; [done |].
    intros [= <- <-]. apply collect_missing_exact.
  - intros m ps required missing h P' h'. rewrite Load_composer.
    destruct (load_members ps h) as [[[[e|] ps'] h1]|]; simpl; [done | | done].
    intros [= <- <-]. apply collect_missing_exact.
Qed.

End MissingExact.

Section ComposerFailure.
Context `{GoRuntime}.

Lemma load_members_app pre post : forall h,
  load_members (pre ++ post) h
  = ('(err, pre', h1) ← load_members pre h;
     match err with
     | Some err => mret (Some err, pre' ++ post, h1)
     | None =>
         '(err, post', h2) ← load_members post h1;
         mret (err, pre' ++ post', h2)
     end).
Proof.
  induction pre as [|q pre IH]; intros h.
  - simpl. destruct (load_members post h) as [[[e ps'] h1]|]; [| done]. done.
  - cbn [app load_members].
    destruct (Load q h) as [[[[e|] q'] h1]|]; simpl; [done | | done].
    rewrite IH.
    destruct (load_members pre h1) as [[[[e|] pre'] h2]|]; simpl; [done | | done].
    destruct (load_members post h2) as [[[e ps'] h3]|]; [| done]. done.
Qed.

(** X19.  The composer loads its members in order and stops at the first
    one that fails: the members after it are not loaded, the missing
    list is not computed, and the error names the type of the member
    that failed. *)
Theorem composer_stops_at_first_failure m pre q post required missing
    h pre' h1 e q' h2 :
  load_members pre h = Returned (None, pre', h1) ->
  Load q h1 = Returned (Some e, q', h2) ->
  Load (PPriority m (pre ++ q :: post) required missing) h
  = Returned
      (Some (Errorf_w ("failed to load configuration with " +:+ type_name q +:+ ": ") e),
       PPriority m (pre' ++ q' :: post) required missing, h2).
Proof.
  intros Hpre Hq. rewrite Load_composer, load_members_app, Hpre. simpl.
  by rewrite Hq.
Qed.

End ComposerFailure.

Section ComposerRegisters.
Context `{GoRuntime}.

Lemma register_binds P v h P' h' :
  register P v h = Returned (P', h') ->
  binding_of P' (var_name v) = Some (var_typ v).
Proof.
  destruct P as [p | p | m ps required missing].
  - simpl. intros [= <- _]. simpl. rewrite env_register_m. apply lookup_insert_eq.
  - simpl. destruct (flag_register p v h) as [[p1 h1]|] eqn:Hf; [| done].
    simpl. intros [= <- _]. simpl.
    destruct v as [to name fb req | to name fb req | to name fb req];
      simpl in Hf |- *.
    + unfold FlagProvider.StringVar in Hf.
      destruct (Flag.StringVar _ _ _ _ _) as [[f' h2]|]; [| done].
      simpl in Hf. injection Hf as <- _. simpl. apply lookup_insert_eq.
    + unfold FlagProvider.IntVar in Hf.
      destruct (Flag.IntVar _ _ _ _ _) as [[f' h2]|]; [| done].
      simpl in Hf. injection Hf as <- _. simpl. apply lookup_insert_eq.
    + unfold FlagProvider.BoolVar in Hf.
      destruct (Flag.BoolVar _ _ _ _ _) as [[f' h2]|]; [| done].
      simpl in Hf. injection Hf as <- _. simpl. apply lookup_insert_eq.
  - rewrite register_composer.
    destruct (register_members ps v h) as [[ps' h1]|]; [| done].
    simpl. intros [= <- _]. simpl. apply lookup_insert_eq.
Qed.

Lemma register_members_bind ps v : forall h ps' h',
  register_members ps v h = Returned (ps', h') ->
  length ps' = length ps
  /\ Forall (fun q => binding_of q (var_name v) = Some (var_typ v)) ps'.
Proof.
  induction ps as [|q ps IH]; intros h ps' h'; simpl.
  - by intros [= <- _].
  - destruct (register q v h) as [[q' h1]|] eqn:Hq; [| done]. simpl.
    destruct (register_members ps v h1) as [[ps1 h2]|] eqn:Hps; [| done]. simpl.
    intros [= <- _]. destruct (IH _ _ _ Hps) as [Hlen Hall].
    split; [simpl; by rewrite Hlen |].
    constructor; [by apply (register_binds q v h q' h1) | done].
Qed.

(** X20.  A registration on a composer that returns has reached every
    member: each of them, and the composer itself, has the destination
    of the call under the name, so that all sources write the same
    slot; the name is appended to the required names of the composer
    when the call says so. *)
Theorem composer_registers_everywhere m ps required missing v h P' h' :
  register (PPriority m ps required missing) v h = Returned (P', h') ->
  exists ps',
    P' = PPriority (<[var_name v := var_typ v]> m) ps'
           (if var_required v then required ++ [var_name v] else required) missing
    /\ length ps' = length ps
    /\ Forall (fun q => binding_of q (var_name v) = Some (var_typ v)) ps'.
Proof.
  rewrite register_composer.
  destruct (register_members ps v h) as [[ps' h1]|] eqn:Hps; [| done].
  simpl. intros [= <- _]. exists ps'. split; [done |].
  by apply (register_members_bind ps v h ps' h1).
Qed.

End ComposerRegisters.

Section LaterWithoutValue.
Context `{GoRuntime}.
Hypothesis Hrange : range_complete.

(** X21.  A later Environment Source that has neither a value nor a
    fallback for a parameter leaves the slot as the earlier source left
    it: only a non-empty value overrides. *)
Theorem later_source_without_value_keeps m A (b : EnvProvider.t) required missing
    h0 P' h2 name to s :
  Load (PPriority m [A; PEnv b] required missing) h0 = Returned (None, P', h2) ->
  EnvProvider.m b !! name = Some to ->
  dest to = Some s ->
  (forall n t, EnvProvider.m b !! n = Some t -> dest t = Some s -> n = name) ->
  EnvProvider.getenv (EnvProvider.prepare b).2 (EnvProvider.uppersnake name) = "" ->
  default "" (EnvProvider.fallbacks b !! name) = "" ->
  exists A' h1,
    Load A h0 = Returned (None, A', h1) /\ read h2 s = read h1 s.
Proof.
  intros Hload Hm Hd Honly Hget Hfb.
  destruct (Load_two _ _ _ _ _ _ _ _ Hload) as (A' & h1 & B' & HA & HB & _).
  exists A', h1. split; [done |]. symmetry. apply same_at_read.
  simpl in HB.
  destruct (EnvProvider.Load b h1) as [[[e b'] h2']|] eqn:Hb; [| done].
  simpl in HB. injection HB as -> _ ->.
  destruct (Load_resolved _ _ _ _ Hb) as (b1 & Hprep & Hres).
  rewrite Hprep in Hget. simpl in Hget.
  destruct (prepare_bindings _ _ _ Hprep) as (_ & Hf1 & _).
  eapply resolve_frame; [| exact Hres].
  intros n t Hin Hdt. apply (elem_of_range Hrange) in Hin.
  rewrite (Honly n t Hin Hdt).
  apply rawVal_empty; [done | by rewrite Hf1].
Qed.

End LaterWithoutValue.

Section Records.
Context `{GoRuntime}.

(** Binding a field that is a record is binding its fields in order. *)
Lemma LoadField_struct c fname pkg fields tag anon value h :
  LoadField c (MkField fname pkg (TStruct fields) tag anon) value h
  = load_fields fields 0%nat value c h.
Proof.
  simpl. generalize 0%nat. revert c h.
  induction fields as [|f fields IH]; intros c h i; [done |].
  cbn [load_fields]. destruct (Reflect.Field value i) as [vi|]; [| done]. simpl.
  destruct (LoadField c f vi h) as [[[[e|] c1] h1]|]; simpl; [done | | done].
  apply IH.
Qed.

(** X22.  A field that is a record is flattened: its own tag is ignored,
    its fields are bound under their own names, and loading a record
    that wraps another in one exported field is loading the inner
    record. *)
Theorem nested_record_is_flattened fname tag anon fields ds opts h :
  Load_cfg (TPtr (TStruct [MkField fname "" (TStruct fields) tag anon]))
    (DPtr (Some (DStruct [DStruct ds]))) opts h
  = Load_cfg (TPtr (TStruct fields)) (DPtr (Some (DStruct ds))) opts h.
Proof.
  unfold Load_cfg. cbn [load_fields].
  change (Reflect.Field
            (Reflect.Elem (TPtr (TStruct [MkField fname "" (TStruct fields) tag anon]))
               (DPtr (Some (DStruct [DStruct ds])))) 0)
    with (Returned (MkValue (TStruct fields) (Some (DStruct ds)) false false)).
  change (Reflect.Elem (TPtr (TStruct fields)) (DPtr (Some (DStruct ds))))
    with (MkValue (TStruct fields) (Some (DStruct ds)) false false).
  cbn [mbind outcome_bind obind]. rewrite LoadField_struct.
  destruct (load_fields fields 0%nat _ (configure opts) h) as [[[[e|] c1] h1]|];
    done.
Qed.

Lemma LoadField_ignored c f value h :
  ignored f -> LoadField c f value h = Returned (None, c, h).
Proof.
  unfold ignored.
  destruct f as [fname pkg [k tname|fs|elem] tag anon]; simpl; [| done |].
  - unfold bind_field. simpl. intros Hk.
    destruct (String.eqb_spec tag ""); [done |].
    destruct (parseTag tag) as [[tagVal required] fallback].
    by destruct k.
  - intros _. unfold bind_field. simpl.
    destruct (String.eqb tag ""); [done |].
    by destruct (parseTag tag) as [[tagVal required] fallback].
Qed.

Lemma load_fields_ignored fields : forall pre ds ro1 ro2 c h,
  Forall ignored fields ->
  length ds = length (pre ++ fields) ->
  load_fields fields (length pre)
    (MkValue (TStruct (pre ++ fields)) (Some (DStruct ds)) ro1 ro2) c h
  = Returned (None, c, h).
Proof.
  induction fields as [|f fields IH]; intros pre ds ro1 ro2 c h Hall Hlen; [done |].
  apply Forall_cons in Hall as [Hf Hall]. cbn [load_fields].
  unfold Reflect.Field. cbn [v_type v_data].
  rewrite list_lookup_middle by done.
  destruct (ds !! length pre) as [d|] eqn:Hd.
  2:{ apply lookup_ge_None in Hd. rewrite Hlen, length_app in Hd. simpl in Hd. lia. }
  cbn [mbind outcome_bind obind]. rewrite LoadField_ignored by done.
  cbn [mbind outcome_bind obind].
  replace (S (length pre)) with (length (pre ++ [f])) by (rewrite length_app; simpl; lia).
  replace (pre ++ f :: fields) with ((pre ++ [f]) ++ fields) by by rewrite <- app_assoc.
  apply IH; [done |]. by rewrite <- app_assoc.
Qed.

End Records.

Section Ignored.
Context `{GoRuntime}.
Hypothesis Hrange : range_complete.

Lemma range_empty : range_order (∅ : gmap string typ) = [].
Proof.
  apply Permutation_nil_r. rewrite (Hrange ∅). by rewrite map_to_list_empty.
Qed.

(** X23.  Fields without a tag, and tagged fields of a kind other than
    text, integer and boolean (pointers included), are passed over in
    silence, [required] or not: a record of such fields loads from the
    default Environment Source without an error and without a change to
    the store. *)
Theorem ignored_fields_load fields ds h :
  Forall ignored fields ->
  length ds = length fields ->
  Load_cfg (TPtr (TStruct fields)) (DPtr (Some (DStruct ds))) [] h
  = Returned (None, default_config, h).
Proof.
  intros Hall Hlen. unfold Load_cfg.
  change (Reflect.Elem (TPtr (TStruct fields)) (DPtr (Some (DStruct ds))))
    with (MkValue (TStruct ([] ++ fields)) (Some (DStruct ds)) false false).
  change 0%nat with (length (@nil StructField)).
  rewrite load_fields_ignored by done.
  cbn [mbind outcome_bind obind configure fold_left].
  unfold default_config at 1. cbn [provider Load].
  unfold EnvProvider.Load, EnvProvider.prepare. simpl.
  rewrite range_empty. simpl. done.
Qed.

End Ignored.

Section BinderEdges.
Context `{GoRuntime}.

(** The value of an exported field of the record behind the pointer. *)
Lemma Field_exported fields ds i fname t tag anon di :
  fields !! i = Some (MkField fname "" t tag anon) -> ds !! i = Some di ->
  Reflect.Field (Reflect.Elem (TPtr (TStruct fields)) (DPtr (Some (DStruct ds)))) i
  = Returned (MkValue t (Some di) false false).
Proof.
  intros Hf Hd. unfold Reflect.Field. simpl. by rewrite Hf, Hd.
Qed.

(** X24.  A tagged field whose type is defined from [int], [string] or
    [bool] without being that type makes [Load] panic when binding
    reaches it and its default, if any, parses: the address of the field
    is asserted to be a pointer to the predeclared type. *)
Theorem defined_type_field_panics pre fname k tyname tag anon post ds l opts h c1 h1 :
  let field := MkField fname "" (TBasic k tyname) tag anon in
  let t := TPtr (TStruct (pre ++ field :: post)) in
  let d := DPtr (Some (DStruct ds)) in
  primitive k ->
  tyname <> Kind_String k ->
  tag <> "" ->
  default_parses field ->
  ds !! length pre = Some (DSlot l) ->
  load_fields pre 0%nat (Reflect.Elem t d) (configure opts) h
  = Returned (None, c1, h1) ->
  Load_cfg t d opts h
  = Panicked ("interface conversion: interface {} is *" +:+ tyname
              +:+ ", not *" +:+ Kind_String k).
Proof.
  intros field t d Hk Hty Htag Hdef Hdi Hpre. unfold Load_cfg. subst t.
  cbv iota beta. rewrite load_fields_app. fold d. rewrite Hpre.
  cbn [mbind outcome_bind obind load_fields]. rewrite Nat.add_0_l.
  unfold d. rewrite (Field_exported _ ds (length pre) fname (TBasic k tyname) tag anon
                       (DSlot l)); [| by apply list_lookup_middle | done].
  cbn [mbind outcome_bind obind].
  rewrite LoadField_primitive by done.
  unfold bind_field, default_parses, primitive in *. subst field.
  cbn [field_Tag field_Type rtype_Kind] in *.
  destruct (String.eqb_spec tag ""); [done |].
  destruct (parseTag tag) as [[tagVal required] fallback]. cbn [snd] in Hdef.
  unfold Reflect.AddrInterface. cbn [flagRO flagStickyRO flagEmbedRO orb v_type v_data].
  apply String.eqb_neq in Hty.
  destruct Hk as [-> | [-> | ->]]; cbn [Kind_String] in *; rewrite Hty.
  - reflexivity.
  - destruct Hdef as [-> | [z ->]]; [reflexivity |].
    destruct (String.eqb fallback ""); reflexivity.
  - destruct Hdef as [-> | [b ->]]; [reflexivity |].
    destruct (String.eqb fallback ""); reflexivity.
Qed.

(** X25.  A default literal that does not parse in the kind of its field
    makes [Load] return the error of the conversion as soon as binding
    reaches the field, whether the field is exported or not: the fields
    after it are not bound and no source is loaded. *)
Theorem malformed_default_fails pre field post ds di opts h c1 h1 cause :
  let t := TPtr (TStruct (pre ++ field :: post)) in
  let d := DPtr (Some (DStruct ds)) in
  field_Tag field <> "" ->
  default_fails field cause ->
  ds !! length pre = Some di ->
  load_fields pre 0%nat (Reflect.Elem t d) (configure opts) h
  = Returned (None, c1, h1) ->
  Load_cfg t d opts h
  = Returned
      (Some (Errorf_w ("failed to parse fallback value "
                       +:+ Quote (parseTag (field_Tag field)).2 +:+ " as "
                       +:+ Kind_String (rtype_Kind (field_Type field)) +:+ ": ")
               cause),
       c1, h1).
Proof.
  intros t d Htag Hfails Hdi Hpre. unfold default_fails in Hfails.
  destruct field as [fname pkg [k tname|fs|elem] tag anon];
    cbn [field_Tag field_Type rtype_Kind] in *; [| by destruct Hfails..].
  destruct (parseTag tag) as [[tagVal required] fallback] eqn:Hp.
  cbn [snd] in *. destruct Hfails as [Hne Hfail].
  unfold Load_cfg. subst t. cbv iota beta. rewrite load_fields_app. fold d.
  rewrite Hpre. cbn [mbind outcome_bind obind load_fields]. rewrite Nat.add_0_l.
  unfold d, Reflect.Field. cbn [Reflect.Elem v_type v_data].
  rewrite list_lookup_middle by done. rewrite Hdi.
  cbn [mbind outcome_bind obind LoadField]. unfold bind_field.
  cbn [field_Tag field_Type rtype_Kind].
  destruct (String.eqb_spec tag ""); [done |]. rewrite Hp.
  destruct (String.eqb_spec fallback ""); [done |].
  destruct k; try done; rewrite Hfail; reflexivity.
Qed.

End BinderEdges.

Section DefaultPath.
Context `{GoRuntime}.
Hypothesis Hrange : range_complete.

Lemma range_singleton name (t : typ) :
  range_order ({[name := t]} : gmap string typ) = [(name, t)].
Proof.
  apply Permutation_singleton_r. rewrite (Hrange _). by rewrite map_to_list_singleton.
Qed.

Lemma parseTag_required name :
  has_byte "," name = false ->
  parseTag (name +:+ ",required") = (name, true, "").
Proof.
  intros Hname.
  change (name +:+ ",required") with (GoStrings.Join [name; "required"] ",").
  unfold parseTag. rewrite (Split_Join "," [name; "required"]).
  - cbn [hd tl fold_left]. f_equal. f_equal. apply Contains_In.
    apply list_elem_of_further, list_elem_of_here.
  - done.
  - by repeat constructor.
Qed.

Lemma env_required_int_missing g name l h :
  g (EnvProvider.uppersnake name) = "" ->
  EnvProvider.Load
    (EnvProvider.IntVar (EnvProvider.NewEnvProvider g) (Some l) name 0 true) h
  = Returned
      (None,
       EnvProvider.add_missing
         (EnvProvider.IntVar (EnvProvider.NewEnvProvider g) (Some l) name 0 true) name,
       h).
Proof.
  intros Hget.
  set (p := EnvProvider.IntVar (EnvProvider.NewEnvProvider g) (Some l) name 0 true).
  assert (Hw : EnvProvider.withDotEnv p = false) by reflexivity.
  assert (Hg : EnvProvider.getenv p = g) by reflexivity.
  assert (Hf : EnvProvider.fallbacks p = ∅) by reflexivity.
  assert (Hr : EnvProvider.required p = [name]) by reflexivity.
  assert (Hm : EnvProvider.m p = {[name := typ_Int (Some l)]}).
  { unfold p. cbn [EnvProvider.IntVar EnvProvider.bind EnvProvider.NewEnvProvider
                   EnvProvider.m]. apply insert_empty. }
  unfold EnvProvider.Load, EnvProvider.prepare. rewrite Hw, Hm, range_singleton.
  cbn [EnvProvider.resolve]. unfold EnvProvider.rawVal. rewrite Hg, Hf, Hr, Hget.
  rewrite lookup_empty. cbn [String.eqb].
  replace (GoStrings.Contains [name] name) with true; [done |].
  symmetry. apply Contains_In. apply list_elem_of_here.
Qed.

Lemma bind_required_int c name l h :
  has_byte "," name = false ->
  load_fields [MkField "Field" "" tInt (name +:+ ",required") false] 0%nat
    (Reflect.Elem (one_field_record tInt (name +:+ ",required"))
       (DPtr (Some (DStruct [DSlot l])))) c h
  = ('(P, h') ← register (provider c) (IntVar (Some l) name 0 true) h;
     mret (None, MkLoadConfig P, h')).
Proof.
  intros Hname. cbn [load_fields]. unfold one_field_record, tInt.
  change (Reflect.Field _ 0)
    with (Returned (MkValue (TBasic Int "int") (Some (DSlot l)) false false)).
  cbn [mbind outcome_bind obind LoadField]. unfold bind_field.
  cbn [field_Tag field_Type rtype_Kind].
  replace (String.eqb (name +:+ ",required") "") with false by by destruct name.
  rewrite parseTag_required by done. cbn [String.eqb].
  change (Reflect.AddrInterface _ Int) with (@Returned (option loc) (Some l)).
  cbn [mbind outcome_bind obind].
  destruct (register (provider c) (IntVar (Some l) name 0 true) h) as [[P h']|]; done.
Qed.

(** X26.  [Load] without options and [LoadEnv] on the process environment
    disagree on a required integer without a value: the default
    Environment Source, asked directly, reports it missing, while the
    composer that [LoadEnv] builds looks at the slot and reports
    nothing. *)
Theorem required_integer_default_path_differs name l h :
  has_byte "," name = false ->
  os_Getenv (EnvProvider.uppersnake name) = "" ->
  let t := one_field_record tInt (name +:+ ",required") in
  let d := DPtr (Some (DStruct [DSlot l])) in
  (exists c,
      Load_cfg t d [] h
      = Returned (Some (errorString ("missing configuration parameters: " +:+ name)),
                  c, h))
  /\ (exists c, LoadEnv t d os_Getenv h = Returned (None, c, h)).
Proof.
  intros Hname Hget t d. split.
  - unfold Load_cfg, t, d. unfold one_field_record at 1. cbv iota beta.
    rewrite bind_required_int by done.
    cbn [configure fold_left default_config provider register env_register
         mbind mret outcome_bind outcome_ret obind Load].
    rewrite env_required_int_missing by done.
    cbn [mbind mret outcome_bind outcome_ret obind Missing].
    eexists. reflexivity.
  - unfold LoadEnv, Load_cfg, t, d. unfold one_field_record at 1. cbv iota beta.
    rewrite bind_required_int by done.
    cbn [configure fold_left apply_option NewPriorityProvider provider].
    unfold NewPriorityProvider. rewrite register_composer.
    cbn [register_members register env_register provider app
         mbind mret outcome_bind outcome_ret obind var_name var_typ var_required].
    rewrite Load_composer. cbn [load_members Load].
    rewrite env_required_int_missing by done.
    cbn [mbind mret outcome_bind outcome_ret obind].
    rewrite insert_empty, range_singleton. cbn [collect_missing Empty].
    cbn [typ_Int kind intVal andb app Missing].
    eexists. reflexivity.
Qed.

End DefaultPath.

Section HappyPath.
Context `{GoRuntime}.
Hypothesis Hrange : range_complete.

Lemma Contains_singleton name x :
  GoStrings.Contains [name] x = String.eqb x name.
Proof. unfold GoStrings.Contains. simpl. by rewrite orb_false_r. Qed.

Lemma parseTag_name name :
  has_byte "," name = false ->
  parseTag name = (name, String.eqb name "required", "").
Proof.
  intros Hname. unfold parseTag, GoStrings.Split.
  rewrite Split_go_no_sep by done. cbn [hd tl fold_left].
  change ("" +:+ name) with name. rewrite Contains_singleton.
  by rewrite String.eqb_sym.
Qed.

Lemma bind_named_field c k name l h v :
  has_byte "," name = false -> name <> "" ->
  plain_registration k l name = Some v ->
  load_fields [MkField "Field" "" (TBasic k (Kind_String k)) name false] 0%nat
    (Reflect.Elem (one_field_record (TBasic k (Kind_String k)) name)
       (DPtr (Some (DStruct [DSlot l])))) c h
  = ('(P, h') ← register (provider c) v h; mret (None, MkLoadConfig P, h')).
Proof.
  intros Hname Hne Hv. cbn [load_fields]. unfold one_field_record.
  change (Reflect.Field _ 0)
    with (Returned (MkValue (TBasic k (Kind_String k)) (Some (DSlot l)) false false)).
  cbn [mbind outcome_bind obind].
  assert (Htag : String.eqb name "" = false) by by apply String.eqb_neq.
  destruct k; try done; injection Hv as <-;
    cbn [LoadField]; unfold bind_field; cbn [field_Tag field_Type rtype_Kind];
    rewrite Htag, parseTag_name by done; cbn [String.eqb];
    unfold Reflect.AddrInterface;
    cbn [flagRO flagStickyRO flagEmbedRO orb v_type v_data Kind_String String.eqb
         Ascii.eqb Bool.eqb mbind outcome_bind obind];
    match goal with
    | |- context [register ?P ?v ?h] => destruct (register P v h) as [[? ?]|]
    end; done.
Qed.

Lemma rawVal_lookup p name :
  EnvProvider.getenv p (EnvProvider.uppersnake name) <> "" ->
  EnvProvider.rawVal p name = EnvProvider.getenv p (EnvProvider.uppersnake name).
Proof.
  intros Hne. unfold EnvProvider.rawVal. apply String.eqb_neq in Hne. by rewrite Hne.
Qed.

(** The Environment Source of [LoadEnv] after the registration. *)
Lemma Load_single p name to s raw h :
  EnvProvider.withDotEnv p = false ->
  EnvProvider.m p = {[name := to]} ->
  dest to = Some s ->
  EnvProvider.rawVal p name = raw ->
  raw <> "" ->
  forall val, coerce (kind to) raw = Some val ->
  exists h',
    EnvProvider.Load p h = Returned (None, p, h')
    /\ read h' s = Some val
    /\ forall s', s' <> s -> same_at h h' s'.
Proof.
  intros Hw Hm Hd Hraw Hne val Hval.
  unfold EnvProvider.Load, EnvProvider.prepare. rewrite Hw, Hm.
  rewrite (range_singleton Hrange). cbn [EnvProvider.resolve]. rewrite Hraw.
  apply String.eqb_neq in Hne. rewrite Hne.
  unfold dest in Hd. unfold coerce in Hval.
  destruct (kind to); try done.
  - destruct (Strconv.ParseBool raw) as [b|]; [| done]. injection Hval as <-.
    destruct (boolVal to) as [l|]; [| done]. injection Hd as <-.
    eexists. split; [done |]. split; [apply read_store_bool |].
    intros s' Hs'. by apply same_at_store_bool.
  - destruct (Strconv.Atoi raw) as [z|]; [| done]. injection Hval as <-.
    destruct (intVal to) as [l|]; [| done]. injection Hd as <-.
    eexists. split; [done |]. split; [apply read_store_int |].
    intros s' Hs'. by apply same_at_store_int.
  - injection Hval as <-.
    destruct (stringVal to) as [l|]; [| done]. injection Hd as <-.
    eexists. split; [done |]. split; [apply read_store_string |].
    intros s' Hs'. by apply same_at_store_string.
Qed.

(** X27.  The happy path of [LoadEnv].  For a record of one exported field
    of one of the three kinds, whose tag is a name, and an environment
    that holds a non-empty value for the name in upper case with [_] for
    [-], a value that coerces into the kind of the field: [LoadEnv]
    returns no error, the field holds the coerced value and every other
    slot is as it was. *)
Theorem LoadEnv_fills_field k name l getenv raw val h :
  primitive k ->
  has_byte "," name = false ->
  name <> "" ->
  getenv (EnvProvider.uppersnake name) = raw ->
  raw <> "" ->
  coerce k raw = Some val ->
  exists c h',
    LoadEnv (one_field_record (TBasic k (Kind_String k)) name)
      (DPtr (Some (DStruct [DSlot l]))) getenv h
    = Returned (None, c, h')
    /\ read h' (k, l) = Some val
    /\ forall s', s' <> (k, l) -> same_at h h' s'.
Proof.
  intros Hk Hname Hne Hget Hraw Hval.
  assert (Hv : exists v, plain_registration k l name = Some v
                         /\ var_name v = name
                         /\ dest (var_typ v) = Some (k, l)
                         /\ kind (var_typ v) = k
                         /\ var_required v = String.eqb name "required"
                         /\ EnvProvider.rawVal
                              (env_register (EnvProvider.NewEnvProvider getenv) v) name
                            = raw).
  { assert (Hlook : forall v,
               EnvProvider.rawVal
                 (env_register (EnvProvider.NewEnvProvider getenv) v) name = raw).
    { intros v. rewrite rawVal_lookup; destruct v; cbn [env_register
        EnvProvider.StringVar EnvProvider.IntVar EnvProvider.BoolVar
        EnvProvider.bind EnvProvider.NewEnvProvider EnvProvider.getenv];
        by rewrite Hget. }
    destruct Hk as [-> | [-> | ->]]; eexists; (split; [reflexivity |]);
      (split; [reflexivity |]); (split; [reflexivity |]);
      (split; [reflexivity |]); (split; [reflexivity |]); apply Hlook. }
  destruct Hv as (v & Hv & Hvn & Hvd & Hvk & Hvr & Hvraw).
  unfold LoadEnv, Load_cfg. unfold one_field_record at 1. cbv iota beta.
  rewrite (bind_named_field _ k name l h v) by done.
  cbn [configure fold_left apply_option provider]. unfold NewPriorityProvider.
  rewrite register_composer.
  cbn [register_members register provider app
       mbind mret outcome_bind outcome_ret obind].
  rewrite Load_composer. cbn [load_members Load]. rewrite Hvn.
  set (p := env_register (EnvProvider.NewEnvProvider getenv) v).
  assert (Hm : EnvProvider.m p = {[name := var_typ v]}).
  { unfold p. rewrite env_register_m, Hvn. apply insert_empty. }
  destruct (Load_single p name (var_typ v) (k, l) raw h) with (val := val)
    as (h' & Hload & Hread & Hframe); try done.
  { unfold p. by destruct v. }
  { by rewrite Hvk. }
  rewrite Hload. cbn [mbind mret outcome_bind outcome_ret obind].
  rewrite insert_empty, (range_singleton Hrange). cbn [collect_missing].
  assert (He : Empty (var_typ v) h' = false).
  { unfold Empty. rewrite Hvk. unfold dest in Hvd. rewrite Hvk in Hvd.
    destruct Hk as [-> | [-> | ->]].
    - destruct (stringVal (var_typ v)) as [l'|]; [| done]. injection Hvd as ->.
      simpl in Hread. unfold coerce in Hval. injection Hval as <-.
      injection Hread as ->. by apply String.eqb_neq.
    - by destruct (intVal (var_typ v)).
    - by destruct (boolVal (var_typ v)). }
  rewrite He. cbn [andb Missing].
  eexists _, h'. split; [reflexivity |]. split; [exact Hread | exact Hframe].
Qed.

End HappyPath.

(** * Two registrations under one name (C6) *)

Lemma env_register_required p v :
  EnvProvider.required (env_register p v)
  = if var_required v then EnvProvider.required p ++ [var_name v]
    else EnvProvider.required p.
Proof. by destruct v. Qed.

Lemma env_register_missing p v :
  EnvProvider.missing (env_register p v) = EnvProvider.missing p.
Proof. by destruct v. Qed.

Lemma env_register_lookup_fallback p v :
  EnvProvider.fallbacks (env_register p v) !! var_name v
  = fallback_after v (EnvProvider.fallbacks p !! var_name v).
Proof.
  rewrite env_register_fallbacks. unfold fallback_after.
  destruct (fallback_text v); [apply lookup_insert_eq | done].
Qed.

(** What two registrations under one name leave in an Environment
    Source. *)
Lemma env_twice_state p v1 v2 :
  var_name v2 = var_name v1 ->
  let name := var_name v1 in
  let p2 := env_register (env_register p v1) v2 in
  EnvProvider.m p2 = <[name := var_typ v2]> (EnvProvider.m p)
  /\ EnvProvider.fallbacks p2 !! name
     = fallback_after v2 (fallback_after v1 (EnvProvider.fallbacks p !! name))
  /\ (forall n, n ∈ EnvProvider.required p2
                <-> n ∈ EnvProvider.required p
                    \/ (n = name /\ (var_required v1 = true \/ var_required v2 = true)))
  /\ EnvProvider.missing p2 = EnvProvider.missing p.
Proof.
  intros Hname name p2. split; [| split; [| split]].
  - unfold p2. rewrite !env_register_m, Hname. apply insert_insert_eq.
  - unfold p2, name. rewrite <- Hname at 1.
    rewrite env_register_lookup_fallback, Hname. f_equal.
    apply env_register_lookup_fallback.
  - intros n. unfold p2. rewrite !env_register_required, Hname. fold name.
    destruct (var_required v1), (var_required v2);
      rewrite ?elem_of_app, ?list_elem_of_singleton; naive_solver.
  - unfold p2. by rewrite !env_register_missing.
Qed.

Section EnvTwice.
Context `{GoRuntime}.
Hypothesis Hrange : range_complete.

(** The raw value of a parameter, written out. *)
Lemma rawVal_written p name :
  EnvProvider.rawVal (EnvProvider.prepare p).2 name
  = let lookup := EnvProvider.getenv (EnvProvider.prepare p).2
                    (EnvProvider.uppersnake name) in
    if String.eqb lookup "" then default "" (EnvProvider.fallbacks p !! name)
    else lookup.
Proof.
  destruct (EnvProvider.prepare p) as [e p1] eqn:Hprep.
  destruct (prepare_bindings _ _ _ Hprep) as (_ & Hf & _). cbn [snd].
  unfold EnvProvider.rawVal. rewrite Hf.
  destruct (String.eqb_spec (EnvProvider.getenv p1 (EnvProvider.uppersnake name)) "")
    as [-> |]; [| done].
  by destruct (EnvProvider.fallbacks p !! name).
Qed.

(** The [Load] of an Environment Source after two registrations under
    one name, from any store. *)
Lemma env_twice_load p v1 v2 h err p' h' s1 s2 :
  var_name v2 = var_name v1 ->
  let name := var_name v1 in
  let p2 := env_register (env_register p v1) v2 in
  let raw := EnvProvider.rawVal (EnvProvider.prepare p2).2 name in
  dest (var_typ v1) = Some s1 ->
  dest (var_typ v2) = Some s2 ->
  (forall n t, EnvProvider.m p !! n = Some t -> n <> name ->
               dest t <> Some s1 /\ dest t <> Some s2) ->
  EnvProvider.Load p2 h = Returned (err, p', h') ->
  (s1 <> s2 -> same_at h h' s1)
  /\ (raw = "" -> same_at h h' s2)
  /\ (err = None ->
      (raw <> "" -> read h' s2 = coerce (kind (var_typ v2)) raw)
      /\ (name ∈ EnvProvider.Missing p'
          <-> name ∈ EnvProvider.Missing p
              \/ (raw = "" /\ name ∈ EnvProvider.required p2))).
Proof.
  intros Hname name p2 raw Hd1 Hd2 Hother.
  destruct (env_twice_state p v1 v2 Hname) as (Hm2 & _ & _ & Hmiss2).
  fold name p2 in Hm2, Hmiss2.
  unfold EnvProvider.Load. subst raw.
  destruct (EnvProvider.prepare p2) as [e p1] eqn:Hprep.
  destruct (prepare_bindings _ _ _ Hprep) as (Hm1 & _ & Hr1 & Hmiss1). cbn [snd].
  assert (Hentry : forall n t, (n, t) ∈ range_order (EnvProvider.m p1) ->
             (n = name /\ t = var_typ v2)
             \/ (n <> name /\ EnvProvider.m p !! n = Some t)).
  { intros n t Hin. apply (elem_of_range Hrange) in Hin.
    rewrite Hm1, Hm2 in Hin. destruct (decide (n = name)) as [-> | Hne].
    - rewrite lookup_insert_eq in Hin. left. split; congruence.
    - rewrite lookup_insert_ne in Hin; [| done]. by right. }
  assert (Hin2 : (name, var_typ v2) ∈ range_order (EnvProvider.m p1)).
  { apply (elem_of_range Hrange). rewrite Hm1, Hm2. apply lookup_insert_eq. }
  destruct e as [e|].
  { intros [= <- <- <-]. split; [intros _; apply same_at_refl |].
    split; [intros _; apply same_at_refl | done]. }
  intros Hres. split; [| split].
  - intros Hne. eapply resolve_frame; [| exact Hres]. intros n t Hin Hdt.
    exfalso. destruct (Hentry n t Hin) as [[-> ->] | [Hn Hnt]].
    + congruence.
    + by destruct (Hother n t Hnt Hn).
  - intros Hraw. eapply resolve_frame; [| exact Hres]. intros n t Hin Hdt.
    destruct (Hentry n t Hin) as [[-> ->] | [Hn Hnt]]; [done |].
    by destruct (Hother n t Hnt Hn).
  - intros ->. split.
    + intros Hraw.
      apply (resolve_assigns _ name (var_typ v2) s2 _ _ _ _ Hres); try done.
      * apply (NoDup_range Hrange).
      * intros n t Hin Hdt. destruct (Hentry n t Hin) as [[-> ->] | [Hn Hnt]];
          [done |]. by destruct (Hother n t Hnt Hn).
    + apply resolve_missing in Hres as (_ & added & Hadd & Hadded & Hall).
      unfold EnvProvider.Missing. rewrite Hadd, Hmiss1, Hmiss2, elem_of_app.
      split.
      * intros [Hold | Hnew]; [by left | right].
        destruct (Hadded _ Hnew) as (_ & Hraw & Hreq). by rewrite <- Hr1.
      * intros [Hold | [Hraw Hreq]]; [by left | right].
        apply Hall; [done | | done | by rewrite Hr1].
        apply list_elem_of_fmap. by exists (name, var_typ v2).
Qed.

End EnvTwice.

Section ProviderInduction.
Variable Q : Provider -> Prop.
Hypothesis HEnv : forall p, Q (PEnv p).
Hypothesis HFlag : forall p, Q (PFlag p).
Hypothesis HPriority : forall m ps required missing,
  Forall Q ps -> Q (PPriority m ps required missing).

Lemma Provider_nested_ind : forall P, Q P.
Proof.
  fix IH 1. intros [p | p | m ps required missing].
  - apply HEnv.
  - apply HFlag.
  - apply HPriority. induction ps as [|q ps IHps]; constructor.
    + apply IH.
    + apply IHps.
Qed.

End ProviderInduction.

Section Redefinition.
Context `{GoRuntime}.

Lemma flag_register_defines p v h p1 h1 :
  flag_register p v h = Returned (p1, h1) ->
  let nm := FlagProvider.normalizeName (var_name v) in
  GoStrings.HasPrefix nm "-" = false
  /\ has_byte "=" nm = false
  /\ is_Some (Flag.formal (FlagProvider.fs p1) !! nm)
  /\ Flag.name (FlagProvider.fs p1) = Flag.name (FlagProvider.fs p).
Proof.
  destruct v as [to name fb req | to name fb req | to name fb req];
    cbn [flag_register var_name];
    unfold FlagProvider.StringVar, FlagProvider.IntVar, FlagProvider.BoolVar,
      Flag.StringVar, Flag.IntVar, Flag.BoolVar;
    (destruct to as [l|]; [| done]);
    (destruct (Flag.Var _ _ _) as [f'|] eqn:Hvar; [| done]);
    simpl; intros [= <- _];
    apply Var_returned in Hvar as (Hp & He & _ & Hf & Hn);
    cbn [FlagProvider.bind FlagProvider.fs];
    (split; [done |]); (split; [done |]);
    (split; [rewrite Hf, lookup_insert_eq; by eexists | done]).
Qed.

Lemma Var_redefined f value nm :
  GoStrings.HasPrefix nm "-" = false ->
  has_byte "=" nm = false ->
  is_Some (Flag.formal f !! nm) ->
  Flag.Var f value nm = Panicked (redefined f nm).
Proof.
  intros Hp He [fv Hfv]. unfold Flag.Var, redefined.
  rewrite Hp. unfold has_byte in He. rewrite He. by rewrite Hfv.
Qed.

(** A registration on an Argument Source under a name that it holds
    panics, whatever the destination and the store. *)
Lemma flag_register_twice p v1 v2 h p1 h1 h' :
  flag_register p v1 h = Returned (p1, h1) ->
  FlagProvider.normalizeName (var_name v2) = FlagProvider.normalizeName (var_name v1) ->
  flag_register p1 v2 h' = Panicked (second_registration_panic p v2).
Proof.
  intros Hreg Hname.
  destruct (flag_register_defines _ _ _ _ _ Hreg) as (Hp & He & Hdef & Hn).
  rewrite <- Hname in Hp, He, Hdef. unfold second_registration_panic.
  assert (Hred : redefined (FlagProvider.fs p1) (FlagProvider.normalizeName (var_name v2))
                 = redefined (FlagProvider.fs p) (FlagProvider.normalizeName (var_name v2))).
  { unfold redefined. by rewrite Hn. }
  rewrite <- Hred.
  destruct v2 as [to name fb req | to name fb req | to name fb req];
    cbn [flag_register var_name var_typ] in *;
    unfold FlagProvider.StringVar, FlagProvider.IntVar, FlagProvider.BoolVar,
      Flag.StringVar, Flag.IntVar, Flag.BoolVar;
    (destruct to as [l|]; [| done]);
    rewrite (Var_redefined _ _ _ Hp He Hdef); done.
Qed.

(** A registration on a provider that holds an Argument Source, once
    the name has been registered, panics. *)
Lemma register_twice_panics v1 v2 :
  FlagProvider.normalizeName (var_name v2) = FlagProvider.normalizeName (var_name v1) ->
  forall P h P1 h1,
    has_flag_source P = true ->
    register P v1 h = Returned (P1, h1) ->
    forall h', exists msg, register P1 v2 h' = Panicked msg.
Proof.
  intros Hname P. induction P as [p | p | m ps required missing IH]
    using Provider_nested_ind; intros h P1 h1 Hflag Hreg h'.
  - done.
  - simpl in Hreg. destruct (flag_register p v1 h) as [[p1 h2]|] eqn:Hf; [| done].
    simpl in Hreg. injection Hreg as <- <-. simpl.
    rewrite (flag_register_twice _ _ _ _ _ _ h' Hf Hname). by eexists.
  - rewrite register_composer in Hreg.
    destruct (register_members ps v1 h) as [[ps1 h2]|] eqn:Hps; [| done].
    simpl in Hreg. injection Hreg as <- <-. rewrite register_composer.
    cbn [has_flag_source] in Hflag.
    assert (Hmem : exists msg, register_members ps1 v2 h' = Panicked msg).
    { clear required missing m. revert h ps1 h2 h' Hps Hflag.
      induction IH as [|q ps IHq _ IHps]; intros h ps1 h2 h' Hps Hflag; [done |].
      cbn [register_members] in Hps.
      destruct (register q v1 h) as [[q1 h3]|] eqn:Hq; [| done]. simpl in Hps.
      destruct (register_members ps v1 h3) as [[ps2 h4]|] eqn:Hrest; [| done].
      simpl in Hps. injection Hps as <- <-. cbn [register_members].
      destruct (register q1 v2 h') as [[q2 h5]|msg] eqn:Hq2; [| by eexists].
      simpl. cbn [existsb] in Hflag. apply orb_true_iff in Hflag as [Hhd | Htl].
      - destruct (IHq _ _ _ Hhd Hq h') as [msg Hmsg]. congruence.
      - destruct (IHps _ _ _ h5 Hrest Htl) as [msg ->]. by eexists. }
    destruct Hmem as [msg ->]. by eexists.
Qed.

(** A registration on a provider that holds no Argument Source returns
    and leaves the store as it is. *)
Lemma register_without_flag v :
  forall P h,
    has_flag_source P = false ->
    exists P', register P v h = Returned (P', h) /\ has_flag_source P' = false.
Proof.
  intros P. induction P as [p | p | m ps required missing IH]
    using Provider_nested_ind; intros h Hflag.
  - eexists. split; [reflexivity | done].
  - done.
  - rewrite register_composer. cbn [has_flag_source] in Hflag.
    assert (Hmem : exists ps', register_members ps v h = Returned (ps', h)
                               /\ existsb has_flag_source ps' = false).
    { clear required missing m.
      induction IH as [|q ps IHq _ IHps]; [by eexists |].
      cbn [existsb] in Hflag. apply orb_false_iff in Hflag as [Hhd Htl].
      destruct (IHq h Hhd) as (q' & Hq & Hq').
      destruct (IHps Htl) as (ps' & Hps & Hps').
      exists (q' :: ps'). cbn [register_members]. rewrite Hq. simpl.
      rewrite Hps. simpl. split; [done |]. by rewrite Hq', Hps'. }
    destruct Hmem as (ps' & -> & Hps'). simpl. eexists. split; [reflexivity | done].
Qed.

End Redefinition.

Lemma elem_of_required_after v required n :
  n ∈ required_after v required
  <-> n ∈ required \/ (n = var_name v /\ var_required v = true).
Proof.
  unfold required_after. destruct (var_required v);
    rewrite ?elem_of_app, ?list_elem_of_singleton; naive_solver.
Qed.

Section ComposerTwice.
Context `{GoRuntime}.
Hypothesis Hrange : range_complete.

Lemma register_env_members es v h :
  register_members (PEnv <$> es) v h
  = Returned (PEnv <$> ((fun e => env_register e v) <$> es), h).
Proof.
  induction es as [|e es IH]; [done |].
  rewrite !fmap_cons. cbn [register_members register]. simpl.
  by rewrite IH.
Qed.

Lemma load_env_members_twice v1 v2 s1 s2 :
  var_name v2 = var_name v1 ->
  dest (var_typ v1) = Some s1 ->
  dest (var_typ v2) = Some s2 ->
  forall es h err ps' h',
    Forall (fun e => apart e (var_name v1) s1 s2) es ->
    load_members (PEnv <$> (twice v1 v2 <$> es)) h = Returned (err, ps', h') ->
    (s1 <> s2 -> same_at h h' s1)
    /\ (Forall (fun e => raw_value (twice v1 v2 e) (var_name v1) = "") es ->
        same_at h h' s2).
Proof.
  intros Hname Hd1 Hd2 es. induction es as [|e es IH]; intros h err ps' h' Hap.
  - simpl. intros [= <- <- <-]. split; intros _; apply same_at_refl.
  - apply Forall_cons in Hap as [Hap Haps].
    rewrite !fmap_cons. cbn [load_members Load].
    destruct (EnvProvider.Load (twice v1 v2 e) h) as [[[e0 e'] h1]|] eqn:Hload;
      [| done].
    destruct (env_twice_load Hrange e v1 v2 h e0 e' h1 s1 s2 Hname Hd1 Hd2 Hap Hload)
      as (Hs1 & Hs2 & _).
    simpl. destruct e0 as [e0|].
    + simpl. intros [= <- <- <-]. split; [done |].
      intros Hraw. apply Forall_cons in Hraw as [Hraw _]. by apply Hs2.
    + destruct (load_members _ h1) as [[[e1 ps1] h2]|] eqn:Hrest; [| done].
      simpl. intros [= <- <- <-].
      destruct (IH _ _ _ _ Haps Hrest) as [Ht1 Ht2]. split.
      * intros Hne. eapply same_at_trans; [by apply Hs1 | by apply Ht1].
      * intros Hraw. apply Forall_cons in Hraw as [Hraw Hraws].
        eapply same_at_trans; [by apply Hs2 | by apply Ht2].
Qed.

Lemma load_env_members_last v1 v2 s1 s2 :
  var_name v2 = var_name v1 ->
  dest (var_typ v1) = Some s1 ->
  dest (var_typ v2) = Some s2 ->
  forall pre e post h ps' h',
    Forall (fun e => apart e (var_name v1) s1 s2) (pre ++ e :: post) ->
    load_members (PEnv <$> (twice v1 v2 <$> (pre ++ e :: post))) h
    = Returned (None, ps', h') ->
    raw_value (twice v1 v2 e) (var_name v1) <> "" ->
    Forall (fun e => raw_value (twice v1 v2 e) (var_name v1) = "") post ->
    read h' s2 = coerce (kind (var_typ v2)) (raw_value (twice v1 v2 e) (var_name v1)).
Proof.
  intros Hname Hd1 Hd2 pre e post h ps' h' Hap Hload Hraw Hpost.
  apply Forall_app in Hap as [_ Hap]. apply Forall_cons in Hap as [Hap Haps].
  rewrite !fmap_app, !fmap_cons, load_members_app in Hload.
  destruct (load_members (PEnv <$> (twice v1 v2 <$> pre)) h)
    as [[[e0 pre'] h1]|]; [| done].
  cbn [load_members Load] in Hload.
  change (Returned (e0, pre', h1) ≫= ?f) with (f (e0, pre', h1)) in Hload.
  cbn beta iota in Hload. destruct e0 as [e0|]; [done |].
  destruct (EnvProvider.Load (twice v1 v2 e) h1) as [[[e1 e'] h2]|] eqn:Hle;
    [| done].
  simpl in Hload. destruct e1 as [e1|]; [done |].
  destruct (load_members _ h2) as [[[e2 post'] h3]|] eqn:Hlp; [| done].
  simpl in Hload. injection Hload as -> _ ->.
  destruct (env_twice_load Hrange e v1 v2 h1 None e' h2 s1 s2 Hname Hd1 Hd2 Hap Hle)
    as (_ & _ & Hval).
  destruct (Hval eq_refl) as [Hval' _].
  destruct (load_env_members_twice v1 v2 s1 s2 Hname Hd1 Hd2 post h2 None post' h'
              Haps Hlp) as [_ Hframe].
  rewrite <- (same_at_read _ _ _ (Hframe Hpost)). by apply Hval'.
Qed.

End ComposerTwice.

(** C6 does not hold as stated.  On an Argument Source the second
    registration under a name panics.  On an Environment Source the
    first binding stays in effect where the second says nothing: the
    destination of the second registration receives the fallback of the
    first, and the name is reported missing because the first
    registration required it. *)
Lemma reregistration_panics_or_keeps_first :
  (exists P1 h1,
     @register plain_runtime (PFlag (FlagProvider.NewFlagProvider []))
       name_first empty_mem = Returned (P1, h1)
     /\ @register plain_runtime P1 name_second h1
        = Panicked "confflags flag redefined: name")
  /\ (exists P2 P',
        @register plain_runtime (PEnv (env_register no_env name_with_fallback))
          name_second empty_mem = Returned (P2, empty_mem)
        /\ @Load plain_runtime P2 empty_mem
           = Returned (None, P', store_string empty_mem 1%nat "first")
        /\ Missing P' = [])
  /\ (exists P2 P',
        @register plain_runtime (PEnv (env_register no_env name_required))
          name_second empty_mem = Returned (P2, empty_mem)
        /\ @Load plain_runtime P2 empty_mem = Returned (None, P', empty_mem)
        /\ Missing P' = ["name"]).
Proof.
  split; [| split].
  - eexists _, _. split; vm_compute; reflexivity.
  - eexists _, _. split; [| split]; vm_compute; reflexivity.
  - eexists _, _. split; [| split]; vm_compute; reflexivity.
Qed.

Section Reregistration.
Context `{GoRuntime}.
Hypothesis Hrange : range_complete.

(** C6, as the code has it.  Two registrations under one name, [v1]
    then [v2].

    On an Environment Source both return and leave the store alone; the
    name is then bound to the destination of [v2] only, but its
    fallback is the one of [v2] if [v2] records one, else the one of
    [v1], else the one it had, and the name is required as soon as one
    of the two registrations required it.  A [Load] does not write the
    destination of [v1]; it writes into the destination of [v2] the
    value looked up in the environment or, where that is empty, that
    fallback; and it reports the name missing when both are empty and
    the name is required.

    On a provider that holds no Argument Source both registrations
    return.  On a composer of Environment Sources every member is as
    above: a [Load] does not write the destination of [v1], the
    destination of [v2] holds the value of the last member that has
    one, and the composer reports the name when that destination is
    empty and one of the two registrations required it.

    On an Argument Source the second registration panics: on a nil
    destination when the default is written, else in the flag set with
    the message that the flag is redefined.  So does the second
    registration on every provider that holds an Argument Source. *)
Theorem reregistration (v1 v2 : Var) :
  var_name v2 = var_name v1 ->
  let name := var_name v1 in
  (forall p : EnvProvider.t,
     let p2 := twice v1 v2 p in
     (forall h, register (PEnv p) v1 h = Returned (PEnv (env_register p v1), h)
                /\ register (PEnv (env_register p v1)) v2 h = Returned (PEnv p2, h))
     /\ EnvProvider.m p2 = <[name := var_typ v2]> (EnvProvider.m p)
     /\ EnvProvider.fallbacks p2 !! name
        = fallback_after v2 (fallback_after v1 (EnvProvider.fallbacks p !! name))
     /\ (forall n, n ∈ EnvProvider.required p2
                   <-> n ∈ EnvProvider.required p
                       \/ (n = name /\ (var_required v1 = true
                                        \/ var_required v2 = true)))
     /\ raw_value p2 name
        = (let lookup := EnvProvider.getenv (EnvProvider.prepare p2).2
                           (EnvProvider.uppersnake name) in
           if String.eqb lookup ""
           then default "" (EnvProvider.fallbacks p2 !! name)
           else lookup)
     /\ forall h s1 s2 err p' h',
         dest (var_typ v1) = Some s1 ->
         dest (var_typ v2) = Some s2 ->
         apart p name s1 s2 ->
         Load (PEnv p2) h = Returned (err, PEnv p', h') ->
         (s1 <> s2 -> same_at h h' s1)
         /\ (raw_value p2 name = "" -> same_at h h' s2)
         /\ (err = None ->
             (raw_value p2 name <> "" ->
              read h' s2 = coerce (kind (var_typ v2)) (raw_value p2 name))
             /\ (name ∈ EnvProvider.Missing p'
                 <-> name ∈ EnvProvider.Missing p
                     \/ (raw_value p2 name = ""
                         /\ name ∈ EnvProvider.required p2))))
  /\ (forall P h,
        has_flag_source P = false ->
        exists P1 P2,
          register P v1 h = Returned (P1, h)
          /\ register P1 v2 h = Returned (P2, h))
  /\ (forall m es required missing,
        let P := PPriority m (PEnv <$> es) required missing in
        let P2 := PPriority (<[name := var_typ v2]> m)
                    (PEnv <$> (twice v1 v2 <$> es))
                    (required_after v2 (required_after v1 required)) missing in
        (forall h, exists P1,
            register P v1 h = Returned (P1, h)
            /\ register P1 v2 h = Returned (P2, h))
        /\ forall h s1 s2 err P' h',
            dest (var_typ v1) = Some s1 ->
            dest (var_typ v2) = Some s2 ->
            Forall (fun e => apart e name s1 s2) es ->
            Load P2 h = Returned (err, P', h') ->
            (s1 <> s2 -> same_at h h' s1)
            /\ (Forall (fun e => raw_value (twice v1 v2 e) name = "") es ->
                same_at h h' s2)
            /\ (err = None ->
                (forall pre e post,
                    es = pre ++ e :: post ->
                    raw_value (twice v1 v2 e) name <> "" ->
                    Forall (fun e => raw_value (twice v1 v2 e) name = "") post ->
                    read h' s2
                    = coerce (kind (var_typ v2)) (raw_value (twice v1 v2 e) name))
                /\ (name ∈ Missing P'
                    <-> name ∈ missing
                        \/ (Empty (var_typ v2) h' = true
                            /\ (name ∈ required
                                \/ var_required v1 = true
                                \/ var_required v2 = true)))))
  /\ (forall p h p1 h1 h',
        register (PFlag p) v1 h = Returned (PFlag p1, h1) ->
        register (PFlag p1) v2 h' = Panicked (second_registration_panic p v2))
  /\ (forall P h P1 h1 h',
        has_flag_source P = true ->
        register P v1 h = Returned (P1, h1) ->
        exists msg, register P1 v2 h' = Panicked msg).
Proof.
  intros Hname name.
  assert (Hnorm : FlagProvider.normalizeName (var_name v2)
                  = FlagProvider.normalizeName (var_name v1)) by by rewrite Hname.
  split; [| split; [| split; [| split]]].
  - intros p p2.
    destruct (env_twice_state p v1 v2 Hname) as (Hm & Hf & Hr & _).
    split; [done |]. split; [exact Hm |]. split; [exact Hf |].
    split; [exact Hr |]. split; [apply rawVal_written |].
    intros h s1 s2 err p' h' Hd1 Hd2 Hap Hload. cbn [Load] in Hload.
    destruct (EnvProvider.Load p2 h) as [[[e0 p0] h0]|] eqn:Hl; [| done].
    simpl in Hload. injection Hload as -> -> ->.
    exact (env_twice_load Hrange p v1 v2 h err p' h' s1 s2 Hname Hd1 Hd2 Hap Hl).
  - intros P h Hflag.
    destruct (register_without_flag v1 P h Hflag) as (P1 & HP1 & Hflag1).
    destruct (register_without_flag v2 P1 h Hflag1) as (P2 & HP2 & _).
    by exists P1, P2.
  - intros m es required missing P P2. split.
    + intros h.
      exists (PPriority (<[name := var_typ v1]> m)
                (PEnv <$> ((fun e => env_register e v1) <$> es))
                (required_after v1 required) missing).
      unfold P. rewrite !register_composer, !register_env_members.
      split; [reflexivity |]. simpl.
      unfold P2, twice, required_after, name. rewrite Hname, insert_insert_eq.
      rewrite <- (list_fmap_compose (fun e => env_register e v1)
                    (fun e => env_register e v2) es).
      reflexivity.
    + intros h s1 s2 err P' h' Hd1 Hd2 Hap Hload. unfold P2 in Hload.
      rewrite Load_composer in Hload.
      destruct (load_members _ h) as [[[e0 ps'] h0]|] eqn:Hl; [| done].
      destruct (load_env_members_twice Hrange v1 v2 s1 s2 Hname Hd1 Hd2 es h e0 ps' h0
                  Hap Hl) as [Hs1 Hs2].
      assert (Hh : h0 = h' /\ e0 = err).
      { destruct e0; simpl in Hload; by injection Hload as <- _ <-. }
      destruct Hh as [-> ->]. split; [exact Hs1 |]. split; [exact Hs2 |].
      intros ->. simpl in Hload. injection Hload as <-. split.
      * intros pre e post -> Hraw Hpost.
        by apply (load_env_members_last Hrange v1 v2 s1 s2 Hname Hd1 Hd2
                    pre e post h ps' h').
      * cbn [Missing].
        destruct (collect_missing_exact Hrange (<[name := var_typ v2]> m)
                    (required_after v2 (required_after v1 required)) h' missing)
          as (added & -> & Hadded).
        rewrite elem_of_app, Hadded. split.
        -- intros [Hold | (t & Ht & Hempty & Hreq)]; [by left | right].
           rewrite lookup_insert_eq in Ht. injection Ht as <-. split; [done |].
           apply elem_of_required_after in Hreq as [Hreq | [_ Hreq]]; [| tauto].
           apply elem_of_required_after in Hreq as [Hreq | [_ Hreq]]; tauto.
        -- intros [Hold | [Hempty Hreq]]; [by left | right].
           exists (var_typ v2). split; [apply lookup_insert_eq |].
           split; [done |]. rewrite !elem_of_required_after, Hname.
           fold name. tauto.
  - intros p h p1 h1 h' Hreg. simpl in Hreg.
    destruct (flag_register p v1 h) as [[p0 h0]|] eqn:Hf; [| done].
    simpl in Hreg. injection Hreg as <- <-. simpl.
    by rewrite (flag_register_twice _ _ _ _ _ _ h' Hf Hnorm).
  - intros P h P1 h1 h' Hflag Hreg.
    exact (register_twice_panics v1 v2 Hnorm P h P1 h1 Hflag Hreg h').
Qed.

End Reregistration.

Lemma reregistration_witness :
  exists p',
    @Load plain_runtime (PEnv (twice name_first name_second name_env)) empty_mem
    = Returned (None, PEnv p', store_string empty_mem 1%nat "x")
    /\ same_at empty_mem (store_string empty_mem 1%nat "x") (String_, 0%nat)
    /\ read (store_string empty_mem 1%nat "x") (String_, 1%nat)
       = Some (VString "x")
    /\ "name" ∉ EnvProvider.Missing p'.
Proof.
  assert (Hload : exists p',
             @Load plain_runtime (PEnv (twice name_first name_second name_env))
               empty_mem
             = Returned (None, PEnv p', store_string empty_mem 1%nat "x")).
  { eexists. vm_compute. reflexivity. }
  destruct Hload as [p' Hload]. exists p'. split; [exact Hload |].
  destruct (@reregistration plain_runtime plain_runtime_range
              name_first name_second eq_refl) as (Henv & _).
  destruct (Henv name_env) as (_ & _ & _ & _ & _ & Heffect).
  destruct (Heffect empty_mem (String_, 0%nat) (String_, 1%nat) None p'
              (store_string empty_mem 1%nat "x")) as (Hfirst & _ & Hsecond).
  - reflexivity.
  - reflexivity.
  - intros n t Hm. change (EnvProvider.m name_env) with (∅ : gmap string typ) in Hm.
    by rewrite lookup_empty in Hm.
  - exact Hload.
  - destruct (Hsecond eq_refl) as [Hval Hmissing].
    split; [apply Hfirst; discriminate |]. split.
    + rewrite Hval; [vm_compute; reflexivity | vm_compute; discriminate].
    + intros Hin. apply Hmissing in Hin as [Hin | [Hraw _]].
      * vm_compute in Hin. by apply elem_of_nil in Hin.
      * revert Hraw. vm_compute. discriminate.
Defined.

(** * The further properties at work on small configurations *)

Lemma parseTag_reads_options_witness :
  (parseTag "field1,default=my value,required").1.1 = "field1"
  /\ (parseTag "field1,default=my value,required").1.2 = true
  /\ (parseTag "field1,default=my value,required").2 = "my value".
Proof.
  assert (Hall : Forall (fun part => has_byte "," part = false)
                   ["field1"; "default=my value"; "required"]).
  { repeat constructor. }
  destruct (parseTag_reads_options "field1" ["default=my value"; "required"] Hall)
    as (Hname & Hreq & _ & Hdef).
  split; [exact Hname |]. split.
  - apply Hreq. do 2 apply list_elem_of_further. apply list_elem_of_here.
  - apply (Hdef [] "my value" ["required"]); [reflexivity |]. repeat constructor.
Defined.

Lemma ParseReader_last_line_wins_witness :
  Dotenv.ParseReader (stream_of ["A=1"; " A = x=y "])
  = (inl (<["A" := " x=y"]> {["A" := "1"]}), stream_of []).
Proof.
  apply (ParseReader_last_line_wins ["A=1"] " A = x=y " "A " " x=y"
           {["A" := "1"]} false None); vm_compute; reflexivity.
Defined.

Lemma ParseReader_malformed_line_witness :
  Dotenv.ParseReader (stream_of ["# c"; "A=1"; "oops"; "B=2"])
  = (inr (errorString "malformed line 3: oops"), stream_of ["B=2"]).
Proof.
  apply (ParseReader_malformed_line ["# c"; "A=1"] "oops" ["B=2"]
           {["A" := "1"]} false None); vm_compute; reflexivity.
Defined.

Lemma ParseReader_skips_comments_witness :
  (Dotenv.ParseReader (stream_of ["A=1"; "  # note"; "B=2"])).1
  = inl {["A" := "1"; "B" := "2"]}.
Proof.
  apply (ParseReader_skips_comments ["A=1"] "  # note" ["B=2"] false None);
    vm_compute; reflexivity.
Defined.

Lemma ParseReader_stops_at_long_line_witness :
  Dotenv.ParseReader (stream_of ["A=1"; long_comment; "B=2"])
  = (inl {["A" := "1"]}, stream_of [long_comment; "B=2"]).
Proof.
  apply (ParseReader_stops_at_long_line ["A=1"] long_comment ["B=2"]
           {["A" := "1"]} false None); vm_compute; reflexivity.
Defined.

Lemma port_env_only n t :
  EnvProvider.m port_env !! n = Some t -> n = "port" /\ t = typ_Int (Some 0%nat).
Proof.
  unfold port_env, EnvProvider.IntVar, EnvProvider.bind. simpl.
  intros Hm. apply lookup_insert_Some in Hm as [[<- <-] | [_ Hm]]; [done |].
  by rewrite lookup_empty in Hm.
Qed.

Lemma env_load_assigns_witness :
  exists v,
    @coerce plain_runtime Int "8080" = Some v
    /\ read (store_int empty_mem 0%nat 8080) (Int, 0%nat) = Some v.
Proof.
  apply (@env_load_assigns plain_runtime plain_runtime_range port_env empty_mem
           port_env (store_int empty_mem 0%nat 8080) "port"
           (typ_Int (Some 0%nat)) (Int, 0%nat)).
  - vm_compute. reflexivity.
  - vm_compute. reflexivity.
  - reflexivity.
  - intros n t Hm _. by destruct (port_env_only n t Hm).
  - vm_compute. discriminate.
Defined.

Lemma env_missing_exact_witness :
  exists added,
    EnvProvider.Missing (EnvProvider.add_missing host_env "host")
    = EnvProvider.Missing host_env ++ added
    /\ forall n,
        n ∈ added
        <-> is_Some (EnvProvider.m host_env !! n)
            /\ n ∈ EnvProvider.required host_env
            /\ EnvProvider.rawVal (@EnvProvider.prepare plain_runtime host_env).2 n = "".
Proof.
  apply (@env_missing_exact plain_runtime plain_runtime_range host_env preset_mem
           (EnvProvider.add_missing host_env "host") preset_mem).
  vm_compute. reflexivity.
Defined.

Lemma env_bool_always_assigned_witness :
  ("debug" ∉ EnvProvider.Missing debug_env)
  /\ load_bool (store_bool empty_mem 0%nat false) 0%nat = false.
Proof.
  destruct (@env_bool_always_assigned plain_runtime plain_runtime_range
              (EnvProvider.NewEnvProvider (environ [])) 0%nat "debug" false true
              empty_mem debug_env (store_bool empty_mem 0%nat false))
    as (Hmiss & Hempty & _).
  - intros n t Hm.
    change (EnvProvider.m (EnvProvider.NewEnvProvider (environ [])))
      with (∅ : gmap string typ) in Hm.
    by rewrite lookup_empty in Hm.
  - apply not_elem_of_nil.
  - vm_compute. reflexivity.
  - split; [exact Hmiss |]. apply Hempty. vm_compute. reflexivity.
Defined.

Lemma shadowed_env_only n t :
  EnvProvider.m shadowed_env !! n = Some t ->
  n = "host" /\ t = typ_String (Some 0%nat).
Proof.
  unfold shadowed_env, EnvProvider.StringVar, EnvProvider.bind. simpl.
  intros Hm. apply lookup_insert_Some in Hm as [[<- <-] | [_ Hm]]; [done |].
  by rewrite lookup_empty in Hm.
Qed.

Lemma dotenv_shadows_environment_witness :
  EnvProvider.rawVal (@EnvProvider.prepare plain_runtime shadowed_env).2 "host"
  = "from-file"
  /\ exists p',
      @EnvProvider.Load plain_runtime shadowed_env empty_mem
      = Returned (None, p', store_string empty_mem 0%nat "from-file")
      /\ read (store_string empty_mem 0%nat "from-file") (String_, 0%nat)
         = Some (VString "from-file").
Proof.
  destruct (@dotenv_shadows_environment plain_runtime plain_runtime_range
              shadowed_env (stream_of ["HOST=from-file"])
              {["HOST" := "from-file"]} (stream_of []) "host" "from-file")
    as [Hraw Hload].
  - reflexivity.
  - reflexivity.
  - vm_compute. reflexivity.
  - reflexivity.
  - vm_compute. reflexivity.
  - split; [exact Hraw |].
    assert (Hl : exists p',
               @EnvProvider.Load plain_runtime shadowed_env empty_mem
               = Returned (None, p', store_string empty_mem 0%nat "from-file")).
    { eexists. vm_compute. reflexivity. }
    destruct Hl as [p' Hl]. exists p'. split; [exact Hl |].
    apply (Hload empty_mem p' _ (typ_String (Some 0%nat)) (String_, 0%nat) Hl).
    + vm_compute. reflexivity.
    + reflexivity.
    + intros n t Hm _. by destruct (shadowed_env_only n t Hm).
    + discriminate.
Defined.

Lemma dotenv_file_required_witness :
  exists e,
    @EnvProvider.Load plain_runtime dotenv_file_env empty_mem
    = Returned (Some e, dotenv_file_env, empty_mem)
    /\ Error e
       = "failed to add .env file: failed to parse .env file: failed to open file: "
         +:+ "open .env: no such file or directory".
Proof.
  apply (@dotenv_file_required plain_runtime dotenv_file_env empty_mem
           (errorString "open .env: no such file or directory"));
    reflexivity.
Defined.

Lemma stream_read_and_closed_witness :
  exists p',
    @EnvProvider.Load plain_runtime shadowed_env empty_mem
    = Returned (None, p', store_string empty_mem 0%nat "from-file")
    /\ EnvProvider.dotEnvReader p' = Some (MkReadCloser [] true None).
Proof.
  assert (Hl : exists p',
             @EnvProvider.Load plain_runtime shadowed_env empty_mem
             = Returned (None, p', store_string empty_mem 0%nat "from-file")).
  { eexists. vm_compute. reflexivity. }
  destruct Hl as [p' Hl]. exists p'. split; [exact Hl |].
  destruct (@stream_read_and_closed plain_runtime shadowed_env
              (stream_of ["HOST=from-file"]) {["HOST" := "from-file"]} (stream_of [])
              empty_mem None p' (store_string empty_mem 0%nat "from-file"))
    as (Hclosed & _ & _); [reflexivity | reflexivity | | exact Hl | exact Hclosed].
  vm_compute. reflexivity.
Defined.

Lemma env_load_returns_witness :
  exists err p' h',
    @EnvProvider.Load plain_runtime
      (fold_left env_register [name_first; name_second] name_env) empty_mem
    = Returned (err, p', h')
    /\ (err = None
        \/ (exists e, err = Some (Errorf_w "failed to add .env file: " e))
        \/ (exists n t cause,
               EnvProvider.m (fold_left env_register [name_first; name_second] name_env)
               !! n = Some t
               /\ err = Some (coercion_error n t cause))).
Proof.
  apply (@env_load_returns plain_runtime plain_runtime_range name_env
           [name_first; name_second] empty_mem).
  - intros n t Hm.
    change (EnvProvider.m name_env) with (∅ : gmap string typ) in Hm.
    by rewrite lookup_empty in Hm.
  - repeat constructor; by eexists.
Defined.

Lemma text_flag_is_read_witness :
  exists p1 h1 p2 h2,
    @FlagProvider.StringVar plain_runtime (FlagProvider.NewFlagProvider ["--my-name=x"])
      (Some 0%nat) "my_name" "" true empty_mem = Returned (p1, h1)
    /\ @FlagProvider.Load plain_runtime p1 h1 = (None, p2, h2)
    /\ load_string h2 0%nat = "x".
Proof.
  assert (Hreg : exists p1 h1,
             @FlagProvider.StringVar plain_runtime
               (FlagProvider.NewFlagProvider ["--my-name=x"])
               (Some 0%nat) "my_name" "" true empty_mem = Returned (p1, h1)).
  { eexists _, _. vm_compute. reflexivity. }
  destruct Hreg as (p1 & h1 & Hreg).
  destruct (@text_flag_is_read plain_runtime _ 0%nat "my_name" "" true empty_mem
              p1 h1 "--" "x" Hreg) as (p2 & h2 & Hload & Hv & _).
  - discriminate.
  - by right.
  - right. reflexivity.
  - by exists p1, h1, p2, h2.
Defined.

Lemma bool_flag_takes_no_token_witness :
  exists p1 h1 p2 h2,
    @FlagProvider.BoolVar plain_runtime
      (FlagProvider.NewFlagProvider ["--verbose"; "false"])
      (Some 0%nat) "verbose" false false empty_mem = Returned (p1, h1)
    /\ @FlagProvider.Load plain_runtime p1 h1 = (None, p2, h2)
    /\ load_bool h2 0%nat = true
    /\ Flag.Args (FlagProvider.fs p2) = ["false"].
Proof.
  assert (Hreg : exists p1 h1,
             @FlagProvider.BoolVar plain_runtime
               (FlagProvider.NewFlagProvider ["--verbose"; "false"])
               (Some 0%nat) "verbose" false false empty_mem = Returned (p1, h1)).
  { eexists _, _. vm_compute. reflexivity. }
  destruct Hreg as (p1 & h1 & Hreg).
  destruct (@bool_flag_takes_no_token plain_runtime _ 0%nat "verbose" false false
              empty_mem p1 h1 "--" "false" [] Hreg) as (p2 & h2 & Hload & Hv & Hargs).
  - discriminate.
  - by right.
  - reflexivity.
  - reflexivity.
  - by exists p1, h1, p2, h2.
Defined.

Lemma undefined_flag_fails_witness :
  exists e p',
    @FlagProvider.Load plain_runtime (FlagProvider.NewFlagProvider ["--nope"]) empty_mem
    = (Some e, p', empty_mem)
    /\ Error e = "failed to parse flags: flag provided but not defined: -nope"
    /\ FlagProvider.Missing p' = []
    /\ FlagProvider.remainingCalls p' = [].
Proof.
  apply (@undefined_flag_fails plain_runtime (FlagProvider.NewFlagProvider ["--nope"])
           empty_mem "--" "nope" None []).
  - split; [discriminate |]. split; reflexivity.
  - by right.
  - reflexivity.
  - discriminate.
  - discriminate.
  - reflexivity.
Defined.

Lemma flag_registration_writes_default_witness :
  exists P',
    @register plain_runtime (PFlag (FlagProvider.NewFlagProvider []))
      (StringVar (Some 0%nat) "host" "localhost" false) preset_mem
    = Returned (P', store_string preset_mem 0%nat "localhost")
    /\ read (store_string preset_mem 0%nat "localhost") (String_, 0%nat)
       = Some (VString "localhost").
Proof.
  assert (Hreg : exists P',
             @register plain_runtime (PFlag (FlagProvider.NewFlagProvider []))
               (StringVar (Some 0%nat) "host" "localhost" false) preset_mem
             = Returned (P', store_string preset_mem 0%nat "localhost")).
  { eexists. vm_compute. reflexivity. }
  destruct Hreg as [P' Hreg]. exists P'. split; [exact Hreg |].
  by destruct (@flag_registration_writes_default plain_runtime _ _ _ _ _
                 (String_, 0%nat) Hreg eq_refl).
Defined.

Lemma missing_exact_after_load_witness :
  exists added,
    FlagProvider.Missing (@FlagProvider.Load plain_runtime sink_flag empty_mem).1.2
    = FlagProvider.Missing sink_flag ++ added
    /\ forall n,
        n ∈ added
        <-> exists t,
              FlagProvider.m sink_flag !! n = Some t
              /\ Empty t (@FlagProvider.Load plain_runtime sink_flag empty_mem).2 = true
              /\ n ∈ FlagProvider.required sink_flag.
Proof.
  apply (proj1 (@missing_exact_after_load plain_runtime plain_runtime_range)
           sink_flag empty_mem).
  vm_compute. reflexivity.
Defined.

Lemma composer_stops_at_first_failure_witness :
  exists e q',
    @Load plain_runtime
      (PPriority port_bindings [PEnv bad_port_env; PFlag port_flag] ["port"] [])
      empty_mem
    = Returned
        (Some (Errorf_w "failed to load configuration with *conf.EnvProvider: " e),
         PPriority port_bindings [q'; PFlag port_flag] ["port"] [], empty_mem).
Proof.
  assert (Hq : exists e q',
             @Load plain_runtime (PEnv bad_port_env) empty_mem
             = Returned (Some e, q', empty_mem)).
  { eexists _, _. vm_compute. reflexivity. }
  destruct Hq as (e & q' & Hq). exists e, q'.
  apply (@composer_stops_at_first_failure plain_runtime port_bindings []
           (PEnv bad_port_env) [PFlag port_flag] ["port"] [] empty_mem []
           empty_mem e q' empty_mem); [reflexivity | exact Hq].
Defined.

Lemma composer_registers_everywhere_witness :
  exists P' h' ps',
    @register plain_runtime
      (PPriority ∅ [PEnv (EnvProvider.NewEnvProvider (environ []));
                    PFlag (FlagProvider.NewFlagProvider [])] [] [])
      (StringVar (Some 0%nat) "my_name" "" true) empty_mem
    = Returned (P', h')
    /\ P' = PPriority {["my_name" := typ_String (Some 0%nat)]} ps' ["my_name"] []
    /\ length ps' = 2%nat
    /\ Forall (fun q => binding_of q "my_name" = Some (typ_String (Some 0%nat))) ps'.
Proof.
  assert (Hreg : exists P' h',
             @register plain_runtime
               (PPriority ∅ [PEnv (EnvProvider.NewEnvProvider (environ []));
                             PFlag (FlagProvider.NewFlagProvider [])] [] [])
               (StringVar (Some 0%nat) "my_name" "" true) empty_mem
             = Returned (P', h')).
  { eexists _, _. vm_compute. reflexivity. }
  destruct Hreg as (P' & h' & Hreg).
  destruct (@composer_registers_everywhere plain_runtime _ _ _ _ _ _ _ _ Hreg)
    as (ps' & HP & Hlen & Hall).
  by exists P', h', ps'.
Defined.

Lemma field1_empty_env_only n t :
  EnvProvider.m field1_empty_env !! n = Some t ->
  n = "field1" /\ t = typ_String (Some 0%nat).
Proof.
  unfold field1_empty_env, EnvProvider.StringVar, EnvProvider.bind. simpl.
  intros Hm. apply lookup_insert_Some in Hm as [[<- <-] | [_ Hm]]; [done |].
  by rewrite lookup_empty in Hm.
Qed.

Lemma later_source_without_value_keeps_witness :
  exists A' h1,
    @Load plain_runtime field1_flag empty_mem = Returned (None, A', h1)
    /\ read (store_string empty_mem 0%nat "value2") (String_, 0%nat)
       = read h1 (String_, 0%nat).
Proof.
  assert (Hl : exists P',
             @Load plain_runtime
               (PPriority field1_bindings [field1_flag; PEnv field1_empty_env]
                  ["field1"] []) empty_mem
             = Returned (None, P', store_string empty_mem 0%nat "value2")).
  { eexists. vm_compute. reflexivity. }
  destruct Hl as [P' Hl].
  apply (@later_source_without_value_keeps plain_runtime plain_runtime_range
           field1_bindings field1_flag field1_empty_env ["field1"] [] empty_mem
           P' (store_string empty_mem 0%nat "value2") "field1"
           (typ_String (Some 0%nat)) (String_, 0%nat) Hl).
  - vm_compute. reflexivity.
  - reflexivity.
  - intros n t Hm _. by destruct (field1_empty_env_only n t Hm).
  - vm_compute. reflexivity.
  - vm_compute. reflexivity.
Defined.

Lemma ignored_fields_load_witness :
  @Load_cfg plain_runtime (TPtr (TStruct passed_over_fields))
    (DPtr (Some (DStruct [DOther; DSlot 0%nat; DPtr None]))) [] empty_mem
  = Returned (None, @default_config plain_runtime, empty_mem).
Proof.
  apply (@ignored_fields_load plain_runtime plain_runtime_range).
  - repeat constructor.
  - reflexivity.
Defined.

Lemma defined_type_field_panics_witness :
  @Load_cfg plain_runtime (TPtr (TStruct [level_field])) Field1_data [] empty_mem
  = Panicked "interface conversion: interface {} is *main.Level, not *int".
Proof.
  apply (@defined_type_field_panics plain_runtime [] "Level" Int "main.Level"
           "level" false [] [DSlot 0%nat] 0%nat [] empty_mem
           (@default_config plain_runtime) empty_mem).
  - right. by left.
  - discriminate.
  - discriminate.
  - left. vm_compute. reflexivity.
  - reflexivity.
  - reflexivity.
Defined.

Lemma malformed_default_fails_witness :
  @Load_cfg plain_runtime malformed_default_record Field1_data [] empty_mem
  = Returned
      (Some (Errorf_w ("failed to parse fallback value " +:+ dquote +:+ "abc"
                       +:+ dquote +:+ " as int: ")
               (@Strconv.NumError plain_runtime "Atoi" "abc" ErrSyntax)),
       @default_config plain_runtime, empty_mem).
Proof.
  apply (@malformed_default_fails plain_runtime []
           (MkField "port" "main" tInt "port,default=abc" false) [] [DSlot 0%nat]
           (DSlot 0%nat) [] empty_mem (@default_config plain_runtime) empty_mem
           (@Strconv.NumError plain_runtime "Atoi" "abc" ErrSyntax)).
  - discriminate.
  - split; [vm_compute; discriminate | vm_compute; reflexivity].
  - reflexivity.
  - reflexivity.
Defined.

Lemma required_integer_default_path_differs_witness :
  (exists c,
      @Load_cfg plain_runtime (one_field_record tInt "port,required") Field1_data []
        empty_mem
      = Returned (Some (errorString "missing configuration parameters: port"),
                  c, empty_mem))
  /\ (exists c,
      @LoadEnv plain_runtime (one_field_record tInt "port,required") Field1_data
        (@os_Getenv plain_runtime) empty_mem
      = Returned (None, c, empty_mem)).
Proof.
  apply (@required_integer_default_path_differs plain_runtime plain_runtime_range
           "port" 0%nat empty_mem); reflexivity.
Defined.

Lemma LoadEnv_fills_field_witness :
  exists c h',
    @LoadEnv plain_runtime (one_field_record tInt "max-conns") Field1_data
      (environ [("MAX_CONNS", "-12")]) empty_mem
    = Returned (None, c, h')
    /\ read h' (Int, 0%nat) = Some (VInt (-12)).
Proof.
  destruct (@LoadEnv_fills_field plain_runtime plain_runtime_range Int "max-conns"
              0%nat (environ [("MAX_CONNS", "-12")]) "-12" (VInt (-12)) empty_mem)
    as (c & h' & Hload & Hread & _).
  - right. left. reflexivity.
  - vm_compute. reflexivity.
  - discriminate.
  - vm_compute. reflexivity.
  - discriminate.
  - vm_compute. reflexivity.
  - exists c, h'. split; [exact Hload | exact Hread].
Defined.
